(** * Activity ingestion of the clan bot: a shallow embedding.

  The development follows the two ingestion flows of the repository:
  [seraphsix/tasks/activity.py] (the task flow: [execute_pydest], the
  cache accessors, [store_member_history], [store_all_games]) and
  [bot_activity.py] (the legacy flow: [get_member_history]).

  Python code is embedded as functions in a state-and-exception monad
  over an explicit [world]: the wall clock, the redis store, the set of
  coroutine objects that were already awaited, the log of upstream
  round-trips, the rate limiter, the relational tables and the logging
  output. *)

From stdpp Require Import base option strings pretty gmap list.
From Stdlib Require Import ZArith Lia.

Set Warnings "-register-all".
Local Open Scope string_scope.
Local Open Scope Z_scope.

(** ** Python values, exceptions and outcomes *)

Module Py.

(** The exception classes the two modules name in [raise], [except] and
    [backoff.on_exception], and the ones the interpreter raises by
    itself on the paths modelled here. *)
Inductive exn :=
| PydestException
| PydestPrivateHistoryException
| PydestMaintenanceException
| TimeoutError
| RateLimitException
| MaintenanceError
| RuntimeError
| KeyError
| TypeError
| AttributeError
| UnboundLocalError
| UnpicklingError
| RedisError
| DoesNotExist
| IntegrityError
| InternalError.

#[export] Instance exn_eq_dec : EqDecision exn.
Proof. solve_decision. Defined.

(** What running a piece of code gives: a value, a raised exception, or
    [Diverge] when a retry loop of the model ran out of fuel. *)
Inductive outcome (A : Type) :=
| Ok (a : A)
| Raise (e : exn)
| Diverge.
Arguments Ok {A} a.
Arguments Raise {A} e.
Arguments Diverge {A}.

(** JSON-like data: what upstream answers and what is pickled. *)
Inductive value :=
| VNone
| VBool (b : bool)
| VInt (z : Z)
| VStr (s : string)
| VList (l : list value)
| VDict (d : list (string * value)).

(** Python truthiness, as used by [if x:] and [filter(None, ...)]. *)
Definition truthy (v : value) : bool :=
  match v with
  | VNone => false
  | VBool b => b
  | VInt z => negb (z =? 0)
  | VStr s => negb (String.eqb s "")
  | VList l => match l with [] => false | _ => true end
  | VDict d => match d with [] => false | _ => true end
  end.

Fixpoint assoc (k : string) (d : list (string * value)) : option value :=
  match d with
  | [] => None
  | (k', v) :: d' => if String.eqb k k' then Some v else assoc k d'
  end.

(** [v[k]] for a string key: [KeyError] on a dict without the key,
    [TypeError] on anything that is not a dict. *)
Definition getitem (v : value) (k : string) : outcome value :=
  match v with
  | VDict d => match assoc k d with Some x => Ok x | None => Raise KeyError end
  | _ => Raise TypeError
  end.

(** [v.keys()]: only dicts have the attribute. *)
Definition keys (v : value) : outcome (list string) :=
  match v with
  | VDict d => Ok (map fst d)
  | _ => Raise AttributeError
  end.

(** Iterating a value in a [for] or a comprehension. *)
Definition iter (v : value) : outcome (list value) :=
  match v with
  | VList l => Ok l
  | VDict d => Ok (map (fun kv => VStr (fst kv)) d)
  | _ => Raise TypeError
  end.

(** A byte string held by redis: the output of [pickle.dumps] on a value,
    or any other text (the flag text [str(True)], damaged data). *)
Inductive blob :=
| Pickled (v : value)
| Raw (s : string).

(** [if redis_data:] on what [redis.get] returned. [pickle.dumps] never
    gives an empty byte string. *)
Definition blob_truthy (b : option blob) : bool :=
  match b with
  | None => false
  | Some (Pickled _) => true
  | Some (Raw s) => negb (String.eqb s "")
  end.

Definition pickle_loads (b : blob) : outcome value :=
  match b with
  | Pickled v => Ok v
  | Raw _ => Raise UnpicklingError
  end.

Definition pickle_dumps (v : value) : blob := Pickled v.

(** [str.title()] on a text in ASCII: a letter that follows a letter is
    put in lower case, any other letter in upper case; what is not an
    ASCII letter is kept and ends the word. *)
Definition is_upper (a : Ascii.ascii) : bool :=
  ((65 <=? Ascii.N_of_ascii a) && (Ascii.N_of_ascii a <=? 90))%N.

Definition is_lower (a : Ascii.ascii) : bool :=
  ((97 <=? Ascii.N_of_ascii a) && (Ascii.N_of_ascii a <=? 122))%N.

Definition to_upper (a : Ascii.ascii) : Ascii.ascii :=
  if is_lower a then Ascii.ascii_of_N (Ascii.N_of_ascii a - 32) else a.

Definition to_lower (a : Ascii.ascii) : Ascii.ascii :=
  if is_upper a then Ascii.ascii_of_N (Ascii.N_of_ascii a + 32) else a.

Fixpoint title_from (previous_is_cased : bool) (s : string) : string :=
  match s with
  | EmptyString => EmptyString
  | String a s' =>
      if is_upper a || is_lower a then
        String (if previous_is_cased then to_lower a else to_upper a) (title_from true s')
      else String a (title_from false s')
  end.

Definition py_title (s : string) : string := title_from false s.

(** The truth value of [eval] on the flag text. The program only ever
    writes [str(True)] under the flag key; the two boolean literals are
    given their meaning, and what the interpreter makes of any other
    text (a value, truthy or not, or an exception) is [other]. *)
Definition py_eval (other : blob -> outcome bool) (b : blob) : outcome bool :=
  match b with
  | Raw "True" => Ok true
  | Raw "False" => Ok false
  | _ => other b
  end.

End Py.
Export Py.

(** ** Rows of the relational store and records of the roster *)

(** [member_db.clanmember]. Dates are instants on one integer time line. *)
Record clanmember := ClanMemberRow {
  clan_id : nat;
  platform_id : Z;
  join_date : Z
}.

(** A [Member] row with its platform identities. Identities are kept in
    their textual form, the one the cache keys are built from. *)
Record member_db := MemberRow {
  member_pk : nat;
  member_clanmember : clanmember;
  bungie_id : string; bungie_username : string;
  psn_id : string; psn_username : string;
  xbox_id : string; xbox_username : string;
  blizzard_id : string; blizzard_username : string;
  steam_id : string; steam_username : string;
  stadia_id : string; stadia_username : string
}.

(** One entry of [game.clan_players]. *)
Record player := Player {
  membership_id : string;
  membership_type : Z;
  completed : bool;
  time_played : Z
}.

(** The attributes of a [ClanGame] object that the task flow reads. *)
Record clan_game := ClanGameObj {
  instance_id : string;
  date : Z;
  mode_id : Z;
  clan_players : list player
}.

Record game_row := GameRow {
  game_pk : nat;
  game_date : Z;
  game_mode_id : Z
}.

Record game_member_row := GameMemberRow {
  gm_completed : bool;
  gm_time_played : Z
}.

Record guild_row := GuildRow { aggregate_clans : bool }.

Record clan_row := ClanRow {
  clan_pk : nat;
  clan_name : string;
  activity_tracking : bool
}.

(** Modelled from the spec: the tables of [seraphsix.database], which is
    not among the sources. A Game is unique on its activity id, a
    GameMember on its (game, member) pair, a clan-game link on its
    (clan, game) pair; the three are finite maps and a finite set on
    those keys. The roster queries are finite maps on their arguments. *)
Record database := Database {
  Game_t : gmap string game_row;
  next_game_pk : nat;
  ClanGame_t : gset (nat * nat);
  GameMember_t : gmap (nat * nat) game_member_row;
  by_platform : gmap (string * Z * nat) nat;
  Guild_t : gmap Z guild_row;
  clans_by_guild : gmap Z (list clan_row);
  active_members : gmap nat (list member_db)
}.

(** *** The legacy store *)

Record legacy_member := LegacyMember {
  lm_xbox_username : string;
  lm_bungie_id : string;
  lm_join_date : Z
}.

Record game_session := GameSession {
  gs_count : Z;
  gs_last_updated : Z
}.

(** An entry of [game.players] in the legacy flow: the dict keys
    ['name'] and ['completed']. *)
Record legacy_player := LegacyPlayer {
  lp_name : string;
  lp_completed : bool
}.

Record legacy_game := LegacyGameObj {
  lg_date : Z;
  lg_mode_id : Z;
  lg_players : list legacy_player
}.

Record game_details := GameDetails {
  gd_date : Z;
  gd_mode_id : Z;
  gd_instance_id : string
}.

#[export] Instance game_details_eq_dec : EqDecision game_details.
Proof. solve_decision. Defined.

(** Modelled from the spec: the store behind the [database] argument of
    the legacy flow (module [members], not among the sources): the
    roster, the games unique on their activity id with the players
    recorded for them, and the per-(player, mode) session counters. *)
Record legacy_database := LegacyDatabase {
  l_members : list legacy_member;
  l_games : gmap string (game_details * list string);
  l_sessions : gmap (string * Z) game_session
}.

(** The calls the legacy flow makes on its store, in the order made. *)
Inductive db_call :=
| GetMembers
| GetMember (name : string)
| GetGameSession (name : string) (mode : Z)
| CreateGame (details : game_details) (players : list string)
| CreateGameSession (name : string) (mode : Z) (count : Z)
| UpdateGameSession (name : string) (mode : Z) (count : Z).

#[export] Instance db_call_eq_dec : EqDecision db_call.
Proof. solve_decision. Defined.

(** ** Upstream requests, coroutine objects, log records *)

Inductive request :=
| get_activity_history_req (platform : Z) (member char : string) (mode count : Z)
| get_post_game_carnage_report_req (activity : string)
| get_profile_req (platform : Z) (member : string) (components : list Z).

(** A coroutine object made by calling one of the [destiny.api] methods:
    creating it contacts nobody; awaiting it performs the request. *)
Record coroutine := Coroutine {
  coro_id : nat;
  coro_request : request
}.

Inductive log_record :=
| LogError (what : string)
| LogException (what : string)
| LogInfoCreated (title : string) (activity : string)
| LogInfoMissingPlayer (who : string) (kind : Z) (clan : nat)
| LogInfoFinding (game_mode : string) (guild : Z)
| LogInfoSkipClan (name : string)
| LogDebugFound (count : Z) (game_mode : string) (username : string)
| LogInfoFound (total : Z) (game_mode : string) (guild : Z).

(** ** The world *)

(** Whether an entry with the given expiry is still there at instant
    [t]: an entry without expiry stays. *)
Definition unexpired (t : Z) (expiry : option Z) : bool :=
  match expiry with
  | Some instant => t <? instant
  | None => true
  end.

Record world := World {
  now : Z; (* wall clock, in milliseconds *)
  redis : gmap string (blob * option Z); (* key to value and expiry instant, if any *)
  redis_up : bool; (* whether the redis connection answers *)
  awaited : gset nat; (* coroutine objects that were awaited *)
  next_coro : nat;
  round_trips : list request; (* requests that reached upstream, latest first *)
  num_calls : Z; (* state of the [limits] decorator *)
  last_reset : Z;
  db : database;
  ldb : legacy_database;
  trace : list db_call; (* calls on the legacy store, latest first *)
  logs : list log_record (* latest first *)
}.

Definition with_now (t : Z) (w : world) : world :=
  World t (redis w) (redis_up w) (awaited w) (next_coro w) (round_trips w)
        (num_calls w) (last_reset w) (db w) (ldb w) (trace w) (logs w).

Definition with_redis (r : gmap string (blob * option Z)) (w : world) : world :=
  World (now w) r (redis_up w) (awaited w) (next_coro w) (round_trips w)
        (num_calls w) (last_reset w) (db w) (ldb w) (trace w) (logs w).

Definition with_awaited (a : gset nat) (w : world) : world :=
  World (now w) (redis w) (redis_up w) a (next_coro w) (round_trips w)
        (num_calls w) (last_reset w) (db w) (ldb w) (trace w) (logs w).

Definition with_next_coro (n : nat) (w : world) : world :=
  World (now w) (redis w) (redis_up w) (awaited w) n (round_trips w)
        (num_calls w) (last_reset w) (db w) (ldb w) (trace w) (logs w).

Definition with_round_trips (l : list request) (w : world) : world :=
  World (now w) (redis w) (redis_up w) (awaited w) (next_coro w) l
        (num_calls w) (last_reset w) (db w) (ldb w) (trace w) (logs w).

Definition with_limiter (n : Z) (t : Z) (w : world) : world :=
  World (now w) (redis w) (redis_up w) (awaited w) (next_coro w) (round_trips w)
        n t (db w) (ldb w) (trace w) (logs w).

Definition with_db (d : database) (w : world) : world :=
  World (now w) (redis w) (redis_up w) (awaited w) (next_coro w) (round_trips w)
        (num_calls w) (last_reset w) d (ldb w) (trace w) (logs w).

Definition with_ldb (d : legacy_database) (w : world) : world :=
  World (now w) (redis w) (redis_up w) (awaited w) (next_coro w) (round_trips w)
        (num_calls w) (last_reset w) (db w) d (trace w) (logs w).

Definition with_trace (t : list db_call) (w : world) : world :=
  World (now w) (redis w) (redis_up w) (awaited w) (next_coro w) (round_trips w)
        (num_calls w) (last_reset w) (db w) (ldb w) t (logs w).

Definition with_logs (l : list log_record) (w : world) : world :=
  World (now w) (redis w) (redis_up w) (awaited w) (next_coro w) (round_trips w)
        (num_calls w) (last_reset w) (db w) (ldb w) (trace w) l.

(** ** The monad of Python code: state passing with exceptions *)

Definition M (A : Type) : Type := world -> outcome A * world.

Definition ret {A} (a : A) : M A := fun w => (Ok a, w).

Definition raise {A} (e : exn) : M A := fun w => (Raise e, w).

Definition bind {A B} (m : M A) (k : A -> M B) : M B :=
  fun w =>
    match m w with
    | (Ok a, w') => k a w'
    | (Raise e, w') => (Raise e, w')
    | (Diverge, w') => (Diverge, w')
    end.

Notation "'do' x <- m ; k" := (bind m (fun x => k))
  (at level 10, x name, m at level 100, k at level 200).
Notation "m ;; k" := (bind m (fun _ => k))
  (at level 100, k at level 200, right associativity).

(** Lifting a pure computation that may raise. *)
Definition lift {A} (o : outcome A) : M A := fun w => (o, w).

(** [try: m  except <handles>: h]. *)
Definition try_except {A} (m : M A) (handles : exn -> bool) (h : exn -> M A) : M A :=
  fun w =>
    match m w with
    | (Raise e, w') => if handles e then h e w' else (Raise e, w')
    | r => r
    end.

(** [try: m  except <handles>: h  else: k]: the [else] suite runs outside
    the protection of the handler. *)
Definition try_except_else {A B} (m : M A) (handles : exn -> bool)
    (h : exn -> M B) (k : A -> M B) : M B :=
  fun w =>
    match m w with
    | (Ok a, w') => k a w'
    | (Raise e, w') => if handles e then h e w' else (Raise e, w')
    | (Diverge, w') => (Diverge, w')
    end.

Definition logging (r : log_record) : M unit :=
  fun w => (Ok tt, with_logs (r :: logs w) w).

(** [asyncio.sleep], and [time.sleep] in the synchronous loop of
    [backoff]: the clock moves on; a negative delay returns at once. *)
Definition sleep (d : Z) : M unit :=
  fun w => (Ok tt, with_now (now w + Z.max 0 d) w).

(** ** What the sources import and do not define *)

(** The class hierarchy of the [pydest] exceptions is not among the
    sources: whether the two special classes derive from
    [PydestException] is left open. *)
Record hierarchy := Hierarchy {
  private_history_is_pydest : bool;
  maintenance_is_pydest : bool
}.

(** [isinstance(e, cls)]. The other classes, [MaintenanceError] of
    [seraphsix.errors] among them, derive from none of the classes that
    the handlers and the policies name. *)
Definition isinstance (h : hierarchy) (e cls : exn) : bool :=
  bool_decide (e = cls) ||
  match cls, e with
  | PydestException, PydestPrivateHistoryException => private_history_is_pydest h
  | PydestException, PydestMaintenanceException => maintenance_is_pydest h
  | _, _ => false
  end.

(** [except (A, B, ...)] and the class tuple of [on_exception]. *)
Definition matches (h : hierarchy) (classes : list exn) (e : exn) : bool :=
  existsb (isinstance h e) classes.

(** [except Exception]. *)
Definition any_exception (e : exn) : bool := true.

Record mode_details := ModeDetails {
  md_title : string;
  md_threshold : Z
}.

(** The names read from [seraphsix.constants], a module that is not
    among the sources. *)
Record constants := Constants {
  TIME_MIN_SECONDS : Z;
  TIME_HOUR_SECONDS : Z;
  PLATFORM_BUNGIE : Z;
  PLATFORM_PSN : Z;
  PLATFORM_XBOX : Z;
  PLATFORM_BLIZZARD : Z;
  PLATFORM_STEAM : Z;
  PLATFORM_STADIA : Z;
  COMPONENT_CHARACTERS : Z;
  SUPPORTED_GAME_MODES : string -> option (list Z);
  MODE_MAP : Z -> option mode_details;
  FORSAKEN_RELEASE : Z
}.

(** Everything outside the program: the exception hierarchy, the answers
    of upstream (by round-trip number and request), how long a round-trip
    takes, the random jitter of [backoff], the parsers [ClanGame] (of
    [seraphsix.models.destiny]) and [Game] (of [members]), the
    configured cutoff [bot.config.activity_cutoff], and what [eval]
    makes of a text that is not a boolean literal. *)
Record environment := Environment {
  hier : hierarchy;
  upstream : nat -> request -> outcome value;
  latency : nat -> Z;
  jitter : nat -> Z -> Z;
  ClanGame : value -> list member_db -> outcome clan_game;
  Game : value -> outcome legacy_game;
  activity_cutoff : Z;
  eval_other : blob -> outcome bool
}.

(** ** The access layer of [seraphsix/tasks/activity.py] *)

Section Activity.

Variable K : constants.
Variable E : environment.

(** *** redis *)

(** [redis.get]: an entry past its expiry is gone. *)
Definition redis_get (key : string) : M (option blob) :=
  fun w =>
    if redis_up w then
      (Ok match redis w !! key with
          | Some (b, expiry) => if unexpired (now w) expiry then Some b else None
          | None => None
          end, w)
    else (Raise RedisError, w).

(** [redis.set(key, value, expire=seconds)]. The client sends the expiry
    only when [expire] is truthy: with 0 the entry has no expiry. The
    server refuses a negative expiry. *)
Definition redis_set (key : string) (b : blob) (expire : Z) : M unit :=
  fun w =>
    if redis_up w then
      if expire <? 0 then (Raise RedisError, w)
      else
        let expiry := if expire =? 0 then None else Some (now w + 1000 * expire) in
        (Ok tt, with_redis (<[key := (b, expiry)]> (redis w)) w)
    else (Raise RedisError, w).

(** *** Coroutine objects *)

(** Calling a [destiny.api] method makes a new coroutine object. *)
Definition call_api (r : request) : M coroutine :=
  fun w => (Ok (Coroutine (next_coro w) r), with_next_coro (S (next_coro w)) w).

(** [await c], also through [asyncio.create_task(c)]: the first await
    performs the round-trip; a coroutine object that was awaited before
    cannot be reused. *)
Definition await (c : coroutine) : M value :=
  fun w =>
    if bool_decide (coro_id c ∈ awaited w) then (Raise RuntimeError, w)
    else
      let n := length (round_trips w) in
      (upstream E n (coro_request c),
       with_now (now w + Z.max 0 (latency E n))
         (with_round_trips (coro_request c :: round_trips w)
            (with_awaited ({[coro_id c]} ∪ awaited w) w))).

(** *** The decorators *)

(** [ratelimit.limits(calls, period)]: the call counter is reset when the
    period has elapsed, and a call over the quota raises. *)
Definition limits {A} (calls period : Z) (func : M A) : M A :=
  fun w =>
    let period_remaining := period - (now w - last_reset w) in
    let w1 := if period_remaining <=? 0 then with_limiter 0 (now w) w else w in
    let w2 := with_limiter (num_calls w1 + 1) (last_reset w1) w1 in
    if calls <? num_calls w2 then (Raise RateLimitException, w2) else func w2.

(** [backoff.expo] with its defaults: 1, 2, 4, ... seconds. *)
Definition expo (n : nat) : Z := 1000 * 2 ^ Z.of_nat n.

(** The delay before the next try: the jittered value of the wait
    generator, capped by what is left of [max_time]. *)
Definition next_wait (tries : nat) (elapsed : Z) (max_time : option Z) : Z :=
  let seconds := jitter E tries (expo (pred tries)) in
  match max_time with
  | Some t => Z.min seconds (t - elapsed)
  | None => seconds
  end.

(** The loop of [backoff.on_exception], by its documented behaviour:
    call the target; on an exception of the given classes give up when
    [max_tries] is reached or [max_time] has elapsed, otherwise sleep and
    call again with the same arguments. The elapsed time is read before
    the call. The loop around a plain function and the loop around an
    [async def] are the same, but that the second awaits the target. *)
Fixpoint retry_exception {A} (fuel : nat) (exception : list exn)
    (max_tries : option nat) (max_time : option Z) (target : M A)
    (tries : nat) (start : Z) : M A :=
  match fuel with
  | O => fun w => (Diverge, w)
  | S fuel' => fun w =>
      let tries := S tries in
      let elapsed := now w - start in
      match target w with
      | (Raise e, w') =>
          if matches (hier E) exception e then
            let max_tries_exceeded := bool_decide (max_tries = Some tries) in
            let max_time_exceeded :=
              match max_time with Some t => t <=? elapsed | None => false end in
            if max_tries_exceeded || max_time_exceeded then (Raise e, w')
            else
              match sleep (next_wait tries elapsed max_time) w' with
              | (_, w'') =>
                  retry_exception fuel' exception max_tries max_time target tries start w''
              end
          else (Raise e, w')
      | r => r
      end
  end.

Definition on_exception {A} (fuel : nat) (exception : list exn)
    (max_tries : option nat) (max_time : option Z) (target : M A) : M A :=
  fun w => retry_exception fuel exception max_tries max_time target 0 (now w) w.

(** *** [execute_pydest] *)

Definition maintenance_key : string := "global-bungie-maintenance".

(** [is_maintenance and eval(is_maintenance)]. *)
Definition maintenance_flag (is_maintenance : option blob) : M bool :=
  match is_maintenance with
  | Some b =>
      if blob_truthy is_maintenance then lift (py_eval (eval_other E) b) else ret false
  | None => ret false
  end.

(** The body of the function: what runs when the coroutine object that a
    call of the decorated function has returned is awaited. *)
Definition execute_pydest_body (function : coroutine) : M value :=
  do is_maintenance <- redis_get maintenance_key;
  do flagged <- maintenance_flag is_maintenance;
  if flagged then
    (await function ;;
     raise MaintenanceError)
  else
    try_except (await function)
      (fun e => isinstance (hier E) e PydestMaintenanceException)
      (fun e =>
         redis_set maintenance_key (Raw "True") (TIME_MIN_SECONDS K) ;;
         logging (LogError "PydestMaintenanceException") ;;
         raise MaintenanceError).

(** A call of the decorated function. [limits] wraps the [async def] in
    a plain function: it counts the call and returns the coroutine
    object of the body without awaiting it. The four [backoff] policies,
    outermost first as the decorators are written, therefore decorate a
    plain function: each runs its loop around that call alone, and sees
    what the call raises, not what an await of the body raises. *)
Definition execute_pydest_call (fuel : nat) : M unit :=
  on_exception fuel
    [PydestPrivateHistoryException; PydestMaintenanceException] (Some 1%nat) None
    (on_exception fuel [PydestException] None (Some 10000)
       (on_exception fuel [TimeoutError] (Some 1%nat) None
          (on_exception fuel [RateLimitException] None (Some 10000)
             (limits 25 1000 (ret tt))))).

(** [await execute_pydest(function, redis)]: the call, then the await of
    the coroutine object that the call returned. *)
Definition execute_pydest (fuel : nat) (function : coroutine) : M value :=
  execute_pydest_call fuel ;;
  execute_pydest_body function.

(** *** The cache accessors *)

Definition get_data (fuel : nat) (key : string) (function : coroutine) : M value :=
  do redis_data <- redis_get key;
  match redis_data with
  | Some b =>
      if blob_truthy redis_data then lift (pickle_loads b)
      else execute_pydest fuel function
  | None => execute_pydest fuel function
  end.

Definition set_data (key : string) (data : value) (expire : Z) : M unit :=
  try_except (redis_set key (pickle_dumps data) expire)
    any_exception
    (fun e => logging (LogException "Error setting data in redis") ;; ret tt).

Definition get_activity_history (fuel : nat) (platform_id : Z)
    (member_id char_id : string) (mode_id count : Z) : M value :=
  let redis_key := member_id +:+ "-activity-history" in
  do redis_data <- redis_get redis_key;
  let miss :=
    do function <- call_api (get_activity_history_req platform_id member_id char_id mode_id count);
    do data <- execute_pydest fuel function;
    try_except_else
      (do response <- lift (getitem data "Response");
       lift (getitem response "activities"))
      (fun e => bool_decide (e = KeyError))
      (fun e => ret VNone)
      (fun activities =>
         set_data redis_key activities (TIME_MIN_SECONDS K * 45) ;;
         ret activities) in
  match redis_data with
  | Some b => if blob_truthy redis_data then lift (pickle_loads b) else miss
  | None => miss
  end.

Definition get_pgcr (fuel : nat) (activity_id : string) : M value :=
  let redis_key := activity_id +:+ "-pcgr" in
  do redis_data <- redis_get redis_key;
  let miss :=
    do function <- call_api (get_post_game_carnage_report_req activity_id);
    do data <- execute_pydest fuel function;
    do pgcr <- lift (getitem data "Response");
    set_data redis_key pgcr (TIME_HOUR_SECONDS K) ;;
    ret pgcr in
  match redis_data with
  | Some b => if blob_truthy redis_data then lift (pickle_loads b) else miss
  | None => miss
  end.

Definition get_characters (fuel : nat) (member_id : string) (platform_id : Z) : M value :=
  let redis_key := member_id +:+ "-profile" in
  do redis_data <- redis_get redis_key;
  let miss :=
    do function <- call_api (get_profile_req platform_id member_id [COMPONENT_CHARACTERS K]);
    do data <- execute_pydest fuel function;
    do response <- lift (getitem data "Response");
    do characters <- lift (getitem response "characters");
    do characters <- lift (getitem characters "data");
    set_data redis_key characters (TIME_HOUR_SECONDS K) ;;
    ret characters in
  match redis_data with
  | Some b => if blob_truthy redis_data then lift (pickle_loads b) else miss
  | None => miss
  end.

(** *** [get_activity_list] *)

Definition obind {A B} (o : outcome A) (k : A -> outcome B) : outcome B :=
  match o with
  | Ok a => k a
  | Raise e => Raise e
  | Diverge => Diverge
  end.

(** [str(v)] as used in the f-strings that build cache keys. Instance ids
    are strings or integers in the upstream answers; a list or a dict is
    given a placeholder text. *)
Definition py_str (v : value) : string :=
  match v with
  | VStr s => s
  | VInt z => pretty z
  | VBool true => "True"
  | VBool false => "False"
  | VNone => "None"
  | VList _ => "[...]"
  | VDict _ => "{...}"
  end.

(** [[activity['activityDetails']['instanceId'] for activity in activities]]. *)
Fixpoint instance_ids (activities : list value) : outcome (list string) :=
  match activities with
  | [] => Ok []
  | activity :: rest =>
      obind (getitem activity "activityDetails") (fun details =>
      obind (getitem details "instanceId") (fun i =>
      obind (instance_ids rest) (fun ids => Ok (py_str i :: ids))))
  end.

(** The second [await function] in the handler awaits the coroutine
    object of the first: it was awaited, so it raises [RuntimeError],
    which [except Exception] turns into [continue] ([None] here). *)
Definition await_again_or_continue : M (option value) :=
  try_except (raise RuntimeError) any_exception (fun e => ret None).

Fixpoint get_activity_list_from (fuel : nat) (platform_id : Z) (member_id : string)
    (char_ids : list string) (mode_id count : Z) (all_activity_ids : list string)
    : M (list string) :=
  match char_ids with
  | [] => ret all_activity_ids
  | char_id :: char_ids' =>
      do activities <-
        try_except
          (do a <- get_activity_history fuel platform_id member_id char_id mode_id count;
           ret (Some a))
          (fun e => bool_decide (e = RuntimeError))
          (fun e => await_again_or_continue);
      match activities with
      | None =>
          get_activity_list_from fuel platform_id member_id char_ids' mode_id count
            all_activity_ids
      | Some activities =>
          if negb (truthy activities) then
            get_activity_list_from fuel platform_id member_id char_ids' mode_id count
              all_activity_ids
          else
            do l <- lift (iter activities);
            do ids <- lift (instance_ids l);
            get_activity_list_from fuel platform_id member_id char_ids' mode_id count
              (all_activity_ids ++ ids)%list
      end
  end.

Definition get_activity_list (fuel : nat) (platform_id : Z) (member_id : string)
    (char_ids : list string) (mode_id : Z) : M (list string) :=
  get_activity_list_from fuel platform_id member_id char_ids mode_id 30 [].

(** *** [parse_platform] *)

Definition parse_platform (member_db : member_db) (platform_id : Z)
    : outcome (string * string) :=
  if platform_id =? PLATFORM_BUNGIE K then
    Ok (bungie_id member_db, bungie_username member_db)
  else if platform_id =? PLATFORM_PSN K then
    Ok (psn_id member_db, psn_username member_db)
  else if platform_id =? PLATFORM_XBOX K then
    Ok (xbox_id member_db, xbox_username member_db)
  else if platform_id =? PLATFORM_BLIZZARD K then
    Ok (blizzard_id member_db, blizzard_username member_db)
  else if platform_id =? PLATFORM_STEAM K then
    Ok (steam_id member_db, steam_username member_db)
  else if platform_id =? PLATFORM_STADIA K then
    Ok (stadia_id member_db, stadia_username member_db)
  else Raise UnboundLocalError.

(** *** The operations of [bot.database] *)

Definition with_Game_t (t : gmap string game_row) (n : nat) (d : database) : database :=
  Database t n (ClanGame_t d) (GameMember_t d) (by_platform d) (Guild_t d)
           (clans_by_guild d) (active_members d).

Definition with_ClanGame_t (t : gset (nat * nat)) (d : database) : database :=
  Database (Game_t d) (next_game_pk d) t (GameMember_t d) (by_platform d) (Guild_t d)
           (clans_by_guild d) (active_members d).

Definition with_GameMember_t (t : gmap (nat * nat) game_member_row) (d : database)
    : database :=
  Database (Game_t d) (next_game_pk d) (ClanGame_t d) t (by_platform d) (Guild_t d)
           (clans_by_guild d) (active_members d).

(** Modelled from the spec: [database.get(Game, instance_id=...)] finds
    the row or raises the not-found condition. *)
Definition database_get_Game (instance : string) : M game_row :=
  fun w =>
    match Game_t (db w) !! instance with
    | Some r => (Ok r, w)
    | None => (Raise DoesNotExist, w)
    end.

(** Modelled from the spec: [database.create(Game, ...)] raises
    the uniqueness violation when the activity id is taken, and inserts
    a row under a new primary key otherwise. *)
Definition database_create_Game (game : clan_game) : M game_row :=
  fun w =>
    match Game_t (db w) !! instance_id game with
    | Some _ => (Raise IntegrityError, w)
    | None =>
        let r := GameRow (next_game_pk (db w)) (date game) (mode_id game) in
        (Ok r, with_db (with_Game_t (<[instance_id game := r]> (Game_t (db w)))
                          (S (next_game_pk (db w))) (db w)) w)
    end.

(** Modelled from the spec: lookup and insertion of a clan-game link. *)
Definition database_get_ClanGame (clan game : nat) : M unit :=
  fun w =>
    if bool_decide ((clan, game) ∈ ClanGame_t (db w)) then (Ok tt, w)
    else (Raise DoesNotExist, w).

Definition database_create_ClanGame (clan game : nat) : M unit :=
  fun w =>
    if bool_decide ((clan, game) ∈ ClanGame_t (db w)) then (Raise IntegrityError, w)
    else (Ok tt, with_db (with_ClanGame_t ({[(clan, game)]} ∪ ClanGame_t (db w)) (db w)) w).

(** Modelled from the spec: the roster query by platform identity gives
    the primary key of the member row. *)
Definition get_clan_member_by_platform (membership : string) (kind : Z) (clan : nat)
    : M nat :=
  fun w =>
    match by_platform (db w) !! (membership, kind, clan) with
    | Some pk => (Ok pk, w)
    | None => (Raise DoesNotExist, w)
    end.

(** Modelled from the spec: creation, lookup and update of GameMember
    rows, unique on (game, member). *)
Definition database_create_GameMember (member game : nat) (c : bool) (t : Z) : M unit :=
  fun w =>
    match GameMember_t (db w) !! (game, member) with
    | Some _ => (Raise IntegrityError, w)
    | None =>
        (Ok tt, with_db (with_GameMember_t
                           (<[(game, member) := GameMemberRow c t]> (GameMember_t (db w)))
                           (db w)) w)
    end.

Definition database_get_GameMember (game member : nat) : M game_member_row :=
  fun w =>
    match GameMember_t (db w) !! (game, member) with
    | Some r => (Ok r, w)
    | None => (Raise DoesNotExist, w)
    end.

Definition database_update_GameMember (game member : nat) (r : game_member_row) : M unit :=
  fun w =>
    (Ok tt, with_db (with_GameMember_t (<[(game, member) := r]> (GameMember_t (db w)))
                       (db w)) w).

Definition database_get_Guild (guild : Z) : M guild_row :=
  fun w =>
    match Guild_t (db w) !! guild with
    | Some r => (Ok r, w)
    | None => (Raise DoesNotExist, w)
    end.

Definition get_clans_by_guild (guild : Z) : M (list clan_row) :=
  fun w =>
    match clans_by_guild (db w) !! guild with
    | Some l => (Ok l, w)
    | None => (Raise DoesNotExist, w)
    end.

Definition get_clan_members_active (clan : nat) : M (list member_db) :=
  fun w => (Ok (default [] (active_members (db w) !! clan)), w).

(** *** [store_member_history] *)

Fixpoint for_each {X} (l : list X) (body : X -> M unit) : M unit :=
  match l with
  | [] => ret tt
  | x :: l' => body x ;; for_each l' body
  end.

Fixpoint fold_m {X S} (l : list X) (body : S -> X -> M S) (s : S) : M S :=
  match l with
  | [] => ret s
  | x :: l' => do s' <- body s x; fold_m l' body s'
  end.

(** The update of an existing GameMember row, the handler of
    [IntegrityError]: the stored row after the read-modify-write. *)
Definition merge_game_member (game_member_db : game_member_row) (player : player)
    : game_member_row :=
  let time := gm_time_played game_member_db + time_played player in
  if negb (gm_completed game_member_db)
     || negb (eqb (gm_completed game_member_db) (completed player))
  then GameMemberRow (completed player) time
  else GameMemberRow (gm_completed game_member_db) time.

(** One turn of [for player in game.clan_players]. *)
Definition store_game_member (clan game : nat) (player : player) : M unit :=
  do player_db <-
    try_except
      (get_clan_member_by_platform (membership_id player) (membership_type player) clan)
      (fun e => bool_decide (e = DoesNotExist))
      (fun e =>
         logging (LogInfoMissingPlayer (membership_id player) (membership_type player) clan) ;;
         raise e);
  try_except
    (database_create_GameMember player_db game (completed player) (time_played player))
    (fun e => bool_decide (e = IntegrityError))
    (fun e =>
       do game_member_db <- database_get_GameMember game player_db;
       database_update_GameMember game player_db (merge_game_member game_member_db player)).

(** The condition under which a game is passed over: any of the four
    comparisons. *)
Definition not_eligible (game : clan_game) (game_mode_details : mode_details)
    (member_db : member_db) : bool :=
  (Z.of_nat (length (clan_players game)) <? md_threshold game_mode_details)
  || (date game <? FORSAKEN_RELEASE K)
  || (date game <? activity_cutoff E)
  || (date game <? join_date (member_clanmember member_db)).

(** The membership step: the clan-game link and, when it is new, the
    GameMember rows. *)
Definition store_clan_game (clan : nat) (game : clan_game) (game_db : game_row) : M unit :=
  try_except
    (database_get_ClanGame clan (game_pk game_db))
    (fun e => bool_decide (e = DoesNotExist))
    (fun e =>
       database_create_ClanGame clan (game_pk game_db) ;;
       for_each (clan_players game) (store_game_member clan (game_pk game_db))).

(** The suite of [except DoesNotExist] in the Game step: the creation
    runs outside any handler. *)
Definition create_game_row (game : clan_game) (game_title activity_id : string)
    (mode_count : Z) : M (game_row * Z) :=
  do game_db <- database_create_Game game;
  logging (LogInfoCreated game_title activity_id) ;;
  ret (game_db, mode_count + 1).

(** The Game step: the row is looked up, and created when not found. *)
Definition store_game_row (game : clan_game) (game_title activity_id : string)
    (mode_count : Z) : M (game_row * Z) :=
  try_except
    (do game_db <- database_get_Game (instance_id game);
     ret (game_db, mode_count))
    (fun e => bool_decide (e = DoesNotExist))
    (fun e => create_game_row game game_title activity_id mode_count).

(** The loop body from [game = ClanGame(pgcr, member_dbs)] on. *)
Definition store_game (member_dbs : list member_db) (member_db : member_db)
    (mode_count : Z) (activity_id : string) (pgcr : value) : M Z :=
  do game <- lift (ClanGame E pgcr member_dbs);
  do game_mode_details <-
    lift (match MODE_MAP K (mode_id game) with
          | Some d => Ok d
          | None => Raise KeyError
          end);
  if not_eligible game game_mode_details member_db then ret mode_count
  else
    let game_title := py_title (md_title game_mode_details) in
    do stored <- store_game_row game game_title activity_id mode_count;
    store_clan_game (clan_id (member_clanmember member_db)) game (fst stored) ;;
    ret (snd stored).

(** One turn of [for activity_id in all_activity_ids]. *)
Definition store_activity (fuel : nat) (member_dbs : list member_db)
    (member_db : member_db) (member_username : string)
    (mode_count : Z) (activity_id : string) : M Z :=
  do pgcr <-
    try_except
      (do p <- get_pgcr fuel activity_id; ret (Some p))
      (fun e => bool_decide (e = RuntimeError))
      (fun e =>
         try_except
           (do p <- get_pgcr fuel activity_id; ret (Some p))
           any_exception
           (fun e => ret None));
  match pgcr with
  | None => ret mode_count
  | Some pgcr =>
      if negb (truthy pgcr) then
        logging (LogError member_username) ;;
        ret mode_count
      else store_game member_dbs member_db mode_count activity_id pgcr
  end.

Definition store_member_history (fuel : nat) (member_dbs : list member_db)
    (member_db : member_db) (game_mode : string) : M value :=
  let platform_id := platform_id (member_clanmember member_db) in
  do ids <- lift (parse_platform member_db platform_id);
  let member_id := fst ids in
  let member_username := snd ids in
  do char_ids <-
    try_except
      (do characters <- get_characters fuel member_id platform_id;
       do ks <- lift (keys characters);
       ret (Some ks))
      (fun e => bool_decide (e = KeyError) || bool_decide (e = TypeError))
      (fun e =>
         logging (LogError "Could not get character data") ;;
         ret None);
  match char_ids with
  | None => ret VNone
  | Some char_ids =>
      do modes <-
        lift (match SUPPORTED_GAME_MODES K game_mode with
              | Some l => Ok l
              | None => Raise TypeError
              end);
      do all_activity_ids <-
        fold_m modes
          (fun (all : list string) game_mode_id =>
             do activity_ids <-
               get_activity_list fuel platform_id member_id char_ids game_mode_id;
             ret (all ++ activity_ids)%list)
          [];
      do mode_count <-
        fold_m all_activity_ids
          (store_activity fuel member_dbs member_db member_username) 0;
      if negb (mode_count =? 0) then
        logging (LogDebugFound mode_count game_mode member_username) ;;
        ret (VInt mode_count)
      else ret VNone
  end.

(** *** [store_all_games] *)

(** Which list object a unit was handed as [member_dbs]: the one list
    that [extend] keeps growing when clans are aggregated, or the list a
    clan query returned. *)
Inductive list_ref :=
| GrownList
| QueriedList (l : list member_db).

Definition deref (final : list member_db) (r : list_ref) : list member_db :=
  match r with
  | GrownList => final
  | QueriedList l => l
  end.

(** The loop over the clans: the value of [member_dbs] and the units
    made so far. *)
Fixpoint make_tasks (guild_db : guild_row) (clan_dbs : list clan_row)
    (member_dbs : list member_db) (tasks : list (list_ref * member_db))
    : M (list member_db * list (list_ref * member_db)) :=
  match clan_dbs with
  | [] => ret (member_dbs, tasks)
  | clan_db :: clan_dbs' =>
      if negb (activity_tracking clan_db) then
        logging (LogInfoSkipClan (clan_name clan_db)) ;;
        make_tasks guild_db clan_dbs' member_dbs tasks
      else
        do active <- get_clan_members_active (clan_pk clan_db);
        let member_dbs' :=
          if aggregate_clans guild_db then (member_dbs ++ active)%list else active in
        let r := if aggregate_clans guild_db then GrownList else QueriedList active in
        make_tasks guild_db clan_dbs' member_dbs'
          (tasks ++ map (fun member_db => (r, member_db)) member_dbs')%list
  end.

(** [asyncio.gather] over the tasks, in the schedule in which every unit
    runs to its end before the next one starts, in the order of the
    list; the first exception is then the one that [gather] raises. With
    no unit or a single unit this is the only schedule. With several
    units the event loop can switch from one to another at every await:
    those schedules are not covered by this definition. *)
Fixpoint gather {A} (tasks : list (M A)) : M (list A) :=
  match tasks with
  | [] => ret []
  | t :: tasks' =>
      do r <- t;
      do rs <- gather tasks';
      ret (r :: rs)
  end.

(** [sum] over what [filter(None, results)] keeps. *)
Fixpoint py_sum (l : list value) : outcome Z :=
  match l with
  | [] => Ok 0
  | VInt z :: l' => obind (py_sum l') (fun s => Ok (z + s))
  | VBool b :: l' => obind (py_sum l') (fun s => Ok ((if b then 1 else 0) + s))
  | _ => Raise TypeError
  end.

Definition store_all_games (fuel : nat) (game_mode : string) (guild_id : Z) : M value :=
  do guild_db <- database_get_Guild guild_id;
  do clan_dbs <-
    try_except
      (do c <- get_clans_by_guild guild_id; ret (Some c))
      (fun e => bool_decide (e = DoesNotExist))
      (fun e => ret None);
  match clan_dbs with
  | None => ret VNone
  | Some clan_dbs =>
      logging (LogInfoFinding game_mode guild_id) ;;
      do made <- make_tasks guild_db clan_dbs [] [];
      do results <-
        gather (map (fun t =>
                       store_member_history fuel (deref (fst made) (fst t)) (snd t) game_mode)
                    (snd made));
      do total <- lift (py_sum (filter (fun r => truthy r = true) results));
      logging (LogInfoFound total game_mode guild_id) ;;
      ret VNone
  end.

End Activity.

(** ** The legacy flow of [bot_activity.py] *)

Module Legacy.

Definition PLATFORM_XBOX : Z := 1.
Definition COMPONENT_CHARACTERS : Z := 200.

Definition MODE_ALLPVP : Z := 5.
Definition MODE_GAMBIT : Z := 63.
Definition MODE_RAID : Z := 4.

Definition MODE_PVP_CONTROL : Z := 10.
Definition MODE_PVP_CLASH : Z := 12.
Definition MODE_PVP_MAYHEM : Z := 25.
Definition MODE_PVP_SUPREMACY : Z := 31.
Definition MODE_PVP_SURVIVAL : Z := 37.
Definition MODE_PVP_COUNTDOWN : Z := 38.
Definition MODE_PVP_IRONBANNER_CONTROL : Z := 43.
Definition MODE_PVP_IRONBANNER_CLASH : Z := 44.
Definition MODE_PVP_DOUBLES : Z := 50.
Definition MODE_PVP_BREAKTHROUGH : Z := 65.

Definition MODES_PVP_QUICK : list Z :=
  [MODE_PVP_CONTROL; MODE_PVP_CLASH; MODE_PVP_MAYHEM;
   MODE_PVP_SUPREMACY; MODE_PVP_DOUBLES;
   MODE_PVP_IRONBANNER_CONTROL; MODE_PVP_IRONBANNER_CLASH].

Definition MODES_PVP_COMP : list Z :=
  [MODE_PVP_SURVIVAL; MODE_PVP_COUNTDOWN; MODE_PVP_BREAKTHROUGH].

Definition PLAYER_COUNT : list (Z * Z) :=
  [(MODE_GAMBIT, 4); (MODE_RAID, 6); (MODE_PVP_DOUBLES, 2);
   (MODE_PVP_CONTROL, 6); (MODE_PVP_CLASH, 6); (MODE_PVP_MAYHEM, 6);
   (MODE_PVP_SUPREMACY, 6); (MODE_PVP_SURVIVAL, 4); (MODE_PVP_COUNTDOWN, 4);
   (MODE_PVP_BREAKTHROUGH, 4); (MODE_PVP_IRONBANNER_CONTROL, 6);
   (MODE_PVP_IRONBANNER_CLASH, 6)].

Fixpoint dict_get (k : Z) (d : list (Z * Z)) : outcome Z :=
  match d with
  | [] => Raise KeyError
  | (k', v) :: d' => if k =? k' then Ok v else dict_get k d'
  end.

(** 2018-09-04T18:00:00Z on the time line of the clock (milliseconds
    since the epoch). *)
Definition FORSAKEN_RELEASE : Z := 1536084000000.

Section Flow.

Variable E : environment.

(** The four decorated accessors: each try makes and awaits a new
    coroutine object, under one [backoff] policy of 60 seconds. *)
Definition get_activity_list (fuel : nat) (member_id char_id : string) (mode_id : Z)
    : M value :=
  on_exception E fuel [PydestException] None (Some 60000)
    (do c <- call_api (get_activity_history_req PLATFORM_XBOX member_id char_id mode_id 5);
     await E c).

Definition get_activity (fuel : nat) (activity_id : string) : M value :=
  on_exception E fuel [PydestException] None (Some 60000)
    (do c <- call_api (get_post_game_carnage_report_req activity_id);
     await E c).

Definition get_profile (fuel : nat) (member_id : string) : M value :=
  on_exception E fuel [PydestException] None (Some 60000)
    (do c <- call_api (get_profile_req PLATFORM_XBOX member_id [COMPONENT_CHARACTERS]);
     await E c).

(** *** The operations of the legacy store *)

Definition called (c : db_call) : M unit :=
  fun w => (Ok tt, with_trace (c :: trace w) w).

Definition with_l_games (g : gmap string (game_details * list string))
    (d : legacy_database) : legacy_database :=
  LegacyDatabase (l_members d) g (l_sessions d).

Definition with_l_sessions (s : gmap (string * Z) game_session)
    (d : legacy_database) : legacy_database :=
  LegacyDatabase (l_members d) (l_games d) s.

(** Modelled from the spec: the roster of tracked players. *)
Definition database_get_members : M (list legacy_member) :=
  called GetMembers ;;
  fun w => (Ok (l_members (ldb w)), w).

(** Modelled from the spec: a tracked player by name, or not found. *)
Definition database_get_member (name : string) : M legacy_member :=
  called (GetMember name) ;;
  fun w =>
    match find (fun m => String.eqb (lm_xbox_username m) name) (l_members (ldb w)) with
    | Some m => (Ok m, w)
    | None => (Raise DoesNotExist, w)
    end.

(** Modelled from the spec: the per-(player, mode) counter, or not
    found. *)
Definition database_get_game_session (name : string) (mode : Z) : M game_session :=
  called (GetGameSession name mode) ;;
  fun w =>
    match l_sessions (ldb w) !! (name, mode) with
    | Some s => (Ok s, w)
    | None => (Raise DoesNotExist, w)
    end.

(** Modelled from the spec: a game is created at most once per activity
    id; a second creation is a uniqueness violation. *)
Definition database_create_game (details : game_details) (players : list string) : M unit :=
  called (CreateGame details players) ;;
  fun w =>
    match l_games (ldb w) !! gd_instance_id details with
    | Some _ => (Raise IntegrityError, w)
    | None =>
        (Ok tt, with_ldb (with_l_games
                            (<[gd_instance_id details := (details, players)]> (l_games (ldb w)))
                            (ldb w)) w)
    end.

(** Modelled from the spec: a counter row is unique per (player, mode)
    and carries the instant of its last update. *)
Definition database_create_game_session (name : string) (mode count : Z) : M unit :=
  called (CreateGameSession name mode count) ;;
  fun w =>
    match l_sessions (ldb w) !! (name, mode) with
    | Some _ => (Raise IntegrityError, w)
    | None =>
        (Ok tt, with_ldb (with_l_sessions
                            (<[(name, mode) := GameSession count (now w)]> (l_sessions (ldb w)))
                            (ldb w)) w)
    end.

(** Modelled from the spec: the update adds to the running count and
    sets the last-updated instant; it fails with not-found when the
    counter row does not exist yet. *)
Definition database_update_game_session (name : string) (mode count : Z) : M unit :=
  called (UpdateGameSession name mode count) ;;
  fun w =>
    match l_sessions (ldb w) !! (name, mode) with
    | Some s =>
        (Ok tt, with_ldb (with_l_sessions
                            (<[(name, mode) := GameSession (gs_count s + count) (now w)]>
                               (l_sessions (ldb w)))
                            (ldb w)) w)
    | None => (Raise DoesNotExist, w)
    end.

(** [datetime.now(timezone.utc)]. *)
Definition datetime_now : M Z := fun w => (Ok (now w), w).

(** *** [get_member_history] *)

(** The [if]/[elif] chain: the variable is bound on five texts only. *)
Definition game_mode_id_of (game_mode : string) : option (Z + list Z) :=
  if String.eqb game_mode "gambit" then Some (inl MODE_GAMBIT)
  else if String.eqb game_mode "raid" then Some (inl MODE_RAID)
  else if String.eqb game_mode "pvp" then Some (inr (MODES_PVP_COMP ++ MODES_PVP_QUICK)%list)
  else if String.eqb game_mode "pvp-quick" then Some (inr MODES_PVP_QUICK)
  else if String.eqb game_mode "pvp-comp" then Some (inr MODES_PVP_COMP)
  else None.

(** [isinstance(game_mode_id, list)] and the two branches after it;
    reading the unbound variable raises. *)
Definition game_mode_list_of (game_mode : string) : outcome (list Z) :=
  match game_mode_id_of game_mode with
  | None => Raise UnboundLocalError
  | Some (inl game_mode_id) => Ok [game_mode_id]
  | Some (inr game_mode_id) => Ok game_mode_id
  end.

(** The loop that collects the names of the members that completed the
    game and had joined before it. *)
Fixpoint eligible_players (members : list string) (game : legacy_game)
    (game_players : list legacy_player) (players : list string) : M (list string) :=
  match game_players with
  | [] => ret players
  | player :: rest =>
      if lp_completed player && bool_decide (lp_name player ∈ members) then
        do member_db <- database_get_member (lp_name player);
        if lm_join_date member_db <? lg_date game then
          eligible_players members game rest (players ++ [lp_name player])%list
        else eligible_players members game rest players
      else eligible_players members game rest players
  end.

(** The condition under which a game is passed over in this flow. *)
Definition not_eligible (players : list string) (player_threshold : Z)
    (game : legacy_game) (member_join_date : Z) : bool :=
  (Z.of_nat (length players) <? player_threshold)
  || (lg_date game <? FORSAKEN_RELEASE)
  || (lg_date game <? member_join_date).

(** One turn of [for player in players] in the [else] suite. *)
Definition count_player (mode_id : Z) (mode_count : Z) (player : string) : M Z :=
  try_except
    (database_create_game_session player mode_id 1)
    (fun e => bool_decide (e = IntegrityError) || bool_decide (e = InternalError))
    (fun e => database_update_game_session player mode_id 1) ;;
  ret (mode_count + 1).

(** The game creation with its [except]/[else]. *)
Definition record_game (game_details : game_details) (players : list string)
    (mode_id : Z) (mode_count : Z) : M Z :=
  try_except_else
    (database_create_game game_details players)
    (fun e => bool_decide (e = IntegrityError))
    (fun e => ret mode_count)
    (fun _ => fold_m players (count_player mode_id) mode_count).

(** The loop body from the collection of the players on, for a parsed
    match report. *)
Definition store_game (members : list string) (member_join_date : Z)
    (mode_id player_threshold : Z) (mode_count : Z) (activity_id : string)
    (game : legacy_game) : M Z :=
  do players <- eligible_players members game (lg_players game) [];
  if not_eligible players player_threshold game member_join_date then ret mode_count
  else
    record_game (GameDetails (lg_date game) (lg_mode_id game) activity_id) players
      mode_id mode_count.

(** One turn of [for activity_id in activity_ids]. *)
Definition store_activity (fuel : nat) (members : list string) (member_join_date : Z)
    (mode_id player_threshold : Z) (mode_count : Z) (activity_id : string) : M Z :=
  do pgcr <- get_activity fuel activity_id;
  do response <- lift (getitem pgcr "Response");
  do game <- lift (Game E response);
  store_game members member_join_date mode_id player_threshold mode_count activity_id game.

(** One turn of [for char_id in char_ids]. *)
Definition store_character (fuel : nat) (members : list string) (member_id : string)
    (member_join_date : Z) (mode_id player_threshold : Z)
    (mode_count : Z) (char_id : string) : M Z :=
  do activity <- get_activity_list fuel member_id char_id mode_id;
  do activities <-
    try_except
      (do response <- lift (getitem activity "Response");
       do a <- lift (getitem response "activities");
       ret (Some a))
      (fun e => bool_decide (e = KeyError))
      (fun e => ret None);
  match activities with
  | None => ret mode_count
  | Some activities =>
      do l <- lift (iter activities);
      do activity_ids <- lift (instance_ids l);
      fold_m activity_ids
        (store_activity fuel members member_join_date mode_id player_threshold)
        mode_count
  end.

(** The freshness gate at the head of the loop over the modes: the
    stored count when the counter was updated within the last hour and
    [check_date] holds. *)
Definition fresh_count (member_name : string) (mode_id : Z) (check_date : bool)
    : M (option Z) :=
  try_except_else
    (database_get_game_session member_name mode_id)
    (fun e => bool_decide (e = DoesNotExist))
    (fun e => ret None)
    (fun game_session =>
       do t <- datetime_now;
       if (t - 3600000 <? gs_last_updated game_session) && check_date
       then ret (Some (gs_count game_session))
       else ret None).

(** One turn of [for mode_id in game_mode_list]. *)
Definition store_mode (fuel : nat) (members : list string) (member_name member_id : string)
    (member_join_date : Z) (char_ids : list string) (check_date : bool)
    (total_game_count : Z) (mode_id : Z) : M Z :=
  do fresh <- fresh_count member_name mode_id check_date;
  match fresh with
  | Some count => ret (total_game_count + count)
  | None =>
      do player_count <- lift (dict_get mode_id PLAYER_COUNT);
      let player_threshold :=
        if Z.quot player_count 2 <? 2 then 2 else Z.quot player_count 2 in
      do mode_count <-
        fold_m char_ids
          (store_character fuel members member_id member_join_date mode_id player_threshold)
          0;
      let total_game_count := total_game_count + mode_count in
      try_except
        (database_update_game_session member_name mode_id 0)
        (fun e => bool_decide (e = DoesNotExist))
        (fun e => ret tt) ;;
      ret total_game_count
  end.

Definition get_member_history (fuel : nat) (member_name game_mode : string)
    (check_date : bool) : M Z :=
  do game_mode_list <- lift (game_mode_list_of game_mode);
  do all_members <- database_get_members;
  let members := map lm_xbox_username all_members in
  do member_db <- database_get_member member_name;
  let member_id := lm_bungie_id member_db in
  let member_join_date := lm_join_date member_db in
  do profile <- get_profile fuel member_id;
  do response <- lift (getitem profile "Response");
  do characters <- lift (getitem response "characters");
  do data <- lift (getitem characters "data");
  do char_ids <- lift (keys data);
  fold_m game_mode_list
    (store_mode fuel members member_name member_id member_join_date char_ids check_date)
    0.

End Flow.

End Legacy.

(** * Definitions used by the statements *)

(** A relation between the world before and the world after is respected
    by a computation when every run keeps it, whatever the outcome. *)
Definition respects (R : world -> world -> Prop) {A} (m : M A) : Prop :=
  forall w, R w (snd (m w)).

(** The mode names on which the legacy flow binds its mode variable. *)
Definition recognised_modes : list string :=
  ["gambit"; "raid"; "pvp"; "pvp-quick"; "pvp-comp"].

(** ** A small concrete world, for evaluating the definitions *)

Module Sample.

Definition K : constants :=
  Constants 60 3600 254 2 1 4 3 5 200
    (fun game_mode => if String.eqb game_mode "raid" then Some [4] else None)
    (fun mode => if mode =? 4 then Some (ModeDetails "raid" 3) else None)
    1536084000000.

(** [2019-01-01] and [2019-02-01], in milliseconds since the epoch. *)
Definition jan_2019 : Z := 1546300800000.
Definition feb_2019 : Z := 1548979200000.

Definition entry (membership : string) (done : bool) (seconds : Z) : value :=
  VDict [("membershipId", VStr membership); ("membershipType", VInt 1);
         ("completed", VBool done); ("timePlayed", VInt seconds)].

(** A match report of a raid on [2019-02-01] with three tracked players. *)
Definition pgcr : value :=
  VDict [("instanceId", VStr "9001"); ("period", VInt feb_2019); ("mode", VInt 4);
         ("entries", VList [entry "11" true 1800; entry "12" true 1700;
                            entry "13" false 600])].

Definition as_int (v : value) : outcome Z :=
  match v with VInt z => Ok z | _ => Raise TypeError end.

Definition as_bool (v : value) : outcome bool :=
  match v with VBool b => Ok b | _ => Raise TypeError end.

Fixpoint parse_entries (l : list value) : outcome (list player) :=
  match l with
  | [] => Ok []
  | e :: l' =>
      obind (getitem e "membershipId") (fun i =>
      obind (obind (getitem e "membershipType") as_int) (fun k =>
      obind (obind (getitem e "completed") as_bool) (fun c =>
      obind (obind (getitem e "timePlayed") as_int) (fun t =>
      obind (parse_entries l') (fun ps => Ok (Player (py_str i) k c t :: ps))))))
  end.

(** A parser of match reports of the shape of [pgcr], standing for
    [ClanGame] in this world. *)
Definition parse_clan_game (report : value) (member_dbs : list member_db)
    : outcome clan_game :=
  obind (getitem report "instanceId") (fun i =>
  obind (obind (getitem report "period") as_int) (fun d =>
  obind (obind (getitem report "mode") as_int) (fun m =>
  obind (obind (getitem report "entries") iter) (fun es =>
  obind (parse_entries es) (fun ps => Ok (ClanGameObj (py_str i) d m ps)))))).

Fixpoint parse_legacy_entries (l : list value) : outcome (list legacy_player) :=
  match l with
  | [] => Ok []
  | e :: l' =>
      obind (getitem e "membershipId") (fun i =>
      obind (obind (getitem e "completed") as_bool) (fun c =>
      obind (parse_legacy_entries l') (fun ps => Ok (LegacyPlayer (py_str i) c :: ps))))
  end.

(** The same for [Game] of the legacy flow, with the membership id as
    the name of a player. *)
Definition parse_legacy_game (report : value) : outcome legacy_game :=
  obind (obind (getitem report "period") as_int) (fun d =>
  obind (obind (getitem report "mode") as_int) (fun m =>
  obind (obind (getitem report "entries") iter) (fun es =>
  obind (parse_legacy_entries es) (fun ps => Ok (LegacyGameObj d m ps))))).

(** Upstream answers every request with the same roster of one
    character, the same history of one activity and the same report. *)
Definition answer (r : request) : outcome value :=
  match r with
  | get_profile_req _ _ _ =>
      Ok (VDict [("Response",
            VDict [("characters", VDict [("data", VDict [("c1", VDict [])])])])])
  | get_activity_history_req _ _ _ _ _ =>
      Ok (VDict [("Response",
            VDict [("activities",
              VList [VDict [("activityDetails", VDict [("instanceId", VStr "9001")])]])])])
  | get_post_game_carnage_report_req _ => Ok (VDict [("Response", pgcr)])
  end.

(** An environment around given upstream answers; the organization-wide
    cutoff is [cutoff]. A round-trip takes 50 milliseconds and the
    jitter leaves the waits as they are. What [eval] makes of a text
    that is not a boolean literal plays no part in the sample worlds,
    whose flag key holds [True] or nothing. *)
Definition env (up : nat -> request -> outcome value) (cutoff : Z) : environment :=
  Environment (Hierarchy false false) up (fun _ => 50) (fun _ ceiling => ceiling)
    parse_clan_game parse_legacy_game cutoff (fun _ => Raise TypeError).

Definition E : environment := env (fun _ => answer) 0.

Definition member (pk : nat) (xbox : string) : member_db :=
  MemberRow pk (ClanMemberRow 1 1 jan_2019)
    "" "" "" "" xbox xbox "" "" "" "" "" "".

Definition roster : list member_db := [member 1 "11"; member 2 "12"; member 3 "13"].

Definition tables : database :=
  Database ∅ 0 ∅ ∅
    (list_to_map [(("11", 1, 1%nat), 1%nat); (("12", 1, 1%nat), 2%nat);
                  (("13", 1, 1%nat), 3%nat)])
    {[ 7 := GuildRow false ]}
    {[ 7 := [ClanRow 1 "clan" true] ]}
    {[ 1%nat := [member 1 "11"] ]}.

Definition legacy_tables : legacy_database :=
  LegacyDatabase
    [LegacyMember "11" "11" jan_2019; LegacyMember "12" "12" jan_2019;
     LegacyMember "13" "13" jan_2019]
    ∅ ∅.

(** The world at [2019-03-01], with an empty cache. *)
Definition w0 : world :=
  World 1551398400000 ∅ true ∅ 0 [] 0 0 tables legacy_tables [] [].

(** The same world while the maintenance flag is set and not expired. *)
Definition w_maintenance : world :=
  with_redis {[ maintenance_key := (Raw "True", Some (now w0 + 60000)) ]} w0.

Definition report_request : coroutine :=
  Coroutine 0 (get_post_game_carnage_report_req "9001").

End Sample.

(** ** Worlds for the GameMember update *)

Module SampleMember.

(** A later observation of player "11" in game 0: not completed, 600
    seconds. *)
Definition observation : player := Player "11" 1 false 600.

(** The store once game 0 holds a row for member 1, completed, 1800
    seconds. *)
Definition w_stored : world :=
  with_db (with_GameMember_t {[ (0%nat, 1%nat) := GameMemberRow true 1800 ]} Sample.tables)
    Sample.w0.

End SampleMember.

(** ** Cache entries, the flag, the limiter *)

(** The entry under [key] is there, not expired and not empty: what
    [if redis_data:] accepts. *)
Definition live (w : world) (key : string) (b : blob) : Prop :=
  redis_up w = true /\
  exists expiry, redis w !! key = Some (b, expiry) /\ unexpired (now w) expiry = true
                 /\ blob_truthy (Some b) = true.

(** The maintenance flag is set and not expired. *)
Definition flag_set (w : world) : Prop := live w maintenance_key (Raw "True").

(** The limiter lets the next call through: the period is over, or the
    quota of 25 calls is not used up. *)
Definition let_through (w : world) : Prop :=
  1000 - (now w - last_reset w) <= 0 \/ num_calls w + 1 <= 25.

(** The world once the limiter has counted a call. *)
Definition counted (w : world) : world :=
  let w1 := if 1000 - (now w - last_reset w) <=? 0 then with_limiter 0 (now w) w else w in
  with_limiter (num_calls w1 + 1) (last_reset w1) w1.

(** The world once a coroutine object not awaited before was awaited. *)
Definition round_trip (E : environment) (c : coroutine) (w : world) : world :=
  with_now (now w + Z.max 0 (latency E (length (round_trips w))))
    (with_round_trips (coro_request c :: round_trips w)
       (with_awaited ({[coro_id c]} ∪ awaited w) w)).

(** A world whose cache holds damaged data under the key of report 9001. *)
Definition w_damaged : world :=
  with_redis {[ "9001-pcgr" := (Raw "junk", Some (now Sample.w0 + 60000)) ]} Sample.w0.

(** ** Round-trips of one coroutine object *)

(** Between two worlds, the only request that reached upstream is the
    one of [c], and it was sent at most once: once [c] was awaited no
    request is sent any more. *)
Definition sent_at_most_once (c : coroutine) (w w' : world) : Prop :=
  (coro_id c ∈ awaited w ->
   coro_id c ∈ awaited w' /\ round_trips w' = round_trips w)
  /\ (coro_id c ∉ awaited w ->
      ((coro_id c ∉ awaited w') /\ round_trips w' = round_trips w)
      \/ (coro_id c ∈ awaited w' /\ round_trips w' = (coro_request c :: round_trips w))).

(** Upstream answers the first round-trip with the generic exception and
    would answer any later one with a value. *)
Definition fails_first (n : nat) (r : request) : outcome value :=
  match n with
  | O => Raise PydestException
  | S _ => Sample.answer r
  end.

(** ** What a call through [execute_pydest] leaves of the cache *)

(** The clock does not go back, the connection is as it was, and every
    entry but the maintenance flag is as it was. *)
Definition cache_frame (w w' : world) : Prop :=
  now w <= now w'
  /\ redis_up w' = redis_up w
  /\ forall key, key <> maintenance_key -> redis w' !! key = redis w !! key.

(** The last character of a text, [d] for the empty text. *)
Fixpoint last_char (s : string) (d : Ascii.ascii) : Ascii.ascii :=
  match s with
  | EmptyString => d
  | String a s' => last_char s' a
  end.

(** ** The world after a first read of an activity history *)

Definition history_of_11 : value :=
  VList [VDict [("activityDetails", VDict [("instanceId", VStr "9001")])]].

Definition w_after_history : world :=
  snd (get_activity_history Sample.K Sample.E 5 1 "11" "c1" 4 30 Sample.w0).

(** ** Eligibility of a match *)

(** The four conditions of the task flow. *)
Definition qualifies (K : constants) (E : environment) (game : clan_game)
    (game_mode_details : mode_details) (member_db : member_db) : Prop :=
  md_threshold game_mode_details <= Z.of_nat (length (clan_players game))
  /\ FORSAKEN_RELEASE K <= date game
  /\ activity_cutoff E <= date game
  /\ join_date (member_clanmember member_db) <= date game.

(** The three conditions of the legacy flow. *)
Definition legacy_qualifies (players : list string) (player_threshold : Z)
    (game : legacy_game) (member_join_date : Z) : Prop :=
  player_threshold <= Z.of_nat (length players)
  /\ Legacy.FORSAKEN_RELEASE <= lg_date game
  /\ member_join_date <= lg_date game.

(** The Game table is as it was. *)
Definition games_kept (w w' : world) : Prop := Game_t (db w') = Game_t (db w).

(** The legacy store is as it was. *)
Definition legacy_store_kept (w w' : world) : Prop := ldb w' = ldb w.

(** The games of the legacy store are as they were. *)
Definition legacy_games_kept (w w' : world) : Prop :=
  l_games (ldb w') = l_games (ldb w).

(** The environment of [Sample.E] with the organization-wide cutoff at
    [2019-03-01], after the date of the sample report. *)
Definition E_late_cutoff : environment :=
  Sample.env (fun _ => Sample.answer) 1551398400000.

(** The report of [Sample.pgcr] as the two flows parse it. *)
Definition sample_game : clan_game :=
  ClanGameObj "9001" Sample.feb_2019 4
    [Player "11" 1 true 1800; Player "12" 1 true 1700; Player "13" 1 false 600].

Definition sample_legacy_game : legacy_game :=
  LegacyGameObj Sample.feb_2019 4
    [LegacyPlayer "11" true; LegacyPlayer "12" true; LegacyPlayer "13" false].

(** ** A legacy store that already holds the sample game *)

Definition sample_details : game_details := GameDetails Sample.feb_2019 4 "9001".

Definition w_recorded : world :=
  with_ldb (Legacy.with_l_games {[ "9001" := (sample_details, ["11"; "12"]) ]} Sample.legacy_tables)
    Sample.w0.

(** A task-flow store that already holds the Game row of the sample
    report. *)
Definition w_known_game : world :=
  with_db (with_Game_t {[ "9001" := GameRow 0 Sample.feb_2019 4 ]} 1 Sample.tables) Sample.w0.

(** The legacy store of the sample world once the players of the sample
    game were collected. *)
Definition w_collected : world :=
  snd (Legacy.eligible_players ["11"; "12"; "13"] sample_legacy_game
         (lg_players sample_legacy_game) [] Sample.w0).

(** ** The zero-count update of the legacy flow *)

(** How many times the counter of (name, mode) was updated with count 0
    in a trace of calls. *)
Definition touches (name : string) (mode : Z) (t : list db_call) : nat :=
  count_occ db_call_eq_dec t (UpdateGameSession name mode 0).

Arguments touches : simpl never.

Definition touches_kept (name : string) (mode : Z) (w w' : world) : Prop :=
  touches name mode (trace w') = touches name mode (trace w).

(** The freshness gate lets the mode be skipped: the counter exists, was
    updated within the last hour, and [check_date] holds. *)
Definition fresh (w : world) (name : string) (mode : Z) (check_date : bool) : Prop :=
  exists s, l_sessions (ldb w) !! (name, mode) = Some s
            /\ now w - 3600000 < gs_last_updated s
            /\ check_date = true.

(** The world once the gate has read the counter. *)
Definition gated (name : string) (mode : Z) (w : world) : world :=
  with_trace (GetGameSession name mode :: trace w) w.

(** The threshold of a mode in the legacy flow. *)
Definition player_threshold_of (player_count : Z) : Z :=
  if Z.quot player_count 2 <? 2 then 2 else Z.quot player_count 2.

(** The sample world when player "11" has a counter for mode 37 that was
    updated a minute ago. *)
Definition w_fresh_counter : world :=
  with_ldb (Legacy.with_l_sessions {[ ("11", 37) := GameSession 5 (now Sample.w0 - 60000) ]}
              Sample.legacy_tables) Sample.w0.

(** ** Counting the Game rows that a run creates *)



(** ** The fan-out on the sample world *)




(** ** More of [seraphsix/tasks/activity.py] *)

(** [execute_pydest] called with one argument, as [decode_activity]
    calls it: the policies and the limiter run, and the call of the
    function itself, which lacks its [redis] argument, raises
    [TypeError]. *)
Definition execute_pydest_without_redis (E : environment) (fuel : nat) : M value :=
  on_exception E fuel
    [PydestPrivateHistoryException; PydestMaintenanceException] (Some 1%nat) None
    (on_exception E fuel [PydestException] None (Some 10000)
       (on_exception E fuel [TimeoutError] (Some 1%nat) None
          (on_exception E fuel [RateLimitException] None (Some 10000)
             (limits 25 1000 (raise TypeError))))).

(** [decode_activity]. The two coroutine objects are made by
    [destiny.update_manifest()] and [destiny.decode_hash(...)]; what
    awaiting them would ask of upstream is [manifest] and [definition]. *)
Definition decode_activity (K : constants) (E : environment) (fuel : nat)
    (manifest definition : request) : M value :=
  do updating <- call_api manifest;
  execute_pydest_without_redis E fuel ;;
  do function <- call_api definition;
  execute_pydest K E fuel function.

(** The world after [k] calls of [m] in a row. *)
Fixpoint call_times {A} (k : nat) (m : M A) (w : world) : world :=
  match k with
  | O => w
  | S k' => call_times k' m (snd (m w))
  end.

(** A computation that takes no time and leaves the limiter alone. *)
Definition instant {A} (m : M A) : Prop :=
  forall w, now (snd (m w)) = now w
            /\ num_calls (snd (m w)) = num_calls w
            /\ last_reset (snd (m w)) = last_reset w.

(** The world moved to a later instant. *)
Definition later (d : Z) (w : world) : world := with_now (now w + d) w.

(** The coroutine objects that were awaited were all made before. *)
Definition coroutines_made (w : world) : Prop :=
  forall i, i ∈ awaited w -> (i < next_coro w)%nat.

(** Upstream is in maintenance. *)
Definition in_maintenance (n : nat) (r : request) : outcome value :=
  Raise PydestMaintenanceException.

(** Upstream answers the history request without an [activities] field. *)
Definition no_activities (n : nat) (r : request) : outcome value :=
  Ok (VDict [("Response", VDict [])]).

(** The sample world at the start of a window of the limiter. *)
Definition w_window : world := with_limiter 0 (now Sample.w0) Sample.w0.

(** Nothing happened between two worlds that can be seen from outside:
    no request reached upstream, no coroutine object was awaited, and
    the cache, the stores and the log are the same. Only the clock, the
    limiter and the count of coroutine objects may differ. *)
Definition unobserved (w w' : world) : Prop :=
  round_trips w' = round_trips w /\ awaited w' = awaited w
  /\ redis w' = redis w /\ db w' = db w /\ ldb w' = ldb w
  /\ trace w' = trace w /\ logs w' = logs w.

(** Between two worlds the games, the clan-game links and the roster are
    the same: only GameMember rows, and what is outside the store, may
    differ. *)
Definition rows_only (w w' : world) : Prop :=
  Game_t (db w') = Game_t (db w) /\ ClanGame_t (db w') = ClanGame_t (db w)
  /\ by_platform (db w') = by_platform (db w).

(** A report of game 9001 with a player who is not on the roster between
    two who are. *)
Definition game_with_stranger : clan_game :=
  ClanGameObj "9001" Sample.feb_2019 4
    [Player "11" 1 true 1800; Player "99" 1 true 1700; Player "13" 1 true 600].

(** The six platform ids that [parse_platform] knows. *)
Definition known_platforms (K : constants) : list Z :=
  [PLATFORM_BUNGIE K; PLATFORM_PSN K; PLATFORM_XBOX K;
   PLATFORM_BLIZZARD K; PLATFORM_STEAM K; PLATFORM_STADIA K].

(** A member whose platform id, 9, is none of those of [Sample.K], and a
    world whose one tracked clan has that member as its active roster. *)
Definition stray_member : member_db :=
  MemberRow 9 (ClanMemberRow 1 9 Sample.jan_2019)
    "" "" "" "" "99" "99" "" "" "" "" "" "".

Definition w_stray : world :=
  with_db (Database ∅ 0 ∅ ∅ ∅
             {[ 7 := GuildRow false ]}
             {[ 7 := [ClanRow 1 "clan" true] ]}
             {[ 1%nat := [stray_member] ]})
    Sample.w0.

(** Upstream answers with a profile that has no characters. *)
Definition no_characters (n : nat) (r : request) : outcome value :=
  Ok (VDict [("Response", VDict [])]).

(** Every game that the legacy store held in the first world is held in
    the second, unchanged; and every game that it holds in the second
    was held in the first or is a game of at least two players, all
    among [members], dated at or after the release, and stored under its
    own activity id. *)
Definition recorded_by (members : list string) (w w' : world) : Prop :=
  (forall id x, l_games (ldb w) !! id = Some x -> l_games (ldb w') !! id = Some x)
  /\ forall id d ps,
       l_games (ldb w') !! id = Some (d, ps) ->
       l_games (ldb w) !! id = Some (d, ps)
       \/ (gd_instance_id d = id /\ (2 <= length ps)%nat
           /\ Legacy.FORSAKEN_RELEASE <= gd_date d
           /\ Forall (fun p => p ∈ members) ps).

(** ** [get_last_active] *)

Section LastActive.

Variable K : constants.
Variable E : environment.

(** [bungie_date_as_utc] of [seraphsix.cogs.utils.helpers], which is not
    among the sources: the instant that a date text denotes, or the
    exception that reading it raises. *)
Variable bungie_date_as_utc : value -> outcome Z.

(** The record that [logging.debug] is given in the loop. *)
Variable LogDebugLastActive : Z -> string -> Z -> log_record.

(** [v.items()]: only dicts have the attribute. *)
Definition items (v : value) : outcome (list (string * value)) :=
  match v with
  | VDict d => Ok d
  | _ => Raise AttributeError
  end.

(** The loop over the characters; [acct_last_active] is [None] or a
    date, and a date is never falsy. *)
Fixpoint last_active_from (platform_id : Z) (member_id : string)
    (characters : list (string * value)) (acct_last_active : option Z) : M (option Z) :=
  match characters with
  | [] => ret acct_last_active
  | (_, character) :: characters' =>
      do played <- lift (getitem character "dateLastPlayed");
      do char_last_active <- lift (bungie_date_as_utc played);
      if match acct_last_active with
         | None => true
         | Some acct => acct <? char_last_active
         end
      then
        logging (LogDebugLastActive platform_id member_id char_last_active) ;;
        last_active_from platform_id member_id characters' (Some char_last_active)
      else last_active_from platform_id member_id characters' acct_last_active
  end.

Definition get_last_active (fuel : nat) (member_db : member_db) : M (option Z) :=
  let platform_id := platform_id (member_clanmember member_db) in
  do ids <- lift (parse_platform K member_db platform_id);
  let member_id := fst ids in
  do characters <-
    try_except
      (do characters <- get_characters K E fuel member_id platform_id;
       do characters <- lift (items characters);
       ret (Some characters))
      (fun e => bool_decide (e = AttributeError))
      (fun e =>
         logging (LogError "Could not get character data") ;;
         ret None);
  match characters with
  | None => ret None
  | Some characters => last_active_from platform_id member_id characters None
  end.

End LastActive.

(** Upstream answers with a profile of two characters, last played at
    instants 5 and 9. *)
Definition played (n : nat) (r : request) : outcome value :=
  Ok (VDict [("Response",
        VDict [("characters",
          VDict [("data",
            VDict [("c1", VDict [("dateLastPlayed", VInt 5)]);
                   ("c2", VDict [("dateLastPlayed", VInt 9)])])])])]).

(** Every Game row of the first world is in the second, unchanged; and
    every Game row of the second world was in the first or is a row of a
    known mode dated at or after both the release and the configured
    cutoff. *)
Definition rows_dated (K : constants) (E : environment) (w w' : world) : Prop :=
  (forall instance r,
     Game_t (db w) !! instance = Some r -> Game_t (db w') !! instance = Some r)
  /\ forall instance r,
       Game_t (db w') !! instance = Some r ->
       Game_t (db w) !! instance = Some r
       \/ (FORSAKEN_RELEASE K <= game_date r /\ activity_cutoff E <= game_date r
           /\ is_Some (MODE_MAP K (game_mode_id r))).

(** * Properties *)

(** ** Reasoning about the monad *)

Lemma bind_ok {A B} (m : M A) (k : A -> M B) w a w' :
  m w = (Ok a, w') -> bind m k w = k a w'.
Proof. intros H. unfold bind. now rewrite H. Qed.

Lemma bind_raise {A B} (m : M A) (k : A -> M B) w e w' :
  m w = (Raise e, w') -> bind m k w = (Raise e, w').
Proof. intros H. unfold bind. now rewrite H. Qed.

Lemma bind_inv_ok {A B} (m : M A) (k : A -> M B) w b w' :
  bind m k w = (Ok b, w') ->
  exists a w1, m w = (Ok a, w1) /\ k a w1 = (Ok b, w').
Proof.
  unfold bind. destruct (m w) as [[a|e|] w1]; intros H; try discriminate.
  now exists a, w1.
Qed.

Lemma bind_lift_ok {A B} (a : A) (k : A -> M B) w : bind (lift (Ok a)) k w = k a w.
Proof. reflexivity. Qed.

Lemma bind_lift_raise {A B} e (k : A -> M B) w : bind (lift (Raise e)) k w = (Raise e, w).
Proof. reflexivity. Qed.

Lemma bind_ret {A B} (a : A) (k : A -> M B) w : bind (ret a) k w = k a w.
Proof. reflexivity. Qed.

Lemma try_except_ok {A} (m : M A) handles h w a w' :
  m w = (Ok a, w') -> try_except m handles h w = (Ok a, w').
Proof. intros H. unfold try_except. now rewrite H. Qed.

Lemma try_except_handled {A} (m : M A) handles h w e w' :
  m w = (Raise e, w') -> handles e = true -> try_except m handles h w = h e w'.
Proof. intros H He. unfold try_except. now rewrite H, He. Qed.

Lemma try_except_passed {A} (m : M A) handles h w e w' :
  m w = (Raise e, w') -> handles e = false ->
  try_except m handles h w = (Raise e, w').
Proof. intros H He. unfold try_except. now rewrite H, He. Qed.

(** A relation between the world before and the world after, kept by
    every step of a computation whatever its outcome. *)
Section Respects.

Variable R : world -> world -> Prop.
Hypothesis R_refl : forall w, R w w.
Hypothesis R_trans : forall a b c, R a b -> R b c -> R a c.

Lemma respects_ret {A} (a : A) : respects R (ret a).
Proof. intros w. apply R_refl. Qed.

Lemma respects_raise {A} (e : exn) : respects R (@raise A e).
Proof. intros w. apply R_refl. Qed.

Lemma respects_lift {A} (o : outcome A) : respects R (lift o).
Proof. intros w. apply R_refl. Qed.

Lemma respects_bind {A B} (m : M A) (k : A -> M B) :
  respects R m -> (forall a, respects R (k a)) -> respects R (bind m k).
Proof.
  intros Hm Hk w. unfold bind. specialize (Hm w).
  destruct (m w) as [[a|e|] w1]; simpl in *; auto.
  eapply R_trans; [exact Hm | apply Hk].
Qed.

Lemma respects_try_except {A} (m : M A) handles h :
  respects R m -> (forall e, respects R (h e)) -> respects R (try_except m handles h).
Proof.
  intros Hm Hh w. unfold try_except. specialize (Hm w).
  destruct (m w) as [[a|e|] w1]; simpl in *; auto.
  destruct (handles e); simpl; auto.
  eapply R_trans; [exact Hm | apply Hh].
Qed.

Lemma respects_try_except_else {A B} (m : M A) handles (h : exn -> M B) k :
  respects R m -> (forall e, respects R (h e)) -> (forall a, respects R (k a)) ->
  respects R (try_except_else m handles h k).
Proof.
  intros Hm Hh Hk w. unfold try_except_else. specialize (Hm w).
  destruct (m w) as [[a|e|] w1]; simpl in *; auto.
  - eapply R_trans; [exact Hm | apply Hk].
  - destruct (handles e); simpl; auto.
    eapply R_trans; [exact Hm | apply Hh].
Qed.

Lemma respects_for_each {X} (l : list X) (body : X -> M unit) :
  (forall x, respects R (body x)) -> respects R (for_each l body).
Proof.
  intros Hb. induction l as [|x l IH]; simpl.
  - apply respects_ret.
  - apply respects_bind; auto.
Qed.

Lemma respects_fold_m {X S} (l : list X) (body : S -> X -> M S) :
  (forall s x, respects R (body s x)) -> forall s, respects R (fold_m l body s).
Proof.
  intros Hb. induction l as [|x l IH]; intros s; simpl.
  - apply respects_ret.
  - apply respects_bind; auto.
Qed.

Lemma respects_gather {A} (tasks : list (M A)) :
  Forall (respects R) tasks -> respects R (gather tasks).
Proof.
  induction 1 as [|t tasks Ht _ IH]; simpl.
  - apply respects_ret.
  - apply respects_bind; [exact Ht | intros r].
    apply respects_bind; [exact IH | intros rs; apply respects_ret].
Qed.

Hypothesis R_sleep : forall d, respects R (sleep d).

Lemma respects_retry_exception {A} (E : environment) exception max_tries max_time
    (target : M A) :
  respects R target ->
  forall fuel tries start,
    respects R (retry_exception E fuel exception max_tries max_time target tries start).
Proof.
  intros Ht fuel. induction fuel as [|fuel IH]; intros tries start w; simpl.
  - apply R_refl.
  - specialize (Ht w). destruct (target w) as [[a|e|] w1]; simpl in *; auto.
    destruct (matches _ _ _); simpl; auto.
    destruct (_ || _); simpl; auto.
    eapply R_trans; [exact Ht |].
    match goal with
    | |- context [with_now (now w1 + Z.max 0 ?d) w1] =>
        eapply R_trans; [apply (R_sleep d w1) | apply IH]
    end.
Qed.

Lemma respects_on_exception {A} (E : environment) fuel exception max_tries max_time
    (target : M A) :
  respects R target ->
  respects R (on_exception E fuel exception max_tries max_time target).
Proof.
  intros Ht w. unfold on_exception. now apply respects_retry_exception.
Qed.

End Respects.

(** ** The legacy mode names (C10) *)

Lemma game_mode_id_of_unrecognised game_mode :
  game_mode ∉ recognised_modes -> Legacy.game_mode_id_of game_mode = None.
Proof.
  unfold recognised_modes. rewrite !not_elem_of_cons.
  intros (H1 & H2 & H3 & H4 & H5 & _).
  unfold Legacy.game_mode_id_of.
  repeat match goal with
         | H : game_mode <> ?s |- context [String.eqb game_mode ?s] =>
             rewrite (proj2 (String.eqb_neq game_mode s) H)
         end.
  reflexivity.
Qed.

Lemma game_mode_id_of_recognised game_mode :
  game_mode ∈ recognised_modes -> is_Some (Legacy.game_mode_id_of game_mode).
Proof.
  unfold recognised_modes. rewrite !elem_of_cons, elem_of_nil.
  intros [->|[->|[->|[->|[->|[]]]]]]; vm_compute; eauto.
Qed.

(** C10: outside the five recognised mode names, [get_member_history]
    raises the unbound-variable error at [isinstance(game_mode_id, list)],
    and the world is the one it started from: no call on the store, no
    coroutine made, no upstream round-trip. *)
Theorem get_member_history_unrecognised_mode E fuel member_name game_mode check_date w :
  game_mode ∉ recognised_modes ->
  Legacy.get_member_history E fuel member_name game_mode check_date w
  = (Raise UnboundLocalError, w).
Proof.
  intros H. unfold Legacy.get_member_history, Legacy.game_mode_list_of.
  rewrite (game_mode_id_of_unrecognised _ H). reflexivity.
Qed.

Lemma get_member_history_unrecognised_mode_witness :
  Legacy.get_member_history Sample.E 5 "11" "strikes" true Sample.w0
  = (Raise UnboundLocalError, Sample.w0).
Proof.
  apply (get_member_history_unrecognised_mode Sample.E 5 "11" "strikes" true Sample.w0).
  apply (bool_decide_unpack _). vm_compute. reflexivity.
Defined.

(** ** The update of an existing GameMember row (C2) *)

Lemma merge_game_member_eq r p :
  merge_game_member r p
  = GameMemberRow (completed p) (gm_time_played r + time_played p).
Proof.
  unfold merge_game_member. destruct r as [[] t], p as [i k [] t']; reflexivity.
Qed.

(** C2, as stated, fails: a stored row that is completed is set back to
    not completed by a later observation that did not complete. *)
Lemma store_game_member_downgrades :
  GameMember_t (db SampleMember.w_stored) !! (0%nat, 1%nat)
  = Some (GameMemberRow true 1800)
  /\ fst (store_game_member 1 0 SampleMember.observation SampleMember.w_stored) = Ok tt
  /\ GameMember_t (db (snd (store_game_member 1 0 SampleMember.observation
                              SampleMember.w_stored))) !! (0%nat, 1%nat)
     = Some (GameMemberRow false 2400).
Proof. vm_compute. repeat split; reflexivity. Qed.

(** C2, amended: on a later observation of a (game, member) pair that has
    a row, the update adds the observed time to the stored total and
    stores the observed completion flag, whatever the stored flag was. *)
Theorem store_game_member_existing_row clan game p pk r w :
  by_platform (db w) !! (membership_id p, membership_type p, clan) = Some pk ->
  GameMember_t (db w) !! (game, pk) = Some r ->
  store_game_member clan game p w
  = (Ok tt,
     with_db (with_GameMember_t
                (<[(game, pk) := GameMemberRow (completed p)
                                   (gm_time_played r + time_played p)]>
                   (GameMember_t (db w)))
                (db w)) w).
Proof.
  intros Hpk Hrow. unfold store_game_member.
  erewrite bind_ok; cycle 1.
  { apply try_except_ok. unfold get_clan_member_by_platform. rewrite Hpk. reflexivity. }
  erewrite try_except_handled; cycle 1.
  { unfold database_create_GameMember. rewrite Hrow. reflexivity. }
  { reflexivity. }
  erewrite bind_ok; cycle 1.
  { unfold database_get_GameMember. rewrite Hrow. reflexivity. }
  unfold database_update_GameMember. now rewrite merge_game_member_eq.
Qed.

Lemma store_game_member_existing_row_witness :
  store_game_member 1 0 SampleMember.observation SampleMember.w_stored
  = (Ok tt,
     with_db (with_GameMember_t
                (<[(0%nat, 1%nat) := GameMemberRow false (1800 + 600)]>
                   (GameMember_t (db SampleMember.w_stored)))
                (db SampleMember.w_stored)) SampleMember.w_stored).
Proof.
  apply (store_game_member_existing_row 1 0 SampleMember.observation 1
           (GameMemberRow true 1800) SampleMember.w_stored).
  - vm_compute. reflexivity.
  - vm_compute. reflexivity.
Defined.

(** ** Cache reads (C7) *)

Lemma redis_get_live w key b :
  live w key b -> redis_get key w = (Ok (Some b), w).
Proof.
  intros (Hup & expiry & Hk & Hnow & _). unfold redis_get. rewrite Hup, Hk.
  now rewrite Hnow.
Qed.

Lemma live_truthy w key b : live w key b -> blob_truthy (Some b) = true.
Proof. now intros (_ & _ & _ & _ & H). Qed.

(** C7, as stated, fails: with damaged data under the key of a match
    report, [get_pgcr] raises the deserialization error, and upstream
    was not asked. *)
Lemma get_pgcr_damaged_blob_propagates :
  live w_damaged "9001-pcgr" (Raw "junk")
  /\ fst (get_pgcr Sample.K Sample.E 5 "9001" w_damaged) = Raise UnpicklingError
  /\ round_trips (snd (get_pgcr Sample.K Sample.E 5 "9001" w_damaged)) = [].
Proof.
  split; [| split; vm_compute; reflexivity].
  split; [reflexivity |]. eexists. split; [vm_compute; reflexivity |].
  split; reflexivity.
Qed.

(** The four reads on a live entry. *)
Lemma live_entry_is_unpickled K E fuel w key b :
  live w key b ->
  (forall function, get_data K E fuel key function w = (pickle_loads b, w))
  /\ (forall platform member char mode count,
        key = member +:+ "-activity-history" ->
        get_activity_history K E fuel platform member char mode count w
        = (pickle_loads b, w))
  /\ (forall activity,
        key = activity +:+ "-pcgr" ->
        get_pgcr K E fuel activity w = (pickle_loads b, w))
  /\ (forall member platform,
        key = member +:+ "-profile" ->
        get_characters K E fuel member platform w = (pickle_loads b, w)).
Proof.
  intros H. pose proof (redis_get_live _ _ _ H) as Hget.
  pose proof (live_truthy _ _ _ H) as Ht.
  repeat split; intros; subst;
    unfold get_data, get_activity_history, get_pgcr, get_characters;
    (erewrite bind_ok; [| exact Hget]); rewrite Ht; reflexivity.
Qed.

(** C7, amended: a cache entry that is present, unexpired and not empty
    is deserialized and the outcome of the deserialization, a failure
    included, is the outcome of the read; the world is left as it was, so
    nothing is fetched from upstream. *)
Theorem cache_hit_is_unpickled K E fuel w key b :
  live w key b ->
  (forall function, get_data K E fuel key function w = (pickle_loads b, w))
  /\ (forall platform member char mode count,
        key = member +:+ "-activity-history" ->
        get_activity_history K E fuel platform member char mode count w
        = (pickle_loads b, w))
  /\ (forall activity,
        key = activity +:+ "-pcgr" ->
        get_pgcr K E fuel activity w = (pickle_loads b, w))
  /\ (forall member platform,
        key = member +:+ "-profile" ->
        get_characters K E fuel member platform w = (pickle_loads b, w)).
Proof. apply live_entry_is_unpickled. Qed.

Lemma cache_hit_is_unpickled_witness :
  (forall function,
      get_data Sample.K Sample.E 5 "9001-pcgr" function w_damaged
      = (pickle_loads (Raw "junk"), w_damaged))
  /\ (forall platform member char mode count,
        "9001-pcgr" = member +:+ "-activity-history" ->
        get_activity_history Sample.K Sample.E 5 platform member char mode count w_damaged
        = (pickle_loads (Raw "junk"), w_damaged))
  /\ (forall activity,
        "9001-pcgr" = activity +:+ "-pcgr" ->
        get_pgcr Sample.K Sample.E 5 activity w_damaged
        = (pickle_loads (Raw "junk"), w_damaged))
  /\ (forall member platform,
        "9001-pcgr" = member +:+ "-profile" ->
        get_characters Sample.K Sample.E 5 member platform w_damaged
        = (pickle_loads (Raw "junk"), w_damaged)).
Proof.
  apply (cache_hit_is_unpickled Sample.K Sample.E 5 w_damaged "9001-pcgr" (Raw "junk")).
  split; [reflexivity |]. eexists. split; [vm_compute; reflexivity |].
  split; reflexivity.
Defined.

(** ** The maintenance flag (C1) *)

Lemma limits_let_through {A} (m : M A) w :
  let_through w -> limits 25 1000 m w = m (counted w).
Proof.
  intros H. unfold limits, counted, let_through in *.
  destruct (Z.leb_spec (1000 - (now w - last_reset w)) 0) as [Hp|Hp]; simpl.
  - reflexivity.
  - destruct H as [H|H]; [lia |].
    destruct (Z.ltb_spec 25 (num_calls w + 1)); [lia | reflexivity].
Qed.

Lemma live_counted w key b : live w key b -> live (counted w) key b.
Proof.
  unfold live, counted.
  destruct (1000 - (now w - last_reset w) <=? 0); simpl; auto.
Qed.

Lemma retry_exception_ok {A} E fuel exception max_tries max_time (target : M A)
    tries start w a w' :
  target w = (Ok a, w') ->
  retry_exception E (S fuel) exception max_tries max_time target tries start w
  = (Ok a, w').
Proof. intros H. simpl. now rewrite H. Qed.

Lemma retry_exception_passed {A} E fuel exception max_tries max_time (target : M A)
    tries start w e w' :
  target w = (Raise e, w') -> matches (hier E) exception e = false ->
  retry_exception E (S fuel) exception max_tries max_time target tries start w
  = (Raise e, w').
Proof. intros H He. simpl. now rewrite H, He. Qed.

Lemma on_exception_ok {A} E fuel exception max_tries max_time (target : M A) w a w' :
  target w = (Ok a, w') ->
  on_exception E (S fuel) exception max_tries max_time target w = (Ok a, w').
Proof. intros H. unfold on_exception. now apply retry_exception_ok. Qed.

Lemma on_exception_passed {A} E fuel exception max_tries max_time (target : M A)
    w e w' :
  target w = (Raise e, w') -> matches (hier E) exception e = false ->
  on_exception E (S fuel) exception max_tries max_time target w = (Raise e, w').
Proof. intros H He. unfold on_exception. now apply retry_exception_passed. Qed.

(** A call that the limiter lets through is counted and returns at
    once; the body then runs on its own. *)
Lemma execute_pydest_call_let_through E fuel w :
  let_through w -> execute_pydest_call E (S fuel) w = (Ok tt, counted w).
Proof.
  intros Ha. unfold execute_pydest_call.
  do 4 apply on_exception_ok. now rewrite limits_let_through.
Qed.

Lemma execute_pydest_let_through K E fuel c w :
  let_through w ->
  execute_pydest K E (S fuel) c w = execute_pydest_body K E c (counted w).
Proof.
  intros Ha. unfold execute_pydest.
  erewrite bind_ok by (apply execute_pydest_call_let_through; exact Ha). reflexivity.
Qed.

(** Whatever the body raises is what the caller gets. *)
Lemma execute_pydest_passed K E fuel c w e w' :
  let_through w ->
  execute_pydest_body K E c (counted w) = (Raise e, w') ->
  execute_pydest K E (S fuel) c w = (Raise e, w').
Proof. intros Ha Hb. now rewrite execute_pydest_let_through. Qed.

Lemma execute_pydest_ok K E fuel c w v w' :
  let_through w ->
  execute_pydest_body K E c (counted w) = (Ok v, w') ->
  execute_pydest K E (S fuel) c w = (Ok v, w').
Proof. intros Ha Hb. now rewrite execute_pydest_let_through. Qed.

Lemma await_first E c w :
  coro_id c ∉ awaited w ->
  await E c w = (upstream E (length (round_trips w)) (coro_request c), round_trip E c w).
Proof.
  intros H. unfold await. rewrite bool_decide_eq_false_2 by exact H. reflexivity.
Qed.

Lemma await_again E c w :
  coro_id c ∈ awaited w -> await E c w = (Raise RuntimeError, w).
Proof. intros H. unfold await. now rewrite bool_decide_eq_true_2. Qed.

(** Under the flag the body awaits the call it was given, and raises
    the maintenance error only once that await has returned. *)
Lemma execute_pydest_body_flagged K E c w :
  flag_set w -> coro_id c ∉ awaited w ->
  execute_pydest_body K E c w
  = (match upstream E (length (round_trips w)) (coro_request c) with
     | Ok _ => Raise MaintenanceError
     | Raise e => Raise e
     | Diverge => Diverge
     end, round_trip E c w).
Proof.
  intros Hf Hc. unfold execute_pydest_body.
  erewrite bind_ok; [| apply redis_get_live; exact Hf].
  unfold bind at 1. simpl. unfold bind. rewrite (await_first _ _ _ Hc).
  destruct (upstream _ _ _); reflexivity.
Qed.

(** C1, as stated, fails: while the flag is set and not expired, a call
    through [execute_pydest] makes the upstream round-trip before the
    maintenance error is raised. *)
Lemma execute_pydest_flagged_contacts_upstream :
  flag_set Sample.w_maintenance
  /\ round_trips Sample.w_maintenance = []
  /\ fst (execute_pydest Sample.K Sample.E 5 Sample.report_request Sample.w_maintenance)
     = Raise MaintenanceError
  /\ round_trips
       (snd (execute_pydest Sample.K Sample.E 5 Sample.report_request Sample.w_maintenance))
     = [get_post_game_carnage_report_req "9001"].
Proof.
  split; [| repeat split; vm_compute; reflexivity].
  split; [reflexivity |]. eexists. split; [vm_compute; reflexivity |].
  split; reflexivity.
Qed.

(** C1, amended: while the flag is set and not expired, a call through
    [execute_pydest] that the limiter lets through awaits the upstream
    call it was given once, so that one round-trip is made, and when
    that call returns a value the value is dropped and the maintenance
    error is raised. *)
Theorem execute_pydest_flagged K E fuel c w v :
  flag_set w ->
  coro_id c ∉ awaited w ->
  let_through w ->
  upstream E (length (round_trips w)) (coro_request c) = Ok v ->
  execute_pydest K E (S fuel) c w = (Raise MaintenanceError, round_trip E c (counted w))
  /\ round_trips (round_trip E c (counted w)) = coro_request c :: round_trips w.
Proof.
  intros Hf Hc Ha Hv. split.
  - apply execute_pydest_passed; try reflexivity; [exact Ha |].
    rewrite execute_pydest_body_flagged.
    + replace (round_trips (counted w)) with (round_trips w).
      * now rewrite Hv.
      * unfold counted. now destruct (_ <=? _).
    + now apply live_counted.
    + unfold counted. now destruct (_ <=? _).
  - unfold round_trip, counted. now destruct (_ <=? _).
Qed.

Lemma execute_pydest_flagged_witness :
  execute_pydest Sample.K Sample.E 5 Sample.report_request Sample.w_maintenance
  = (Raise MaintenanceError,
     round_trip Sample.E Sample.report_request (counted Sample.w_maintenance))
  /\ round_trips (round_trip Sample.E Sample.report_request (counted Sample.w_maintenance))
     = coro_request Sample.report_request :: round_trips Sample.w_maintenance.
Proof.
  apply (execute_pydest_flagged Sample.K Sample.E 4 Sample.report_request
           Sample.w_maintenance (VDict [("Response", Sample.pgcr)])).
  - split; [reflexivity |]. eexists. split; [vm_compute; reflexivity |].
    split; reflexivity.
  - simpl. apply not_elem_of_empty.
  - left. vm_compute. discriminate.
  - reflexivity.
Defined.

(** ** Relations kept by the access layer *)

Section RespectsAccess.

Variable R : world -> world -> Prop.
Hypothesis R_refl : forall w, R w w.
Hypothesis R_trans : forall a b c, R a b -> R b c -> R a c.
Hypothesis R_sleep : forall d, respects R (sleep d).
Hypothesis R_limiter : forall n t w, R w (with_limiter n t w).
Hypothesis R_logging : forall r, respects R (logging r).

Lemma respects_redis_get key : respects R (redis_get key).
Proof. intros w. unfold redis_get. destruct (redis_up w); apply R_refl. Qed.

Lemma respects_maintenance_flag E o : respects R (maintenance_flag E o).
Proof.
  unfold maintenance_flag. destruct o; [| apply respects_ret; auto].
  destruct (blob_truthy _); [apply respects_lift | apply respects_ret]; auto.
Qed.

Lemma respects_limits {A} calls period (m : M A) :
  respects R m -> respects R (limits calls period m).
Proof.
  intros Hm w. unfold limits.
  set (w1 := if _ <=? _ then _ else w).
  assert (R w w1) as H1 by (subst w1; destruct (_ <=? _); auto).
  set (w2 := with_limiter _ _ w1).
  assert (R w w2) as H2 by (eapply R_trans; [exact H1 | apply R_limiter]).
  destruct (calls <? _); simpl; auto.
  eapply R_trans; [exact H2 | apply Hm].
Qed.

Lemma respects_execute_pydest_body K E c :
  respects R (await E c) ->
  respects R (redis_set maintenance_key (Raw "True") (TIME_MIN_SECONDS K)) ->
  respects R (execute_pydest_body K E c).
Proof.
  intros Ha Hs. unfold execute_pydest_body.
  apply respects_bind; [exact R_trans | apply respects_redis_get | intros o].
  apply respects_bind; [exact R_trans | apply respects_maintenance_flag | intros []].
  - apply respects_bind; [exact R_trans | exact Ha | intros _].
    now apply respects_raise.
  - apply respects_try_except; [exact R_trans | exact Ha | intros e].
    apply respects_bind; [exact R_trans | exact Hs | intros _].
    apply respects_bind; [exact R_trans | apply R_logging | intros _].
    now apply respects_raise.
Qed.

Lemma respects_execute_pydest K E fuel c :
  respects R (await E c) ->
  respects R (redis_set maintenance_key (Raw "True") (TIME_MIN_SECONDS K)) ->
  respects R (execute_pydest K E fuel c).
Proof.
  intros Ha Hs. unfold execute_pydest.
  apply respects_bind;
    [exact R_trans | | intros _; now apply respects_execute_pydest_body].
  unfold execute_pydest_call.
  do 4 (apply respects_on_exception; auto).
  apply respects_limits. now apply respects_ret.
Qed.

End RespectsAccess.

(** ** No retry of an upstream exception (C5) *)

Lemma sent_at_most_once_refl c w : sent_at_most_once c w w.
Proof. unfold sent_at_most_once. tauto. Qed.

Lemma sent_at_most_once_same c w w' :
  awaited w' = awaited w -> round_trips w' = round_trips w -> sent_at_most_once c w w'.
Proof. unfold sent_at_most_once. intros -> ->. tauto. Qed.

Lemma sent_at_most_once_trans c w1 w2 w3 :
  sent_at_most_once c w1 w2 -> sent_at_most_once c w2 w3 -> sent_at_most_once c w1 w3.
Proof.
  unfold sent_at_most_once. intros [H1 H1'] [H2 H2']. split.
  - intros H. destruct (H1 H) as [Ha Hr]. destruct (H2 Ha) as [Ha' Hr'].
    split; [exact Ha' | congruence].
  - intros H. destruct (H1' H) as [[Hn Hr]|[Ha Hr]].
    + destruct (H2' Hn) as [[Hn' Hr']|[Ha' Hr']]; [left | right];
        (split; [assumption | congruence]).
    + destruct (H2 Ha) as [Ha' Hr']. right. split; [exact Ha' | congruence].
Qed.

Lemma sent_at_most_once_await E c : respects (sent_at_most_once c) (await E c).
Proof.
  intros w. unfold await. case_bool_decide as Hc; simpl.
  - apply sent_at_most_once_refl.
  - split; [tauto |]. intros _. right. split; [set_solver | reflexivity].
Qed.

Lemma sent_at_most_once_execute_pydest K E fuel c :
  respects (sent_at_most_once c) (execute_pydest K E fuel c).
Proof.
  apply respects_execute_pydest.
  - apply sent_at_most_once_refl.
  - apply sent_at_most_once_trans.
  - intros d w. now apply sent_at_most_once_same.
  - intros n t w. now apply sent_at_most_once_same.
  - intros r w. now apply sent_at_most_once_same.
  - apply sent_at_most_once_await.
  - intros w. unfold redis_set.
    destruct (redis_up w); try destruct (_ <? 0); now apply sent_at_most_once_same.
Qed.

(** What the awaited upstream call raises, a maintenance exception
    apart, is what the body raises, after the round-trip. *)
Lemma execute_pydest_body_unflagged K E c w :
  redis_up w = true -> redis w !! maintenance_key = None -> coro_id c ∉ awaited w ->
  forall e,
    upstream E (length (round_trips w)) (coro_request c) = Raise e ->
    isinstance (hier E) e PydestMaintenanceException = false ->
    execute_pydest_body K E c w = (Raise e, round_trip E c w).
Proof.
  intros Hup Hflag Hc e He Hm. unfold execute_pydest_body.
  erewrite bind_ok; cycle 1.
  { unfold redis_get. rewrite Hup, Hflag. reflexivity. }
  simpl. rewrite bind_ret.
  apply try_except_passed; [| exact Hm].
  now rewrite (await_first _ _ _ Hc), He.
Qed.

(** No policy sees what the await of the body raises: the exception of
    upstream surfaces from the single attempt, with no sleep. *)
Lemma execute_pydest_surfaces K E fuel c w e :
  redis_up w = true -> redis w !! maintenance_key = None -> coro_id c ∉ awaited w ->
  let_through w ->
  upstream E (length (round_trips w)) (coro_request c) = Raise e ->
  isinstance (hier E) e PydestMaintenanceException = false ->
  execute_pydest K E (S fuel) c w = (Raise e, round_trip E c (counted w)).
Proof.
  intros Hup Hflag Hc Ha He Hm.
  apply execute_pydest_passed; [exact Ha |].
  apply execute_pydest_body_unflagged.
  - unfold counted. now destruct (_ <=? _).
  - unfold counted. now destruct (_ <=? _).
  - unfold counted. now destruct (_ <=? _).
  - replace (round_trips (counted w)) with (round_trips w); [exact He |].
    unfold counted. now destruct (_ <=? _).
  - exact Hm.
Qed.

(** C5, what the code does instead: no exception of upstream is retried.
    Whatever the policies, the clock and the answers of upstream, one
    call through [execute_pydest] sends the request of its coroutine
    object at most once, and sends nothing when that object was awaited
    before. When the limiter lets the call through and the awaited call
    raises an exception other than a maintenance exception (the generic
    exception, a timeout, a private history), that exception surfaces
    at once: the world is the one left by the single round-trip, with no
    backoff sleep. *)
Theorem execute_pydest_single_round_trip K E fuel c w :
  (round_trips (snd (execute_pydest K E fuel c w)) = round_trips w
   \/ round_trips (snd (execute_pydest K E fuel c w)) = coro_request c :: round_trips w)
  /\ (coro_id c ∈ awaited w ->
      round_trips (snd (execute_pydest K E fuel c w)) = round_trips w)
  /\ (forall fuel' e,
        redis_up w = true -> redis w !! maintenance_key = None ->
        coro_id c ∉ awaited w -> let_through w ->
        upstream E (length (round_trips w)) (coro_request c) = Raise e ->
        isinstance (hier E) e PydestMaintenanceException = false ->
        execute_pydest K E (S fuel') c w = (Raise e, round_trip E c (counted w))
        /\ now (round_trip E c (counted w))
           = now w + Z.max 0 (latency E (length (round_trips w)))).
Proof.
  destruct (sent_at_most_once_execute_pydest K E fuel c w) as [H1 H2].
  split; [| split].
  - destruct (decide (coro_id c ∈ awaited w)) as [Hc|Hc].
    + left. now apply H1.
    + destruct (H2 Hc) as [[_ Hr]|[_ Hr]]; auto.
  - intros Hc. now apply H1.
  - intros fuel' e Hup Hflag Hc Ha He Hm. split.
    + now apply execute_pydest_surfaces.
    + unfold round_trip, counted. now destruct (_ <=? _).
Qed.

(** The failing input of C5: upstream raises the generic exception on
    the first round-trip and would answer a second one. The exception is
    raised by the await of the body, outside the policies: it surfaces
    after the single round-trip of 50 milliseconds, and no second request
    is made. *)
Lemma execute_pydest_generic_exception_not_retried :
  fst (execute_pydest Sample.K (Sample.env fails_first 0) 5 Sample.report_request Sample.w0)
  = Raise PydestException
  /\ round_trips
       (snd (execute_pydest Sample.K (Sample.env fails_first 0) 5 Sample.report_request
               Sample.w0))
     = [get_post_game_carnage_report_req "9001"]
  /\ now (snd (execute_pydest Sample.K (Sample.env fails_first 0) 5 Sample.report_request
                 Sample.w0))
     = now Sample.w0 + 50.
Proof. vm_compute. repeat split; reflexivity. Qed.

(** ** The key of the activity-history cache (C9) *)

Lemma last_char_app s a t d :
  last_char (s +:+ String a t) d = last_char (String a t) d.
Proof.
  revert d. induction s as [|b s IH]; intros d; simpl.
  - reflexivity.
  - rewrite IH. reflexivity.
Qed.

Lemma activity_history_key_not_flag member :
  member +:+ "-activity-history" <> maintenance_key.
Proof.
  intros H. apply (f_equal (fun s => last_char s Ascii.zero)) in H.
  rewrite last_char_app in H. vm_compute in H. discriminate.
Qed.

Lemma cache_frame_refl w : cache_frame w w.
Proof. unfold cache_frame. split; [lia | auto]. Qed.

Lemma cache_frame_trans w1 w2 w3 :
  cache_frame w1 w2 -> cache_frame w2 w3 -> cache_frame w1 w3.
Proof.
  unfold cache_frame. intros (H1 & H2 & H3) (H1' & H2' & H3').
  split; [lia |]. split; [congruence |].
  intros key Hk. rewrite H3', H3; auto.
Qed.

Lemma cache_frame_execute_pydest K E fuel c :
  respects cache_frame (execute_pydest K E fuel c).
Proof.
  apply respects_execute_pydest.
  - apply cache_frame_refl.
  - apply cache_frame_trans.
  - intros d w. unfold cache_frame. simpl. split; [lia | auto].
  - intros n t w. unfold cache_frame. simpl. split; [lia | auto].
  - intros r w. unfold cache_frame. simpl. split; [lia | auto].
  - intros w. unfold await. case_bool_decide; simpl; [apply cache_frame_refl |].
    unfold cache_frame. simpl. split; [lia | auto].
  - intros w. unfold redis_set. destruct (redis_up w) eqn:Hup; simpl;
      [| apply cache_frame_refl].
    destruct (_ <? 0); simpl; [apply cache_frame_refl |].
    unfold cache_frame. simpl. split; [lia |]. split; [reflexivity |].
    intros key Hk. now rewrite lookup_insert_ne.
Qed.

(** What the upstream branch of a read leaves under the key of the read
    when it returned a value: the entry as it was, or a fresh pickle of
    the value that was returned. *)
Lemma get_activity_history_upstream_branch K E fuel platform member char mode count w
    acts w1 :
  (do function <- call_api (get_activity_history_req platform member char mode count);
   do data <- execute_pydest K E fuel function;
   try_except_else
     (do response <- lift (getitem data "Response");
      lift (getitem response "activities"))
     (fun e => bool_decide (e = KeyError))
     (fun e => ret VNone)
     (fun activities =>
        set_data (member +:+ "-activity-history") activities (TIME_MIN_SECONDS K * 45) ;;
        ret activities)) w = (Ok acts, w1) ->
  now w <= now w1
  /\ (redis w1 !! (member +:+ "-activity-history")
      = redis w !! (member +:+ "-activity-history")
      \/ exists expiry,
           redis w1 !! (member +:+ "-activity-history") = Some (Pickled acts, expiry)).
Proof.
  intros Hrun.
  apply bind_inv_ok in Hrun as (function & wa & Hcall & Hrun).
  apply bind_inv_ok in Hrun as (data & wb & Hexec & Hrun).
  unfold call_api in Hcall. injection Hcall as <- <-.
  pose proof (cache_frame_execute_pydest K E fuel
                (Coroutine (next_coro w)
                   (get_activity_history_req platform member char mode count))
                (with_next_coro (S (next_coro w)) w)) as Hframe.
  rewrite Hexec in Hframe. simpl in Hframe. destruct Hframe as (Hnow & Hup & Hkeys).
  specialize (Hkeys _ (activity_history_key_not_flag member)).
  simpl in Hnow, Hup, Hkeys.
  unfold try_except_else in Hrun.
  destruct (bind (lift (getitem data "Response")) _ wb) as [[activities|e|] wc] eqn:Hparse;
    try discriminate.
  - assert (wc = wb) as ->.
    { unfold bind, lift in Hparse. destruct (getitem data "Response"); try discriminate.
      destruct (getitem a "activities"); congruence. }
    apply bind_inv_ok in Hrun as ([] & wd & Hset & Hret).
    unfold ret in Hret. injection Hret as <- <-.
    unfold set_data, try_except, redis_set in Hset.
    destruct (redis_up wb) eqn:Hupb; [destruct (_ <? 0) |].
    + simpl in Hset. unfold bind, logging, ret in Hset. simpl in Hset.
      injection Hset as <-. simpl. split; [lia |]. left. exact Hkeys.
    + injection Hset as <-. simpl. split; [lia |]. right.
      eexists. unfold pickle_dumps. apply lookup_insert_eq.
    + simpl in Hset. unfold bind, logging, ret in Hset. simpl in Hset.
      injection Hset as <-. simpl. split; [lia |]. left. exact Hkeys.
  - assert (wc = wb) as ->.
    { unfold bind, lift in Hparse. destruct (getitem data "Response"); congruence. }
    destruct (bool_decide (e = KeyError)); [| discriminate].
    unfold ret in Hrun. injection Hrun as <- <-. split; [lia |]. left. exact Hkeys.
Qed.

Lemma get_activity_history_after_miss K E fuel platform member char mode count w o
    acts w1 :
  redis_get (member +:+ "-activity-history") w = (Ok o, w) ->
  blob_truthy o = false ->
  get_activity_history K E fuel platform member char mode count w = (Ok acts, w1) ->
  now w <= now w1
  /\ (redis w1 !! (member +:+ "-activity-history")
      = redis w !! (member +:+ "-activity-history")
      \/ exists expiry,
           redis w1 !! (member +:+ "-activity-history") = Some (Pickled acts, expiry)).
Proof.
  intros Hget Hfalsy Hrun. unfold get_activity_history in Hrun.
  erewrite bind_ok in Hrun by exact Hget. cbv beta zeta in Hrun.
  destruct o as [b|]; [rewrite Hfalsy in Hrun |];
    exact (get_activity_history_upstream_branch _ _ _ _ _ _ _ _ _ _ _ Hrun).
Qed.

(** C9: the cache key of the activity history is made of the member id
    alone. When a call for a member has returned a list, a later call for
    the same member made while the entry under that key is live returns
    the same list, whatever platform, character, mode and count it asks
    for, and leaves the world as it is: it asks nothing of upstream. *)
Theorem get_activity_history_keyed_by_member K E fuel fuel'
    platform platform' member char char' mode mode' count count' w w1 w2 acts b :
  get_activity_history K E fuel platform member char mode count w = (Ok acts, w1) ->
  now w1 <= now w2 ->
  redis w2 !! (member +:+ "-activity-history")
  = redis w1 !! (member +:+ "-activity-history") ->
  live w2 (member +:+ "-activity-history") b ->
  get_activity_history K E fuel' platform' member char' mode' count' w2 = (Ok acts, w2).
Proof.
  intros Hfirst Hclock Hsame Hlive.
  destruct (live_entry_is_unpickled K E fuel' w2 _ b Hlive) as (_ & Hhit & _).
  rewrite (Hhit platform' member char' mode' count' eq_refl).
  f_equal.
  destruct Hlive as (Hup2 & expiry & Hentry & Hnot_expired & Htruthy).
  destruct (redis_get (member +:+ "-activity-history") w) as [o w'] eqn:Hget.
  assert (w' = w) as ->.
  { unfold redis_get in Hget. destruct (redis_up w); congruence. }
  destruct o as [o| |].
  - destruct (blob_truthy o) eqn:Ho.
    + (* the first call was served from the cache *)
      destruct o as [b0|]; [| discriminate].
      unfold get_activity_history in Hfirst.
      erewrite bind_ok in Hfirst by exact Hget. rewrite Ho in Hfirst.
      unfold lift in Hfirst. injection Hfirst as Hloads <-.
      unfold redis_get in Hget. destruct (redis_up w); [| discriminate].
      rewrite Hsame in Hentry. rewrite Hentry in Hget.
      destruct (unexpired (now w) expiry); congruence.
    + (* the first call went to upstream *)
      destruct (get_activity_history_after_miss _ _ _ _ _ _ _ _ _ _ _ _ Hget Ho Hfirst)
        as (Hnow & [Hkept | (expiry' & Hfresh)]).
      * exfalso. rewrite Hsame, Hkept in Hentry.
        unfold redis_get in Hget. destruct (redis_up w); [| discriminate].
        rewrite Hentry in Hget.
        replace (unexpired (now w) expiry) with true in Hget.
        -- injection Hget as <-. congruence.
        -- destruct expiry as [instant|]; [| reflexivity]. cbn in *.
           symmetry. apply Z.ltb_lt. apply Z.ltb_lt in Hnot_expired. lia.
      * rewrite Hsame, Hfresh in Hentry. injection Hentry as <- _. reflexivity.
  - unfold get_activity_history in Hfirst.
    erewrite bind_raise in Hfirst by exact Hget. discriminate.
  - unfold get_activity_history, bind in Hfirst. rewrite Hget in Hfirst. discriminate.
Qed.

Lemma get_activity_history_keyed_by_member_witness :
  get_activity_history Sample.K Sample.E 3 2 "11" "c2" 5 10 w_after_history
  = (Ok history_of_11, w_after_history).
Proof.
  apply (get_activity_history_keyed_by_member Sample.K Sample.E 5 3
           1 2 "11" "c1" "c2" 4 5 30 10 Sample.w0 w_after_history w_after_history
           history_of_11 (Pickled history_of_11)).
  - vm_compute. reflexivity.
  - lia.
  - reflexivity.
  - split; [reflexivity |]. eexists. split; [vm_compute; reflexivity |].
    split; reflexivity.
Defined.

(** ** Eligibility and persistence of a match (C6) *)

Lemma not_eligible_false_iff K E game details member_db :
  not_eligible K E game details member_db = false
  <-> qualifies K E game details member_db.
Proof.
  unfold not_eligible, qualifies. rewrite !orb_false_iff, !Z.ltb_ge. tauto.
Qed.

Lemma legacy_not_eligible_false_iff players threshold game join :
  Legacy.not_eligible players threshold game join = false
  <-> legacy_qualifies players threshold game join.
Proof.
  unfold Legacy.not_eligible, legacy_qualifies. rewrite !orb_false_iff, !Z.ltb_ge. tauto.
Qed.

Lemma games_kept_refl w : games_kept w w.
Proof. reflexivity. Qed.

Lemma games_kept_trans w1 w2 w3 :
  games_kept w1 w2 -> games_kept w2 w3 -> games_kept w1 w3.
Proof. unfold games_kept. congruence. Qed.

Lemma games_kept_store_game_member clan game p :
  respects games_kept (store_game_member clan game p).
Proof.
  unfold store_game_member.
  apply respects_bind; [exact games_kept_trans | | intros pk].
  { apply respects_try_except; [exact games_kept_trans | | intros e].
    - intros w. unfold get_clan_member_by_platform.
      destruct (_ !! _); apply games_kept_refl.
    - apply respects_bind; [exact games_kept_trans | | intros _].
      + intros w. reflexivity.
      + apply respects_raise, games_kept_refl. }
  apply respects_try_except; [exact games_kept_trans | | intros e].
  - intros w. unfold database_create_GameMember. destruct (_ !! _); reflexivity.
  - apply respects_bind; [exact games_kept_trans | | intros r].
    + intros w. unfold database_get_GameMember. destruct (_ !! _); reflexivity.
    + intros w. reflexivity.
Qed.

Lemma games_kept_store_clan_game clan game game_db :
  respects games_kept (store_clan_game clan game game_db).
Proof.
  unfold store_clan_game.
  apply respects_try_except; [exact games_kept_trans | | intros e].
  - intros w. unfold database_get_ClanGame. case_bool_decide; reflexivity.
  - apply respects_bind; [exact games_kept_trans | | intros _].
    + intros w. unfold database_create_ClanGame. case_bool_decide; reflexivity.
    + apply respects_for_each; [exact games_kept_refl | exact games_kept_trans |].
      intros p. apply games_kept_store_game_member.
Qed.

(** The Game step finds the row, or creates it and counts it. *)
Lemma store_game_row_found game title activity mode_count w r :
  Game_t (db w) !! instance_id game = Some r ->
  store_game_row game title activity mode_count w = (Ok (r, mode_count), w).
Proof.
  intros H. unfold store_game_row. apply try_except_ok.
  erewrite bind_ok; [reflexivity |].
  unfold database_get_Game. now rewrite H.
Qed.

Lemma store_game_row_created game title activity mode_count w :
  Game_t (db w) !! instance_id game = None ->
  exists w',
    store_game_row game title activity mode_count w
    = (Ok (GameRow (next_game_pk (db w)) (date game) (mode_id game), mode_count + 1), w')
    /\ Game_t (db w')
       = <[instance_id game := GameRow (next_game_pk (db w)) (date game) (mode_id game)]>
           (Game_t (db w)).
Proof.
  intros H. unfold store_game_row. eexists. split.
  - erewrite try_except_handled; cycle 1.
    { erewrite bind_raise; [reflexivity |].
      unfold database_get_Game. now rewrite H. }
    { reflexivity. }
    unfold create_game_row.
    erewrite bind_ok; cycle 1.
    { unfold database_create_Game. rewrite H. reflexivity. }
    reflexivity.
  - reflexivity.
Qed.

(** The creation itself is not protected: when the row has appeared
    since the lookup, the uniqueness violation leaves the suite. *)
Lemma create_game_row_conflict game title activity mode_count w r :
  Game_t (db w) !! instance_id game = Some r ->
  create_game_row game title activity mode_count w = (Raise IntegrityError, w).
Proof.
  intros H. unfold create_game_row. apply bind_raise.
  unfold database_create_Game. now rewrite H.
Qed.

(** The loop body for a report that parses and whose mode is known. *)
Lemma store_game_parsed K E member_dbs member_db mode_count activity pgcr game details w :
  ClanGame E pgcr member_dbs = Ok game ->
  MODE_MAP K (mode_id game) = Some details ->
  store_game K E member_dbs member_db mode_count activity pgcr w
  = (if not_eligible K E game details member_db then ret mode_count
     else
       do stored <- store_game_row game (py_title (md_title details)) activity mode_count;
       store_clan_game (clan_id (member_clanmember member_db)) game (fst stored) ;;
       ret (snd stored)) w.
Proof.
  intros Hparse Hmode. unfold store_game.
  rewrite Hparse, bind_lift_ok, Hmode, bind_lift_ok. reflexivity.
Qed.

Lemma store_game_persists K E member_dbs member_db mode_count activity pgcr game details w :
  ClanGame E pgcr member_dbs = Ok game ->
  MODE_MAP K (mode_id game) = Some details ->
  (qualifies K E game details member_db ->
   is_Some (Game_t (db (snd (store_game K E member_dbs member_db mode_count activity pgcr w)))
              !! instance_id game))
  /\ (~ qualifies K E game details member_db ->
      store_game K E member_dbs member_db mode_count activity pgcr w = (Ok mode_count, w)).
Proof.
  intros Hparse Hmode.
  rewrite (store_game_parsed _ _ _ _ _ _ _ _ _ _ Hparse Hmode).
  split; intros Hq.
  - apply not_eligible_false_iff in Hq. rewrite Hq.
    destruct (Game_t (db w) !! instance_id game) as [r|] eqn:Hrow.
    + erewrite bind_ok by (apply store_game_row_found; exact Hrow). simpl.
      pose proof (games_kept_store_clan_game (clan_id (member_clanmember member_db))
                    game r w) as Hkept.
      unfold bind. destruct (store_clan_game _ _ _ w) as [[[]|e|] w']; simpl in *;
        rewrite Hkept, Hrow; eauto.
    + destruct (store_game_row_created game (py_title (md_title details)) activity
                  mode_count w Hrow)
        as (w' & Hrun & Hgames).
      erewrite bind_ok by exact Hrun. simpl.
      pose proof (games_kept_store_clan_game (clan_id (member_clanmember member_db))
                    game (GameRow (next_game_pk (db w)) (date game) (mode_id game)) w')
        as Hkept.
      unfold bind. destruct (store_clan_game _ _ _ w') as [[[]|e|] w'']; simpl in *;
        rewrite Hkept, Hgames, lookup_insert_eq; eauto.
  - destruct (not_eligible K E game details member_db) eqn:Hn; [reflexivity |].
    apply not_eligible_false_iff in Hn. contradiction.
Qed.

(** *** The legacy flow *)

Lemma legacy_store_kept_trans w1 w2 w3 :
  legacy_store_kept w1 w2 -> legacy_store_kept w2 w3 -> legacy_store_kept w1 w3.
Proof. unfold legacy_store_kept. congruence. Qed.

Lemma legacy_store_kept_get_member name :
  respects legacy_store_kept (Legacy.database_get_member name).
Proof.
  intros w. unfold Legacy.database_get_member, Legacy.called, bind. simpl.
  destruct (find _ _); reflexivity.
Qed.

Lemma legacy_store_kept_eligible_players members game l :
  forall players, respects legacy_store_kept (Legacy.eligible_players members game l players).
Proof.
  induction l as [|p l IH]; intros players; simpl.
  - intros w. reflexivity.
  - destruct (_ && _); [| apply IH].
    apply respects_bind;
      [exact legacy_store_kept_trans | apply legacy_store_kept_get_member | intros m].
    destruct (_ <? _); apply IH.
Qed.

Lemma legacy_games_kept_trans w1 w2 w3 :
  legacy_games_kept w1 w2 -> legacy_games_kept w2 w3 -> legacy_games_kept w1 w3.
Proof. unfold legacy_games_kept. congruence. Qed.

Lemma legacy_games_kept_create_game_session name mode count :
  respects legacy_games_kept (Legacy.database_create_game_session name mode count).
Proof.
  intros w. unfold Legacy.database_create_game_session, Legacy.called, bind. simpl.
  destruct (_ !! _); reflexivity.
Qed.

Lemma legacy_games_kept_update_game_session name mode count :
  respects legacy_games_kept (Legacy.database_update_game_session name mode count).
Proof.
  intros w. unfold Legacy.database_update_game_session, Legacy.called, bind. simpl.
  destruct (_ !! _); reflexivity.
Qed.

Lemma legacy_games_kept_count_player mode mode_count name :
  respects legacy_games_kept (Legacy.count_player mode mode_count name).
Proof.
  unfold Legacy.count_player.
  apply respects_bind; [exact legacy_games_kept_trans | | intros _].
  - apply respects_try_except; [exact legacy_games_kept_trans | | intros e].
    + apply legacy_games_kept_create_game_session.
    + apply legacy_games_kept_update_game_session.
  - intros w. reflexivity.
Qed.

(** The creation of a game that the store already holds: the uniqueness
    violation is caught, and the [else] suite with the counters of the
    players is not run. *)
Lemma record_game_known details players mode mode_count w x :
  l_games (ldb w) !! gd_instance_id details = Some x ->
  Legacy.record_game details players mode mode_count w
  = (Ok mode_count, with_trace (CreateGame details players :: trace w) w).
Proof.
  intros H. unfold Legacy.record_game, try_except_else,
    Legacy.database_create_game, Legacy.called, bind. simpl.
  rewrite H. reflexivity.
Qed.

Lemma record_game_persists details players mode mode_count w :
  is_Some (l_games (ldb (snd (Legacy.record_game details players mode mode_count w)))
             !! gd_instance_id details).
Proof.
  destruct (l_games (ldb w) !! gd_instance_id details) as [x|] eqn:Hrow.
  - rewrite (record_game_known _ _ _ _ _ _ Hrow). simpl. rewrite Hrow. eauto.
  - unfold Legacy.record_game, try_except_else,
      Legacy.database_create_game, Legacy.called, bind. simpl. rewrite Hrow.
    match goal with
    | |- context [fold_m players ?body mode_count ?w0] =>
        pose proof (respects_fold_m legacy_games_kept
                      (fun w => eq_refl) legacy_games_kept_trans players body
                      (fun s x => legacy_games_kept_count_player mode s x) mode_count w0)
          as Hkept
    end.
    unfold legacy_games_kept in Hkept. rewrite Hkept. simpl.
    rewrite lookup_insert_eq. eauto.
Qed.

Lemma legacy_store_game_persists members join mode threshold mode_count activity game
    w players w1 :
  Legacy.eligible_players members game (lg_players game) [] w = (Ok players, w1) ->
  (legacy_qualifies players threshold game join ->
   is_Some (l_games (ldb (snd (Legacy.store_game members join mode threshold mode_count
                                 activity game w))) !! activity))
  /\ (~ legacy_qualifies players threshold game join ->
      Legacy.store_game members join mode threshold mode_count activity game w
      = (Ok mode_count, w1)
      /\ ldb w1 = ldb w).
Proof.
  intros Hplayers. unfold Legacy.store_game.
  rewrite (bind_ok _ _ _ _ _ Hplayers). split; intros Hq.
  - apply legacy_not_eligible_false_iff in Hq. rewrite Hq.
    apply (record_game_persists
             (GameDetails (lg_date game) (lg_mode_id game) activity) players mode mode_count w1).
  - destruct (Legacy.not_eligible players threshold game join) eqn:Hn.
    + split; [reflexivity |].
      pose proof (legacy_store_kept_eligible_players members game (lg_players game) [] w)
        as Hkept.
      now rewrite Hplayers in Hkept.
    + apply legacy_not_eligible_false_iff in Hn. contradiction.
Qed.

(** C6, as stated, fails on the legacy flow: with the organization-wide
    cutoff after the date of the match, [get_member_history] still
    records the match. *)
Lemma legacy_flow_ignores_activity_cutoff :
  lg_date sample_legacy_game < activity_cutoff E_late_cutoff
  /\ l_games (ldb Sample.w0) !! "9001" = None
  /\ fst (Legacy.get_member_history E_late_cutoff 5 "11" "pvp-comp" true Sample.w0) = Ok 2
  /\ l_games (ldb (snd (Legacy.get_member_history E_late_cutoff 5 "11" "pvp-comp" true
                          Sample.w0))) !! "9001"
     = Some (sample_details, ["11"; "12"]).
Proof. vm_compute. repeat split; reflexivity. Qed.

(** C6, amended: in the task flow a report that parses, of a known mode,
    has a Game row after the step when the four conditions hold, and
    when one of them fails the step changes nothing; in the legacy flow
    the same holds with three conditions, the organization-wide cutoff
    not being among them. *)
Theorem match_persisted_when_eligible K E member_dbs member_db mode_count activity pgcr
    game details w members join mode threshold legacy_count legacy_activity legacy_game
    lw players lw1 :
  ClanGame E pgcr member_dbs = Ok game ->
  MODE_MAP K (mode_id game) = Some details ->
  Legacy.eligible_players members legacy_game (lg_players legacy_game) [] lw
  = (Ok players, lw1) ->
  ((qualifies K E game details member_db ->
    is_Some (Game_t (db (snd (store_game K E member_dbs member_db mode_count activity
                                pgcr w))) !! instance_id game))
   /\ (~ qualifies K E game details member_db ->
       store_game K E member_dbs member_db mode_count activity pgcr w = (Ok mode_count, w)))
  /\ ((legacy_qualifies players threshold legacy_game join ->
       is_Some (l_games (ldb (snd (Legacy.store_game members join mode threshold
                                     legacy_count legacy_activity legacy_game lw)))
                  !! legacy_activity))
      /\ (~ legacy_qualifies players threshold legacy_game join ->
          Legacy.store_game members join mode threshold legacy_count legacy_activity
            legacy_game lw = (Ok legacy_count, lw1)
          /\ ldb lw1 = ldb lw)).
Proof.
  intros Hparse Hmode Hplayers. split.
  - now apply store_game_persists.
  - now apply legacy_store_game_persists.
Qed.

Lemma match_persisted_when_eligible_witness :
  ((qualifies Sample.K Sample.E sample_game (ModeDetails "raid" 3) (Sample.member 1 "11") ->
    is_Some (Game_t (db (snd (store_game Sample.K Sample.E Sample.roster
                                (Sample.member 1 "11") 0 "9001" Sample.pgcr Sample.w0)))
               !! instance_id sample_game))
   /\ (~ qualifies Sample.K Sample.E sample_game (ModeDetails "raid" 3)
           (Sample.member 1 "11") ->
       store_game Sample.K Sample.E Sample.roster (Sample.member 1 "11") 0 "9001"
         Sample.pgcr Sample.w0 = (Ok 0, Sample.w0)))
  /\ ((legacy_qualifies ["11"; "12"] 2 sample_legacy_game Sample.jan_2019 ->
       is_Some (l_games (ldb (snd (Legacy.store_game ["11"; "12"; "13"] Sample.jan_2019 37 2
                                     0 "9001" sample_legacy_game Sample.w0)))
                  !! "9001"))
      /\ (~ legacy_qualifies ["11"; "12"] 2 sample_legacy_game Sample.jan_2019 ->
          Legacy.store_game ["11"; "12"; "13"] Sample.jan_2019 37 2 0 "9001"
            sample_legacy_game Sample.w0 = (Ok 0, w_collected)
          /\ ldb w_collected = ldb Sample.w0)).
Proof.
  apply (match_persisted_when_eligible Sample.K Sample.E Sample.roster
           (Sample.member 1 "11") 0 "9001" Sample.pgcr sample_game (ModeDetails "raid" 3)
           Sample.w0 ["11"; "12"; "13"] Sample.jan_2019 37 2 0 "9001" sample_legacy_game
           Sample.w0 ["11"; "12"] w_collected).
  - vm_compute. reflexivity.
  - vm_compute. reflexivity.
  - vm_compute. reflexivity.
Defined.

(** ** Creation of a game that is already recorded (C3) *)

(** C3, as stated, fails. In the legacy flow the uniqueness violation
    of [create_game] is caught, and the step that follows the creation,
    the counters of the players of the match, is not run: the only call
    on the store is the creation itself, where on a store without the
    game the same call goes on to the counters. In the task flow the
    creation of a Game row whose activity id is taken raises the
    violation out of the suite that attempts it. *)
Lemma record_game_conflict_skips_players :
  fst (Legacy.record_game sample_details ["11"; "12"] 38 0 w_recorded) = Ok 0
  /\ trace (snd (Legacy.record_game sample_details ["11"; "12"] 38 0 w_recorded))
     = [CreateGame sample_details ["11"; "12"]]
  /\ trace (snd (Legacy.record_game sample_details ["11"; "12"] 38 0 Sample.w0))
     = [CreateGameSession "12" 38 1; CreateGameSession "11" 38 1;
        CreateGame sample_details ["11"; "12"]]
  /\ fst (create_game_row sample_game "raid" "9001" 0 w_known_game) = Raise IntegrityError.
Proof. vm_compute. repeat split; reflexivity. Qed.

(** C3, amended: in the task flow a Game row that exists is found by the
    lookup that precedes any creation: nothing is created, nothing is
    raised, the count of new games stays, and the step goes on to the
    clan-game link and the GameMember rows; in the legacy flow the
    uniqueness violation raised by the creation is caught, the count
    stays, and the counters of the players are not touched. *)
Theorem known_game_is_not_an_error K E member_dbs member_db mode_count activity pgcr game
    details w r legacy_details players mode legacy_count lw x :
  ClanGame E pgcr member_dbs = Ok game ->
  MODE_MAP K (mode_id game) = Some details ->
  qualifies K E game details member_db ->
  Game_t (db w) !! instance_id game = Some r ->
  l_games (ldb lw) !! gd_instance_id legacy_details = Some x ->
  store_game K E member_dbs member_db mode_count activity pgcr w
  = (store_clan_game (clan_id (member_clanmember member_db)) game r ;; ret mode_count) w
  /\ Legacy.record_game legacy_details players mode legacy_count lw
     = (Ok legacy_count, with_trace (CreateGame legacy_details players :: trace lw) lw).
Proof.
  intros Hparse Hmode Hq Hrow Hlegacy. split.
  - rewrite (store_game_parsed _ _ _ _ _ _ _ _ _ _ Hparse Hmode).
    apply not_eligible_false_iff in Hq. rewrite Hq.
    erewrite bind_ok by (apply store_game_row_found; exact Hrow). reflexivity.
  - now apply record_game_known with x.
Qed.

Lemma known_game_is_not_an_error_witness :
  store_game Sample.K Sample.E Sample.roster (Sample.member 1 "11") 0 "9001" Sample.pgcr
    w_known_game
  = (store_clan_game (clan_id (member_clanmember (Sample.member 1 "11"))) sample_game
       (GameRow 0 Sample.feb_2019 4) ;; ret 0) w_known_game
  /\ Legacy.record_game sample_details ["11"; "12"] 38 0 w_recorded
     = (Ok 0, with_trace (CreateGame sample_details ["11"; "12"] :: trace w_recorded)
                w_recorded).
Proof.
  apply (known_game_is_not_an_error Sample.K Sample.E Sample.roster (Sample.member 1 "11") 0
           "9001" Sample.pgcr sample_game (ModeDetails "raid" 3) w_known_game
           (GameRow 0 Sample.feb_2019 4) sample_details ["11"; "12"] 38 0 w_recorded
           (sample_details, ["11"; "12"])).
  - vm_compute. reflexivity.
  - vm_compute. reflexivity.
  - unfold qualifies. vm_compute. repeat split; discriminate.
  - vm_compute. reflexivity.
  - vm_compute. reflexivity.
Defined.

(** ** The last-updated stamp of the legacy counters (C8) *)

Lemma touches_kept_refl name mode w : touches_kept name mode w w.
Proof. reflexivity. Qed.

Lemma touches_kept_trans name mode w1 w2 w3 :
  touches_kept name mode w1 w2 -> touches_kept name mode w2 w3 ->
  touches_kept name mode w1 w3.
Proof. unfold touches_kept. congruence. Qed.

Lemma touches_kept_same name mode w w' :
  trace w' = trace w -> touches_kept name mode w w'.
Proof. unfold touches_kept. now intros ->. Qed.

Lemma touches_kept_called name mode c :
  c <> UpdateGameSession name mode 0 ->
  respects (touches_kept name mode) (Legacy.called c).
Proof.
  intros Hc w. unfold touches_kept, Legacy.called. simpl.
  unfold touches. now apply count_occ_cons_neq.
Qed.

(** A call on the store after which only the tables may differ. *)
Lemma touches_kept_after_call {A} name mode c (op : M A) :
  c <> UpdateGameSession name mode 0 ->
  (forall w, trace (snd (op w)) = trace w) ->
  respects (touches_kept name mode) (Legacy.called c ;; op).
Proof.
  intros Hc Hop.
  apply respects_bind; [apply touches_kept_trans | now apply touches_kept_called |].
  intros _ w. now apply touches_kept_same.
Qed.

Ltac table_op :=
  let w := fresh "w" in
  intros w; simpl; repeat (case_match; simpl); reflexivity.

Lemma touches_kept_get_member name mode who :
  respects (touches_kept name mode) (Legacy.database_get_member who).
Proof. apply touches_kept_after_call; [discriminate | table_op]. Qed.

Lemma touches_kept_create_game name mode details players :
  respects (touches_kept name mode) (Legacy.database_create_game details players).
Proof. apply touches_kept_after_call; [discriminate | table_op]. Qed.

Lemma touches_kept_create_game_session name mode who mode' count :
  respects (touches_kept name mode) (Legacy.database_create_game_session who mode' count).
Proof. apply touches_kept_after_call; [discriminate | table_op]. Qed.

Lemma touches_kept_update_one name mode who mode' :
  respects (touches_kept name mode) (Legacy.database_update_game_session who mode' 1).
Proof. apply touches_kept_after_call; [congruence | table_op]. Qed.

Lemma touches_kept_fetch E name mode fuel (r : request) :
  respects (touches_kept name mode)
    (on_exception E fuel [PydestException] None (Some 60000)
       (do c <- call_api r; await E c)).
Proof.
  apply respects_on_exception.
  - apply touches_kept_refl.
  - apply touches_kept_trans.
  - intros d w. now apply touches_kept_same.
  - apply respects_bind; [apply touches_kept_trans | |].
    + intros w. now apply touches_kept_same.
    + intros c w. apply touches_kept_same. unfold await. now case_bool_decide.
Qed.

Lemma touches_kept_eligible_players name mode members game l :
  forall players,
    respects (touches_kept name mode) (Legacy.eligible_players members game l players).
Proof.
  induction l as [|p l IH]; intros players; simpl.
  - apply respects_ret, touches_kept_refl.
  - destruct (_ && _); [| apply IH].
    apply respects_bind;
      [apply touches_kept_trans | apply touches_kept_get_member | intros m].
    destruct (_ <? _); apply IH.
Qed.

Lemma touches_kept_record_game name mode details players mode' mode_count :
  respects (touches_kept name mode) (Legacy.record_game details players mode' mode_count).
Proof.
  unfold Legacy.record_game.
  apply respects_try_except_else;
    [apply touches_kept_trans | apply touches_kept_create_game | |].
  - intros e. apply respects_ret, touches_kept_refl.
  - intros _.
    apply respects_fold_m; [apply touches_kept_refl | apply touches_kept_trans |].
    intros s who. unfold Legacy.count_player.
    apply respects_bind; [apply touches_kept_trans | | intros _].
    + apply respects_try_except;
        [apply touches_kept_trans | apply touches_kept_create_game_session |].
      intros e. apply touches_kept_update_one.
    + apply respects_ret, touches_kept_refl.
Qed.

Lemma touches_kept_store_activity E name mode fuel members join mode' threshold
    mode_count activity :
  respects (touches_kept name mode)
    (Legacy.store_activity E fuel members join mode' threshold mode_count activity).
Proof.
  unfold Legacy.store_activity, Legacy.get_activity.
  apply respects_bind; [apply touches_kept_trans | apply touches_kept_fetch | intros pgcr].
  apply respects_bind;
    [apply touches_kept_trans | apply respects_lift, touches_kept_refl | intros response].
  apply respects_bind;
    [apply touches_kept_trans | apply respects_lift, touches_kept_refl | intros game].
  unfold Legacy.store_game.
  apply respects_bind;
    [apply touches_kept_trans | apply touches_kept_eligible_players | intros players].
  destruct (Legacy.not_eligible _ _ _ _).
  - apply respects_ret, touches_kept_refl.
  - apply touches_kept_record_game.
Qed.

Lemma touches_kept_store_character E name mode fuel members member_id join mode'
    threshold mode_count char :
  respects (touches_kept name mode)
    (Legacy.store_character E fuel members member_id join mode' threshold mode_count char).
Proof.
  unfold Legacy.store_character, Legacy.get_activity_list.
  apply respects_bind; [apply touches_kept_trans | apply touches_kept_fetch | intros a].
  apply respects_bind; [apply touches_kept_trans | | intros [activities|]].
  - apply respects_try_except; [apply touches_kept_trans | |].
    + apply respects_bind;
        [apply touches_kept_trans | apply respects_lift, touches_kept_refl | intros r].
      apply respects_bind;
        [apply touches_kept_trans | apply respects_lift, touches_kept_refl | intros x].
      apply respects_ret, touches_kept_refl.
    + intros e. apply respects_ret, touches_kept_refl.
  - apply respects_bind;
      [apply touches_kept_trans | apply respects_lift, touches_kept_refl | intros l].
    apply respects_bind;
      [apply touches_kept_trans | apply respects_lift, touches_kept_refl | intros ids].
    apply respects_fold_m; [apply touches_kept_refl | apply touches_kept_trans |].
    intros s activity. apply touches_kept_store_activity.
  - apply respects_ret, touches_kept_refl.
Qed.

(** What the gate answers. *)
Lemma fresh_count_fresh name mode check_date w :
  fresh w name mode check_date ->
  exists s, l_sessions (ldb w) !! (name, mode) = Some s
            /\ Legacy.fresh_count name mode check_date w
               = (Ok (Some (gs_count s)), gated name mode w).
Proof.
  intros (s & Hs & Hnow & ->). exists s. split; [exact Hs |].
  unfold Legacy.fresh_count, try_except_else, Legacy.database_get_game_session,
    Legacy.called, bind, Legacy.datetime_now. simpl. rewrite Hs. simpl.
  apply Z.ltb_lt in Hnow. rewrite Hnow. reflexivity.
Qed.

Lemma fresh_count_stale name mode check_date w :
  ~ fresh w name mode check_date ->
  Legacy.fresh_count name mode check_date w = (Ok None, gated name mode w).
Proof.
  intros Hn.
  unfold Legacy.fresh_count, try_except_else, Legacy.database_get_game_session,
    Legacy.called, bind, Legacy.datetime_now. simpl.
  destruct (l_sessions (ldb w) !! (name, mode)) as [s|] eqn:Hs; simpl; [| reflexivity].
  destruct (Z.ltb_spec (now w - 3600000) (gs_last_updated s)); simpl; [| reflexivity].
  destruct check_date; simpl; [| reflexivity].
  exfalso. apply Hn. exists s. auto.
Qed.

Lemma touches_cons_eq name mode t :
  touches name mode (UpdateGameSession name mode 0 :: t) = S (touches name mode t).
Proof. unfold touches. now apply count_occ_cons_eq. Qed.

Lemma touches_cons_neq name mode c t :
  c <> UpdateGameSession name mode 0 ->
  touches name mode (c :: t) = touches name mode t.
Proof. intros H. unfold touches. now apply count_occ_cons_neq. Qed.

(** A mode that the gate answers from its counter is skipped: the turn
    asks nothing else of the store. *)
Lemma store_mode_skipped E fuel members name member_id join char_ids check_date
    total mode w :
  fresh w name mode check_date ->
  exists s, l_sessions (ldb w) !! (name, mode) = Some s
    /\ Legacy.store_mode E fuel members name member_id join char_ids check_date total mode w
       = (Ok (total + gs_count s), gated name mode w)
    /\ touches name mode (trace (gated name mode w)) = touches name mode (trace w).
Proof.
  intros Hf. destruct (fresh_count_fresh _ _ _ _ Hf) as (s & Hs & Hgate).
  exists s. split; [exact Hs |]. split.
  - unfold Legacy.store_mode. now rewrite (bind_ok _ _ _ _ _ Hgate).
  - now apply touches_cons_neq.
Qed.

(** A mode that passes the gate: once the search has ended, the turn
    ends normally after one update of count 0. *)
Lemma store_mode_processed E fuel members name member_id join char_ids check_date
    total mode w player_count mode_count w1 :
  ~ fresh w name mode check_date ->
  Legacy.dict_get mode Legacy.PLAYER_COUNT = Ok player_count ->
  fold_m char_ids
    (Legacy.store_character E fuel members member_id join mode
       (player_threshold_of player_count)) 0 (gated name mode w)
  = (Ok mode_count, w1) ->
  exists w',
    Legacy.store_mode E fuel members name member_id join char_ids check_date total
      mode w = (Ok (total + mode_count), w')
    /\ touches name mode (trace w') = S (touches name mode (trace w))
    /\ (l_sessions (ldb w1) !! (name, mode) = None -> ldb w' = ldb w1)
    /\ (forall s, l_sessions (ldb w1) !! (name, mode) = Some s ->
                  l_sessions (ldb w') !! (name, mode)
                  = Some (GameSession (gs_count s) (now w1))).
Proof.
  intros Hn Hcount Hsearch.
  pose proof (respects_fold_m (touches_kept name mode)
                (touches_kept_refl name mode) (touches_kept_trans name mode) char_ids _
                (fun s c => touches_kept_store_character E name mode fuel members
                              member_id join mode (player_threshold_of player_count) s c)
                0 (gated name mode w)) as Hkept.
  rewrite Hsearch in Hkept. unfold touches_kept in Hkept. simpl in Hkept.
  assert (touches name mode (trace w1) = touches name mode (trace w)) as Hbefore.
  { rewrite Hkept. now apply touches_cons_neq. }
  unfold Legacy.store_mode.
  rewrite (bind_ok _ _ _ _ _ (fresh_count_stale _ _ _ _ Hn)).
  rewrite Hcount, bind_lift_ok.
  fold (player_threshold_of player_count).
  rewrite (bind_ok _ _ _ _ _ Hsearch).
  unfold try_except, Legacy.database_update_game_session, Legacy.called, bind. simpl.
  destruct (l_sessions (ldb w1) !! (name, mode)) as [s|] eqn:Hs; simpl.
  - eexists. split; [reflexivity |]. simpl. split; [| split].
    + now rewrite touches_cons_eq, Hbefore.
    + discriminate.
    + intros s' [= <-]. rewrite lookup_insert_eq. now rewrite Z.add_0_r.
  - eexists. split; [reflexivity |]. simpl. split; [| split].
    + now rewrite touches_cons_eq, Hbefore.
    + reflexivity.
    + discriminate.
Qed.

Lemma fresh_dec w name mode check_date :
  fresh w name mode check_date \/ ~ fresh w name mode check_date.
Proof.
  unfold fresh.
  destruct (l_sessions (ldb w) !! (name, mode)) as [s|] eqn:Hs.
  - destruct (Z.lt_ge_cases (now w - 3600000) (gs_last_updated s)) as [Hlt|Hge].
    + destruct check_date.
      * left. eauto.
      * right. intros (s' & _ & _ & H). discriminate.
    + right. intros (s' & [= <-] & H & _). lia.
  - right. intros (s' & H & _). discriminate.
Qed.

(** A turn that ends normally updates the counter of its own mode with
    count 0 once, or not at all when the gate answered; without
    [check_date] the gate never answers. *)
Lemma store_mode_own_touches E fuel members name member_id join char_ids check_date
    total mode w total' w' :
  Legacy.store_mode E fuel members name member_id join char_ids check_date total mode w
  = (Ok total', w') ->
  (touches name mode (trace w') = touches name mode (trace w)
   \/ touches name mode (trace w') = S (touches name mode (trace w)))
  /\ (check_date = false ->
      touches name mode (trace w') = S (touches name mode (trace w))).
Proof.
  intros Hrun. destruct (fresh_dec w name mode check_date) as [Hf|Hn].
  - destruct (store_mode_skipped E fuel members name member_id join char_ids check_date
                total mode w Hf) as (s & _ & Heq & Hsame).
    rewrite Heq in Hrun. injection Hrun as <- <-. split; [now left |].
    intros ->. destruct Hf as (? & _ & _ & ?). discriminate.
  - pose proof Hrun as Hrun'. unfold Legacy.store_mode in Hrun'.
    rewrite (bind_ok _ _ _ _ _ (fresh_count_stale _ _ _ _ Hn)) in Hrun'.
    apply bind_inv_ok in Hrun' as (player_count & w0 & Hcount & Hrun').
    unfold lift in Hcount. injection Hcount as Hcount <-.
    apply bind_inv_ok in Hrun' as (mode_count & w1 & Hsearch & _).
    fold (player_threshold_of player_count) in Hsearch.
    destruct (store_mode_processed E fuel members name member_id join char_ids check_date
                total mode w player_count mode_count w1 Hn Hcount Hsearch)
      as (w'' & Heq & Htouch & _).
    rewrite Heq in Hrun. injection Hrun as <- <-. split; [now right | auto].
Qed.

(** A turn leaves the zero-count updates of every other mode as they
    were. *)
Lemma touches_kept_store_mode_other E fuel members name member_id join char_ids check_date
    total mode mode' :
  mode' <> mode ->
  respects (touches_kept name mode)
    (Legacy.store_mode E fuel members name member_id join char_ids check_date total mode').
Proof.
  intros Hne. unfold Legacy.store_mode.
  apply respects_bind; [apply touches_kept_trans | | intros [count|]].
  - unfold Legacy.fresh_count.
    apply respects_try_except_else; [apply touches_kept_trans | | |].
    + apply touches_kept_after_call; [discriminate | table_op].
    + intros e. apply respects_ret, touches_kept_refl.
    + intros s. apply respects_bind; [apply touches_kept_trans | | intros t].
      * intros w. reflexivity.
      * destruct (_ && _); apply respects_ret, touches_kept_refl.
  - apply respects_ret, touches_kept_refl.
  - apply respects_bind;
      [apply touches_kept_trans | apply respects_lift, touches_kept_refl | intros pc].
    apply respects_bind; [apply touches_kept_trans | | intros mode_count].
    + apply respects_fold_m; [apply touches_kept_refl | apply touches_kept_trans |].
      intros s c. apply touches_kept_store_character.
    + apply respects_bind; [apply touches_kept_trans | | intros _].
      * apply respects_try_except; [apply touches_kept_trans | |].
        -- apply touches_kept_after_call; [congruence | table_op].
        -- intros e. apply respects_ret, touches_kept_refl.
      * apply respects_ret, touches_kept_refl.
Qed.

(** The loop over the modes, for a list without repetition. *)
Lemma fold_store_mode_touches E fuel members name member_id join char_ids check_date :
  forall l, NoDup l ->
  forall total w total' w',
    fold_m l (Legacy.store_mode E fuel members name member_id join char_ids check_date)
      total w = (Ok total', w') ->
    forall mode,
      (mode ∉ l -> touches name mode (trace w') = touches name mode (trace w))
      /\ (mode ∈ l ->
          (touches name mode (trace w') = touches name mode (trace w)
           \/ touches name mode (trace w') = S (touches name mode (trace w)))
          /\ (check_date = false ->
              touches name mode (trace w') = S (touches name mode (trace w)))).
Proof.
  induction 1 as [|m l Hm Hnd IH]; intros total w total' w' Hrun mode; simpl in Hrun.
  - unfold ret in Hrun. injection Hrun as <- <-. split; [reflexivity |].
    intros H. now apply elem_of_nil in H.
  - apply bind_inv_ok in Hrun as (t1 & w1 & Hturn & Hrest).
    specialize (IH _ _ _ _ Hrest mode). destruct IH as [IHout IHin].
    destruct (decide (mode = m)) as [->|Hne].
    + split; [intros H; exfalso; apply H; left |].
      intros _. rewrite (IHout Hm).
      now apply store_mode_own_touches in Hturn.
    + pose proof (touches_kept_store_mode_other E fuel members name member_id join char_ids
                    check_date total mode m (not_eq_sym Hne) w) as Hkept.
      rewrite Hturn in Hkept. unfold touches_kept in Hkept. simpl in Hkept.
      rewrite <- Hkept. split.
      * intros H. apply IHout. intros Hin. apply H. now right.
      * intros H. apply IHin. apply elem_of_cons in H as [H|H]; [contradiction | exact H].
Qed.

Lemma game_mode_list_NoDup game_mode l :
  Legacy.game_mode_list_of game_mode = Ok l -> NoDup l.
Proof.
  unfold Legacy.game_mode_list_of, Legacy.game_mode_id_of.
  repeat (destruct (String.eqb game_mode _); [intros [= <-]; apply (bool_decide_unpack _);
                                              vm_compute; reflexivity |]).
  discriminate.
Qed.

(** A whole cycle of a member. *)
Lemma get_member_history_touches E fuel name game_mode check_date w total w' :
  Legacy.get_member_history E fuel name game_mode check_date w = (Ok total, w') ->
  exists l, Legacy.game_mode_list_of game_mode = Ok l
    /\ forall mode,
         (mode ∉ l -> touches name mode (trace w') = touches name mode (trace w))
         /\ (mode ∈ l ->
             (touches name mode (trace w') = touches name mode (trace w)
              \/ touches name mode (trace w') = S (touches name mode (trace w)))
             /\ (check_date = false ->
                 touches name mode (trace w') = S (touches name mode (trace w)))).
Proof.
  unfold Legacy.get_member_history. intros H.
  apply bind_inv_ok in H as (l & w0 & Hl & H).
  unfold lift in Hl. injection Hl as Hl <-.
  exists l. split; [exact Hl |]. intros mode.
  apply bind_inv_ok in H as (all_members & w1 & H1 & H).
  apply bind_inv_ok in H as (member_db & w2 & H2 & H).
  apply bind_inv_ok in H as (profile & w3 & H3 & H).
  apply bind_inv_ok in H as (response & w4 & H4 & H).
  unfold lift in H4. injection H4 as H4 <-.
  apply bind_inv_ok in H as (characters & w4 & H5 & H).
  unfold lift in H5. injection H5 as H5 <-.
  apply bind_inv_ok in H as (data & w4 & H6 & H).
  unfold lift in H6. injection H6 as H6 <-.
  apply bind_inv_ok in H as (char_ids & w4 & H7 & H).
  unfold lift in H7. injection H7 as H7 <-.
  assert (touches name mode (trace w3) = touches name mode (trace w)) as Hprefix.
  { pose proof (touches_kept_after_call name mode GetMembers
                  (fun w => (Ok (l_members (ldb w)), w)) ltac:(discriminate)
                  ltac:(reflexivity) w) as K1.
    fold Legacy.database_get_members in K1. rewrite H1 in K1.
    pose proof (touches_kept_get_member name mode name w1) as K2. rewrite H2 in K2.
    pose proof (touches_kept_fetch E name mode fuel
                  (get_profile_req Legacy.PLATFORM_XBOX (lm_bungie_id member_db)
                     [Legacy.COMPONENT_CHARACTERS]) w2) as K3.
    fold (Legacy.get_profile E fuel (lm_bungie_id member_db)) in K3. rewrite H3 in K3.
    unfold touches_kept in *. simpl in *. congruence. }
  rewrite <- Hprefix.
  apply (fold_store_mode_touches E fuel (map lm_xbox_username all_members) name
           (lm_bungie_id member_db) (lm_join_date member_db) char_ids check_date l
           (game_mode_list_NoDup _ _ Hl) 0 w3 total w' H mode).
Qed.

(** C8: the zero-count update of the legacy flow. In a cycle of a
    member that ends normally, the counter of the member is updated with
    count 0 at most once for each mode of the cycle, exactly once for
    each of them without [check_date], and not at all for any other
    mode. Turn by turn: a
    mode that the freshness gate answers from its counter is skipped and
    not updated; a mode that passes the gate is updated exactly once as
    soon as the search of the activities ends, with whatever count, zero
    included; when the counter exists the update keeps its count and
    stamps it with the current instant, and when it does not exist the
    failed update is absorbed and the store is left as it was. *)
Theorem store_mode_touches_once E fuel members name member_id join char_ids check_date
    total mode w game_mode :
  (fresh w name mode check_date ->
   exists s, l_sessions (ldb w) !! (name, mode) = Some s
     /\ Legacy.store_mode E fuel members name member_id join char_ids check_date total mode w
        = (Ok (total + gs_count s), gated name mode w)
     /\ touches name mode (trace (gated name mode w)) = touches name mode (trace w))
  /\ (~ fresh w name mode check_date ->
      forall player_count mode_count w1,
        Legacy.dict_get mode Legacy.PLAYER_COUNT = Ok player_count ->
        fold_m char_ids
          (Legacy.store_character E fuel members member_id join mode
             (player_threshold_of player_count)) 0 (gated name mode w)
        = (Ok mode_count, w1) ->
        exists w',
          Legacy.store_mode E fuel members name member_id join char_ids check_date total
            mode w = (Ok (total + mode_count), w')
          /\ touches name mode (trace w') = S (touches name mode (trace w))
          /\ (l_sessions (ldb w1) !! (name, mode) = None -> ldb w' = ldb w1)
          /\ (forall s, l_sessions (ldb w1) !! (name, mode) = Some s ->
                        l_sessions (ldb w') !! (name, mode)
                        = Some (GameSession (gs_count s) (now w1))))
  /\ (forall cycle_count w',
        Legacy.get_member_history E fuel name game_mode check_date w = (Ok cycle_count, w') ->
        exists l, Legacy.game_mode_list_of game_mode = Ok l
          /\ forall m,
               (m ∉ l -> touches name m (trace w') = touches name m (trace w))
               /\ (m ∈ l ->
                   (touches name m (trace w') = touches name m (trace w)
                    \/ touches name m (trace w') = S (touches name m (trace w)))
                   /\ (check_date = false ->
                       touches name m (trace w') = S (touches name m (trace w))))).
Proof.
  split; [| split].
  - apply store_mode_skipped.
  - intros Hn player_count mode_count w1. now apply store_mode_processed.
  - intros cycle_count w'. apply get_member_history_touches.
Qed.

(** The two cases of C8 on the sample world: player "11" has no counter
    for mode 37 when the turn starts and none of the three modes is
    fresh; with a counter updated a minute ago the first mode is answered
    by the gate. *)
Lemma store_mode_touches_once_examples :
  touches "11" 65 (trace (snd (Legacy.get_member_history Sample.E 5 "11" "pvp-comp" true
                                 Sample.w0))) = 1%nat
  /\ touches "11" 37 (trace (snd (Legacy.get_member_history Sample.E 5 "11" "pvp-comp" true
                                    Sample.w0))) = 1%nat
  /\ touches "11" 37 (trace (snd (Legacy.get_member_history Sample.E 5 "11" "pvp-comp" true
                                    w_fresh_counter))) = 0%nat
  /\ fst (Legacy.get_member_history Sample.E 5 "11" "raid" true Sample.w0) = Ok 0
  /\ touches "11" 4 (trace (snd (Legacy.get_member_history Sample.E 5 "11" "raid" true
                                   Sample.w0))) = 1%nat.
Proof. vm_compute. repeat split; reflexivity. Qed.

(** ** Relations kept by the cache accessors *)

Section RespectsCache.

Variable R : world -> world -> Prop.
Hypothesis R_refl : forall w, R w w.
Hypothesis R_trans : forall a b c, R a b -> R b c -> R a c.
Hypothesis R_sleep : forall d, respects R (sleep d).
Hypothesis R_limiter : forall n t w, R w (with_limiter n t w).
Hypothesis R_logging : forall r, respects R (logging r).
Hypothesis R_redis_set : forall key b expire, respects R (redis_set key b expire).
Hypothesis R_call_api : forall r, respects R (call_api r).
Hypothesis R_await : forall E c, respects R (await E c).

Lemma respects_execute_pydest_any K E fuel c : respects R (execute_pydest K E fuel c).
Proof. apply respects_execute_pydest; auto. Qed.

Lemma respects_set_data key data expire : respects R (set_data key data expire).
Proof.
  unfold set_data. apply respects_try_except; [exact R_trans | apply R_redis_set |].
  intros e. apply respects_bind; [exact R_trans | apply R_logging | intros _].
  now apply respects_ret.
Qed.

Lemma respects_get_activity_history K E fuel platform member char mode count :
  respects R (get_activity_history K E fuel platform member char mode count).
Proof.
  unfold get_activity_history.
  apply respects_bind; [exact R_trans | now apply respects_redis_get | intros o].
  cbv zeta.
  assert (respects R
            (do function <- call_api (get_activity_history_req platform member char mode count);
             do data <- execute_pydest K E fuel function;
             try_except_else
               (do response <- lift (getitem data "Response");
                lift (getitem response "activities"))
               (fun e => bool_decide (e = KeyError))
               (fun e => ret VNone)
               (fun activities =>
                  set_data (member +:+ "-activity-history") activities
                    (TIME_MIN_SECONDS K * 45) ;;
                  ret activities))) as Hmiss.
  { apply respects_bind; [exact R_trans | apply R_call_api | intros c].
    apply respects_bind; [exact R_trans | apply respects_execute_pydest_any | intros data].
    apply respects_try_except_else; [exact R_trans | | |].
    - apply respects_bind; [exact R_trans | now apply respects_lift | intros r].
      now apply respects_lift.
    - intros e. now apply respects_ret.
    - intros a. apply respects_bind; [exact R_trans | apply respects_set_data | intros _].
      now apply respects_ret. }
  destruct o as [b|]; [| exact Hmiss].
  destruct (blob_truthy _); [now apply respects_lift | exact Hmiss].
Qed.

Lemma respects_get_pgcr K E fuel activity : respects R (get_pgcr K E fuel activity).
Proof.
  unfold get_pgcr.
  apply respects_bind; [exact R_trans | now apply respects_redis_get | intros o].
  cbv zeta.
  assert (respects R
            (do function <- call_api (get_post_game_carnage_report_req activity);
             do data <- execute_pydest K E fuel function;
             do pgcr <- lift (getitem data "Response");
             set_data (activity +:+ "-pcgr") pgcr (TIME_HOUR_SECONDS K) ;;
             ret pgcr)) as Hmiss.
  { apply respects_bind; [exact R_trans | apply R_call_api | intros c].
    apply respects_bind; [exact R_trans | apply respects_execute_pydest_any | intros data].
    apply respects_bind; [exact R_trans | now apply respects_lift | intros pgcr].
    apply respects_bind; [exact R_trans | apply respects_set_data | intros _].
    now apply respects_ret. }
  destruct o as [b|]; [| exact Hmiss].
  destruct (blob_truthy _); [now apply respects_lift | exact Hmiss].
Qed.

Lemma respects_get_characters K E fuel member platform :
  respects R (get_characters K E fuel member platform).
Proof.
  unfold get_characters.
  apply respects_bind; [exact R_trans | now apply respects_redis_get | intros o].
  cbv zeta.
  assert (respects R
            (do function <- call_api (get_profile_req platform member [COMPONENT_CHARACTERS K]);
             do data <- execute_pydest K E fuel function;
             do response <- lift (getitem data "Response");
             do characters <- lift (getitem response "characters");
             do characters <- lift (getitem characters "data");
             set_data (member +:+ "-profile") characters (TIME_HOUR_SECONDS K) ;;
             ret characters)) as Hmiss.
  { apply respects_bind; [exact R_trans | apply R_call_api | intros c].
    apply respects_bind; [exact R_trans | apply respects_execute_pydest_any | intros data].
    apply respects_bind; [exact R_trans | now apply respects_lift | intros r].
    apply respects_bind; [exact R_trans | now apply respects_lift | intros cs].
    apply respects_bind; [exact R_trans | now apply respects_lift | intros d].
    apply respects_bind; [exact R_trans | apply respects_set_data | intros _].
    now apply respects_ret. }
  destruct o as [b|]; [| exact Hmiss].
  destruct (blob_truthy _); [now apply respects_lift | exact Hmiss].
Qed.

Lemma respects_get_activity_list_from K E fuel platform member mode count char_ids :
  forall all,
    respects R (get_activity_list_from K E fuel platform member char_ids mode count all).
Proof.
  induction char_ids as [|char char_ids IH]; intros all; simpl.
  - now apply respects_ret.
  - apply respects_bind; [exact R_trans | | intros [activities|]].
    + apply respects_try_except; [exact R_trans | |].
      * apply respects_bind;
          [exact R_trans | apply respects_get_activity_history | intros a].
        now apply respects_ret.
      * intros e. unfold await_again_or_continue.
        apply respects_try_except; [exact R_trans | now apply respects_raise |].
        intros e'. now apply respects_ret.
    + destruct (negb _); [apply IH |].
      apply respects_bind; [exact R_trans | now apply respects_lift | intros l].
      apply respects_bind; [exact R_trans | now apply respects_lift | intros ids].
      apply IH.
    + apply IH.
Qed.

End RespectsCache.

(** ** What the fan-out returns and what it logs (C4) *)

Lemma games_kept_same w w' : db w' = db w -> games_kept w w'.
Proof. unfold games_kept. now intros ->. Qed.

Lemma games_kept_get_pgcr K E fuel activity :
  respects games_kept (get_pgcr K E fuel activity).
Proof.
  apply respects_get_pgcr; try (intros; intros w; now apply games_kept_same).
  - exact games_kept_refl.
  - exact games_kept_trans.
  - intros n t w. now apply games_kept_same.
  - intros key b expire w. unfold redis_set.
    destruct (redis_up w); try destruct (_ <? 0); reflexivity.
  - intros E' c w. unfold await. case_bool_decide; reflexivity.
Qed.

Lemma games_kept_get_characters K E fuel member platform :
  respects games_kept (get_characters K E fuel member platform).
Proof.
  apply respects_get_characters; try (intros; intros w; now apply games_kept_same).
  - exact games_kept_refl.
  - exact games_kept_trans.
  - intros n t w. now apply games_kept_same.
  - intros key b expire w. unfold redis_set.
    destruct (redis_up w); try destruct (_ <? 0); reflexivity.
  - intros E' c w. unfold await. case_bool_decide; reflexivity.
Qed.

Lemma games_kept_get_activity_list K E fuel platform member char_ids mode :
  respects games_kept (get_activity_list K E fuel platform member char_ids mode).
Proof.
  apply respects_get_activity_list_from; try (intros; intros w; now apply games_kept_same).
  - exact games_kept_refl.
  - exact games_kept_trans.
  - intros n t w. now apply games_kept_same.
  - intros key b expire w. unfold redis_set.
    destruct (redis_up w); try destruct (_ <? 0); reflexivity.
  - intros E' c w. unfold await. case_bool_decide; reflexivity.
Qed.













(** * Further properties of the code *)

(** ** Cache writes *)

(** X1: a cache write never fails its caller. When redis is down, or
    refuses the write because the expiry is negative, the exception is
    logged and nothing else happens. Otherwise what was stored is read
    back: with a positive expiry until that many seconds have passed,
    and not from then on; with the expiry 0, which the client does not
    send, at every later instant. *)
Theorem set_data_round_trip key data expire w d :
  fst (set_data key data expire w) = Ok tt
  /\ (redis_up w = false \/ expire < 0 ->
      snd (set_data key data expire w)
      = with_logs (LogException "Error setting data in redis" :: logs w) w)
  /\ (redis_up w = true -> 0 <= d ->
      (0 < expire ->
       redis_get key (later d (snd (set_data key data expire w)))
       = (Ok (if d <? 1000 * expire then Some (pickle_dumps data) else None),
          later d (snd (set_data key data expire w))))
      /\ (expire = 0 ->
          redis_get key (later d (snd (set_data key data expire w)))
          = (Ok (Some (pickle_dumps data)),
             later d (snd (set_data key data expire w))))).
Proof.
  unfold set_data, try_except, redis_set.
  destruct (redis_up w) eqn:Hup; [destruct (Z.ltb_spec expire 0) as [Hneg|Hpos] |];
    cbn [fst snd any_exception].
  - split; [reflexivity |]. split; [reflexivity |]. intros _ _. split; lia.
  - split; [reflexivity |]. split; [intros [Hdown|Hneg]; [discriminate | lia] |].
    intros _ Hd. unfold redis_get, later. cbn [redis_up redis now with_now with_redis].
    rewrite Hup, lookup_insert_eq. split.
    + intros Hexpire. destruct (Z.eqb_spec expire 0); [lia |]. cbn [unexpired].
      destruct (Z.ltb_spec d (1000 * expire)),
        (Z.ltb_spec (now w + d) (now w + 1000 * expire)); try lia; reflexivity.
    + intros ->. reflexivity.
  - split; [reflexivity |]. split; [reflexivity | discriminate].
Qed.

(** ** The policies *)

(** A policy passes on what its target raises: it raises nothing of its
    own. *)
Lemma retry_exception_raises {A} E exception max_tries max_time (target : M A)
    (P : exn -> Prop) :
  (forall w e w', target w = (Raise e, w') -> P e) ->
  forall fuel tries start w e w',
    retry_exception E fuel exception max_tries max_time target tries start w
    = (Raise e, w') ->
    P e.
Proof.
  intros Ht fuel. induction fuel as [|fuel IH]; intros tries start w e w'; simpl.
  - discriminate.
  - destruct (target w) as [[a|e0|] w0] eqn:Hrun; try discriminate.
    destruct (matches _ _ _).
    + destruct (_ || _).
      * intros [= <- <-]. eapply Ht, Hrun.
      * apply IH.
    + intros [= <- <-]. eapply Ht, Hrun.
Qed.

(** A policy whose classes name nothing that its target raises changes
    nothing: the target is called once and its outcome is the outcome. *)
Lemma on_exception_inert {A} E fuel exception max_tries max_time (target : M A) w :
  (forall e w', target w = (Raise e, w') -> matches (hier E) exception e = false) ->
  on_exception E (S fuel) exception max_tries max_time target w = target w.
Proof.
  intros Hnone. unfold on_exception. simpl.
  destruct (target w) as [[a|e|] w'] eqn:Hrun; try reflexivity.
  now rewrite (Hnone e w' eq_refl).
Qed.

(** The call under the policy for [RateLimitException] raises nothing
    else. *)
Lemma limiter_policy_raises E fuel w e w' :
  on_exception E fuel [RateLimitException] None (Some 10000)
    (limits 25 1000 (ret tt)) w = (Raise e, w') ->
  e = RateLimitException.
Proof.
  unfold on_exception. intros Hrun.
  eapply (retry_exception_raises E _ _ _ _ (fun e => e = RateLimitException));
    [| exact Hrun].
  intros w0 e0 w0'. unfold limits. destruct (_ <? _); [| discriminate].
  now intros [= <- _].
Qed.

(** The three other policies never see an exception. *)
Lemma execute_pydest_call_one_policy E fuel w :
  execute_pydest_call E (S fuel) w
  = on_exception E (S fuel) [RateLimitException] None (Some 10000)
      (limits 25 1000 (ret tt)) w.
Proof.
  unfold execute_pydest_call.
  set (inner := on_exception E (S fuel) [RateLimitException] None (Some 10000)
                  (limits 25 1000 (ret tt))).
  assert (forall w0 e w', inner w0 = (Raise e, w') -> e = RateLimitException) as Hinner
    by (intros w0 e w'; apply limiter_policy_raises).
  set (third := on_exception E (S fuel) [TimeoutError] (Some 1%nat) None inner).
  assert (forall w0, third w0 = inner w0) as Hthird.
  { intros w0. apply on_exception_inert. intros e w' Hrun.
    now rewrite (Hinner _ _ _ Hrun). }
  set (second := on_exception E (S fuel) [PydestException] None (Some 10000) third).
  assert (forall w0, second w0 = inner w0) as Hsecond.
  { intros w0. rewrite <- Hthird. apply on_exception_inert. intros e w' Hrun.
    rewrite Hthird in Hrun. now rewrite (Hinner _ _ _ Hrun). }
  rewrite <- Hsecond. apply on_exception_inert. intros e w' Hrun.
  rewrite Hsecond in Hrun. now rewrite (Hinner _ _ _ Hrun).
Qed.

(** X2: of the four policies of [execute_pydest] only the one for
    [RateLimitException] can act. The limiter hands back the coroutine
    object of the body unawaited, so the call that the policies decorate
    raises nothing but [RateLimitException], and the three other
    policies are inert: the function behaves as the limiter under that
    one policy, followed by the await of the body. *)
Theorem execute_pydest_one_policy K E fuel function w :
  execute_pydest K E (S fuel) function w
  = (on_exception E (S fuel) [RateLimitException] None (Some 10000)
       (limits 25 1000 (ret tt)) ;;
     execute_pydest_body K E function) w.
Proof.
  unfold execute_pydest, bind. now rewrite execute_pydest_call_one_policy.
Qed.

(** A policy with a time budget ends, and never sleeps past the budget:
    when the target takes no time and returns, and every wait is of a
    millisecond at least, one try per millisecond left of the budget,
    and two more, are enough. *)
Lemma retry_exception_ends {A} E exception max_tries t (target : M A) start :
  (forall w, now (snd (target w)) = now w) ->
  (forall w, fst (target w) <> Diverge) ->
  (forall n, 1 <= jitter E n (expo (pred n))) ->
  forall fuel tries w,
    now w - start <= t ->
    (Z.to_nat (t - (now w - start)) + 2 <= fuel)%nat ->
    fst (retry_exception E fuel exception max_tries (Some t) target tries start w)
    <> Diverge
    /\ now (snd (retry_exception E fuel exception max_tries (Some t) target tries start w))
       - start <= t.
Proof.
  intros Hinstant Hreturns Hjitter fuel.
  induction fuel as [|fuel IH]; intros tries w Hw Hfuel; [lia |].
  cbn [retry_exception].
  specialize (Hinstant w). specialize (Hreturns w).
  destruct (target w) as [[a|e|] w']; cbn [fst snd] in *.
  - split; [discriminate | lia].
  - destruct (matches _ _ _); [| split; [discriminate | cbn [fst snd]; lia]].
    destruct (Z.leb_spec t (now w - start)) as [Hle|Hlt].
    + rewrite orb_true_r. split; [discriminate | cbn [fst snd]; lia].
    + rewrite orb_false_r.
      destruct (bool_decide _); [split; [discriminate | cbn [fst snd]; lia] |].
      cbn [orb]. unfold sleep, next_wait. cbn [pred].
      specialize (Hjitter (S tries)). cbn [pred] in Hjitter.
      apply IH; cbn [now with_now]; lia.
  - now destruct Hreturns.
Qed.

(** X3: a call of [execute_pydest] always ends, within ten seconds.
    When the limiter refuses it the policy for [RateLimitException]
    sleeps and calls again, never past its budget of ten seconds from
    the first try; the call ends by returning (the body can then be
    awaited) or by raising [RateLimitException], whatever the state of
    the limiter. Every wait of the policy is taken to last a millisecond
    at least. *)
Theorem execute_pydest_call_ends E fuel w :
  (forall n, 1 <= jitter E n (expo (pred n))) ->
  10002 <= Z.of_nat fuel ->
  (fst (execute_pydest_call E fuel w) = Ok tt
   \/ fst (execute_pydest_call E fuel w) = Raise RateLimitException)
  /\ now w <= now (snd (execute_pydest_call E fuel w)) <= now w + 10000.
Proof.
  intros Hjitter Hfuel. destruct fuel as [|fuel]; [lia |].
  rewrite execute_pydest_call_one_policy.
  pose proof (retry_exception_ends E [RateLimitException] None 10000
                (limits 25 1000 (ret tt)) (now w)) as Hends.
  destruct (Hends) with (fuel := S fuel) (tries := 0%nat) (w := w) as (Hreturns & Hbudget).
  - intros w0. unfold limits. now destruct (_ <? _), (_ <=? _).
  - intros w0. unfold limits. now destruct (_ <? _).
  - exact Hjitter.
  - lia.
  - lia.
  - assert (now w <= now (snd (on_exception E (S fuel) [RateLimitException] None
                                 (Some 10000) (limits 25 1000 (ret tt)) w))) as Hclock.
    { assert (respects (fun a b => now a <= now b)
                (on_exception E (S fuel) [RateLimitException] None (Some 10000)
                   (limits 25 1000 (ret tt)))) as Hmono; [| exact (Hmono w)].
      apply respects_on_exception.
      - intros w0. lia.
      - intros a b c. lia.
      - intros d w0. cbn. lia.
      - intros w0. unfold limits. destruct (_ <? _), (_ <=? _); cbn; lia. }
    unfold on_exception in *. split; [| lia].
    destruct (retry_exception _ _ _ _ _ _ _ _ w) as [[[]|e|] w'] eqn:Hrun; cbn [fst] in *.
    + now left.
    + right. f_equal.
      apply (retry_exception_raises E _ _ _ _ (fun e => e = RateLimitException)) in Hrun;
        [exact Hrun |].
      intros w0 e0 w0'. unfold limits. destruct (_ <? _); [| discriminate].
      now intros [= <- _].
    + now destruct Hreturns.
Qed.

Lemma execute_pydest_call_ends_witness :
  (fst (execute_pydest_call Sample.E (Z.to_nat 10002) Sample.w0) = Ok tt
   \/ fst (execute_pydest_call Sample.E (Z.to_nat 10002) Sample.w0)
      = Raise RateLimitException)
  /\ now Sample.w0 <= now (snd (execute_pydest_call Sample.E (Z.to_nat 10002) Sample.w0))
     <= now Sample.w0 + 10000.
Proof.
  apply (execute_pydest_call_ends Sample.E (Z.to_nat 10002) Sample.w0).
  - intros n. unfold expo. cbn [jitter Sample.E Sample.env].
    pose proof (Z.pow_pos_nonneg 2 (Z.of_nat (pred n))). lia.
  - lia.
Defined.

(** ** The rate limiter *)

Lemma call_times_limits {A} (func : M A) :
  instant func ->
  forall k w,
    now w - last_reset w < 1000 ->
    now (call_times k (limits 25 1000 func) w) = now w
    /\ last_reset (call_times k (limits 25 1000 func) w) = last_reset w
    /\ num_calls (call_times k (limits 25 1000 func) w) = num_calls w + Z.of_nat k.
Proof.
  intros Hf k. induction k as [|k IH]; intros w Hw; simpl.
  - repeat split; lia.
  - assert (now (snd (limits 25 1000 func w)) = now w
            /\ last_reset (snd (limits 25 1000 func w)) = last_reset w
            /\ num_calls (snd (limits 25 1000 func w)) = num_calls w + 1) as (Hn & Hr & Hc).
    { unfold limits. destruct (Z.leb_spec (1000 - (now w - last_reset w)) 0); [lia |].
      simpl. destruct (25 <? num_calls w + 1); simpl; [repeat split; reflexivity |].
      destruct (Hf (with_limiter (num_calls w + 1) (last_reset w) w)) as (H1 & H2 & H3).
      simpl in *. repeat split; assumption. }
    destruct (IH (snd (limits 25 1000 func w))) as (H1 & H2 & H3); [lia |].
    repeat split; lia.
Qed.

(** X4: within one window of the limiter, of a burst of calls exactly
    those that find fewer than 25 calls counted run the function; every
    later one raises [RateLimitException] without running it. *)
Theorem limits_burst {A} (func : M A) k w :
  instant func ->
  now w - last_reset w < 1000 ->
  (num_calls w + Z.of_nat k < 25 ->
   limits 25 1000 func (call_times k (limits 25 1000 func) w)
   = func (counted (call_times k (limits 25 1000 func) w)))
  /\ (25 <= num_calls w + Z.of_nat k ->
      limits 25 1000 func (call_times k (limits 25 1000 func) w)
      = (Raise RateLimitException, counted (call_times k (limits 25 1000 func) w))).
Proof.
  intros Hf Hw. destruct (call_times_limits func Hf k w Hw) as (Hn & Hr & Hc).
  set (wk := call_times k (limits 25 1000 func) w) in *.
  unfold limits, counted.
  destruct (Z.leb_spec (1000 - (now wk - last_reset wk)) 0); [lia |]. simpl.
  split; intros Hq.
  - destruct (Z.ltb_spec 25 (num_calls wk + 1)); [lia | reflexivity].
  - destruct (Z.ltb_spec 25 (num_calls wk + 1)); [reflexivity | lia].
Qed.

Lemma limits_burst_witness :
  (num_calls w_window + Z.of_nat 30 < 25 ->
   limits 25 1000 (ret tt) (call_times 30 (limits 25 1000 (ret tt)) w_window)
   = ret tt (counted (call_times 30 (limits 25 1000 (ret tt)) w_window)))
  /\ (25 <= num_calls w_window + Z.of_nat 30 ->
      limits 25 1000 (ret tt) (call_times 30 (limits 25 1000 (ret tt)) w_window)
      = (Raise RateLimitException,
         counted (call_times 30 (limits 25 1000 (ret tt)) w_window))).
Proof.
  apply (limits_burst (ret tt) 30 w_window).
  - intros w. repeat split; reflexivity.
  - vm_compute. reflexivity.
Defined.

(** ** Detection of a maintenance *)

Lemma counted_same_fields w :
  redis (counted w) = redis w /\ redis_up (counted w) = redis_up w
  /\ now (counted w) = now w /\ awaited (counted w) = awaited w
  /\ round_trips (counted w) = round_trips w /\ next_coro (counted w) = next_coro w
  /\ logs (counted w) = logs w /\ db (counted w) = db w.
Proof. unfold counted. destruct (_ <=? _); repeat split; reflexivity. Qed.

(** The body on a maintenance exception of upstream. *)
Lemma execute_pydest_body_detects K E c w :
  redis_up w = true ->
  redis w !! maintenance_key = None ->
  coro_id c ∉ awaited w ->
  upstream E (length (round_trips w)) (coro_request c) = Raise PydestMaintenanceException ->
  0 < TIME_MIN_SECONDS K ->
  execute_pydest_body K E c w
  = (Raise MaintenanceError,
     with_logs (LogError "PydestMaintenanceException" :: logs w)
       (with_redis (<[maintenance_key := (Raw "True",
                                          Some (now (round_trip E c w)
                                                + 1000 * TIME_MIN_SECONDS K))]> (redis w))
          (round_trip E c w))).
Proof.
  intros Hup Hflag Hc Hanswer Hmin. unfold execute_pydest_body.
  erewrite bind_ok; cycle 1.
  { unfold redis_get. rewrite Hup, Hflag. reflexivity. }
  simpl. rewrite bind_ret.
  erewrite try_except_handled; cycle 1.
  { rewrite await_first by exact Hc. rewrite Hanswer. reflexivity. }
  { reflexivity. }
  unfold bind, redis_set, logging, raise. simpl. rewrite Hup.
  destruct (Z.ltb_spec (TIME_MIN_SECONDS K) 0); [lia |].
  destruct (Z.eqb_spec (TIME_MIN_SECONDS K) 0); [lia |]. reflexivity.
Qed.

(** X5: when upstream answers a call with its maintenance exception,
    [execute_pydest] raises [MaintenanceError] after that one
    round-trip and leaves the maintenance flag set, to expire
    [TIME_MIN_SECONDS] later. *)
Theorem execute_pydest_detects_maintenance K E fuel c w :
  redis_up w = true ->
  redis w !! maintenance_key = None ->
  coro_id c ∉ awaited w ->
  let_through w ->
  upstream E (length (round_trips w)) (coro_request c) = Raise PydestMaintenanceException ->
  0 < TIME_MIN_SECONDS K ->
  exists w',
    execute_pydest K E (S fuel) c w = (Raise MaintenanceError, w')
    /\ flag_set w'
    /\ redis w' !! maintenance_key
       = Some (Raw "True", Some (now w' + 1000 * TIME_MIN_SECONDS K))
    /\ round_trips w' = coro_request c :: round_trips w.
Proof.
  intros Hup Hflag Hc Hlet Hanswer Hmin.
  destruct (counted_same_fields w) as (Hr & Hu & Hn & Ha & Ht & _).
  eexists. split; [| split; [| split]].
  - apply execute_pydest_passed; try reflexivity; [exact Hlet |].
    apply execute_pydest_body_detects.
    + now rewrite Hu.
    + now rewrite Hr.
    + now rewrite Ha.
    + now rewrite Ht.
    + exact Hmin.
  - split; [change (redis_up (counted w) = true); now rewrite Hu |].
    eexists. split; [apply lookup_insert_eq |]. split; [| reflexivity].
    change ((now (round_trip E c (counted w))
             <? now (round_trip E c (counted w)) + 1000 * TIME_MIN_SECONDS K) = true).
    apply Z.ltb_lt. lia.
  - apply lookup_insert_eq.
  - change (coro_request c :: round_trips (counted w) = coro_request c :: round_trips w).
    now rewrite Ht.
Qed.

Lemma execute_pydest_detects_maintenance_witness :
  exists w',
    execute_pydest Sample.K (Sample.env in_maintenance 0) 3 Sample.report_request Sample.w0
    = (Raise MaintenanceError, w')
    /\ flag_set w'
    /\ redis w' !! maintenance_key
       = Some (Raw "True", Some (now w' + 1000 * TIME_MIN_SECONDS Sample.K))
    /\ round_trips w' = coro_request Sample.report_request :: round_trips Sample.w0.
Proof.
  apply (execute_pydest_detects_maintenance Sample.K (Sample.env in_maintenance 0) 2
           Sample.report_request Sample.w0).
  - reflexivity.
  - reflexivity.
  - simpl. apply not_elem_of_empty.
  - left. vm_compute. discriminate.
  - reflexivity.
  - reflexivity.
Defined.

(** ** Retries in the legacy flow *)

(** One try of a legacy accessor. *)
Lemma legacy_try E r w :
  coroutines_made w ->
  (do c <- call_api r; await E c) w
  = (upstream E (length (round_trips w)) r,
     round_trip E (Coroutine (next_coro w) r) (with_next_coro (S (next_coro w)) w)).
Proof.
  intros Hmade. unfold bind, call_api. cbv beta iota.
  rewrite await_first; [reflexivity |].
  simpl. intros Hin. apply Hmade in Hin. lia.
Qed.

Lemma coroutines_made_round_trip E r w d :
  coroutines_made w ->
  coroutines_made
    (with_now d (round_trip E (Coroutine (next_coro w) r)
                   (with_next_coro (S (next_coro w)) w))).
Proof.
  intros Hmade i Hi. simpl in *.
  apply elem_of_union in Hi as [Hi|Hi].
  - apply elem_of_singleton in Hi. lia.
  - apply Hmade in Hi. lia.
Qed.

(** X6: the accessors of the legacy flow do retry: each try makes a new
    coroutine object, so when upstream raises the generic exception on
    a first request and answers the second, the accessor returns the
    answer, after two round-trips. *)
Theorem legacy_get_activity_retries E fuel activity w v :
  coroutines_made w ->
  upstream E (length (round_trips w)) (get_post_game_carnage_report_req activity)
  = Raise PydestException ->
  upstream E (S (length (round_trips w))) (get_post_game_carnage_report_req activity)
  = Ok v ->
  exists w',
    Legacy.get_activity E (S (S fuel)) activity w = (Ok v, w')
    /\ round_trips w'
       = get_post_game_carnage_report_req activity
           :: get_post_game_carnage_report_req activity :: round_trips w.
Proof.
  intros Hmade Hfirst Hsecond.
  unfold Legacy.get_activity, on_exception.
  cbn [retry_exception].
  rewrite (legacy_try E _ w Hmade), Hfirst.
  replace (matches (hier E) [PydestException] PydestException) with true by reflexivity.
  destruct (Z.leb_spec 60000 (now w - now w)); [lia |].
  cbn [orb bool_decide sleep].
  replace (bool_decide (None = Some 1%nat)) with false by reflexivity.
  cbn [orb].
  match goal with
  | |- context [with_now ?d (round_trip E ?c ?w0)] =>
      rewrite (legacy_try E _ (with_now d (round_trip E c w0)))
        by (apply coroutines_made_round_trip; exact Hmade)
  end.
  cbn [round_trips with_now round_trip with_round_trips with_awaited with_next_coro length].
  rewrite Hsecond. eexists. split; reflexivity.
Qed.

Lemma legacy_get_activity_retries_witness :
  exists w',
    Legacy.get_activity (Sample.env fails_first 0) 2 "9001" Sample.w0
    = (Ok (VDict [("Response", Sample.pgcr)]), w')
    /\ round_trips w'
       = get_post_game_carnage_report_req "9001"
           :: get_post_game_carnage_report_req "9001" :: round_trips Sample.w0.
Proof.
  apply (legacy_get_activity_retries (Sample.env fails_first 0) 0 "9001" Sample.w0
           (VDict [("Response", Sample.pgcr)])).
  - intros i Hi. simpl in Hi. now apply not_elem_of_empty in Hi.
  - reflexivity.
  - reflexivity.
Defined.

(** ** Reads through the cache *)

Lemma execute_pydest_body_answers K E c w v :
  redis_up w = true ->
  redis w !! maintenance_key = None ->
  coro_id c ∉ awaited w ->
  upstream E (length (round_trips w)) (coro_request c) = Ok v ->
  execute_pydest_body K E c w = (Ok v, round_trip E c w).
Proof.
  intros Hup Hflag Hc Hanswer. unfold execute_pydest_body.
  erewrite bind_ok; cycle 1.
  { unfold redis_get. rewrite Hup, Hflag. reflexivity. }
  simpl. rewrite bind_ret. apply try_except_ok.
  now rewrite await_first, Hanswer.
Qed.

Lemma execute_pydest_answers K E fuel c w v :
  redis_up w = true ->
  redis w !! maintenance_key = None ->
  coro_id c ∉ awaited w ->
  let_through w ->
  upstream E (length (round_trips w)) (coro_request c) = Ok v ->
  execute_pydest K E (S fuel) c w = (Ok v, round_trip E c (counted w)).
Proof.
  intros Hup Hflag Hc Hlet Hanswer.
  destruct (counted_same_fields w) as (Hr & Hu & Hn & Ha & Ht & _).
  apply execute_pydest_ok; [exact Hlet |].
  apply execute_pydest_body_answers.
  - now rewrite Hu.
  - now rewrite Hr.
  - now rewrite Ha.
  - now rewrite Ht.
Qed.

(** X7: a match report that is not cached is fetched with one
    round-trip and stored; a read of the same report made in the world
    that results is answered from the cache with the same report and
    leaves the world as it is. *)
Theorem get_pgcr_fetch_then_hit K E fuel activity w data pgcr :
  redis_up w = true ->
  redis w !! (activity +:+ "-pcgr") = None ->
  redis w !! maintenance_key = None ->
  let_through w ->
  coroutines_made w ->
  upstream E (length (round_trips w)) (get_post_game_carnage_report_req activity) = Ok data ->
  getitem data "Response" = Ok pgcr ->
  0 < TIME_HOUR_SECONDS K ->
  exists w1,
    get_pgcr K E (S fuel) activity w = (Ok pgcr, w1)
    /\ round_trips w1 = get_post_game_carnage_report_req activity :: round_trips w
    /\ forall fuel', get_pgcr K E fuel' activity w1 = (Ok pgcr, w1).
Proof.
  intros Hup Hmiss Hflag Hlet Hmade Hanswer Hresponse Hhour.
  set (c := Coroutine (next_coro w) (get_post_game_carnage_report_req activity)).
  set (wa := with_next_coro (S (next_coro w)) w).
  assert (execute_pydest K E (S fuel) c wa = (Ok data, round_trip E c (counted wa))) as Hexec.
  { apply execute_pydest_answers; try assumption.
    - simpl. intros Hin. apply Hmade in Hin. lia. }
  destruct (counted_same_fields wa) as (Hr & Hu & Hn & Ha & Ht & _).
  set (wb := round_trip E c (counted wa)) in *.
  set (w1 := with_redis (<[activity +:+ "-pcgr" :=
                             (Pickled pgcr, Some (now wb + 1000 * TIME_HOUR_SECONDS K))]>
                           (redis wb)) wb).
  assert (get_pgcr K E (S fuel) activity w = (Ok pgcr, w1)) as Hrun.
  { unfold get_pgcr.
    erewrite bind_ok; cycle 1.
    { unfold redis_get. rewrite Hup, Hmiss. reflexivity. }
    cbv beta zeta iota.
    erewrite bind_ok by reflexivity. fold c wa.
    erewrite bind_ok by exact Hexec.
    rewrite Hresponse, bind_lift_ok.
    erewrite bind_ok; cycle 1.
    { unfold set_data. apply try_except_ok. unfold redis_set.
      replace (redis_up wb) with true
        by (change (redis_up wb) with (redis_up (counted wa)); now rewrite Hu).
      destruct (Z.ltb_spec (TIME_HOUR_SECONDS K) 0); [lia |].
      destruct (Z.eqb_spec (TIME_HOUR_SECONDS K) 0); [lia |].
      reflexivity. }
    reflexivity. }
  exists w1. split; [exact Hrun |]. split.
  - change (round_trips w1) with (coro_request c :: round_trips (counted wa)).
    now rewrite Ht.
  - intros fuel'.
    assert (live w1 (activity +:+ "-pcgr") (Pickled pgcr)) as Hlive.
    { split.
      { change (redis_up w1) with (redis_up (counted wa)). now rewrite Hu. }
      eexists. split; [subst w1; simpl; apply lookup_insert_eq |].
      split; [subst w1; simpl; apply Z.ltb_lt; lia | reflexivity]. }
    destruct (live_entry_is_unpickled K E fuel' w1 _ _ Hlive) as (_ & _ & Hhit & _).
    now rewrite (Hhit activity eq_refl).
Qed.

Lemma get_pgcr_fetch_then_hit_witness :
  exists w1,
    get_pgcr Sample.K Sample.E 3 "9001" Sample.w0 = (Ok Sample.pgcr, w1)
    /\ round_trips w1 = get_post_game_carnage_report_req "9001" :: round_trips Sample.w0
    /\ forall fuel', get_pgcr Sample.K Sample.E fuel' "9001" w1 = (Ok Sample.pgcr, w1).
Proof.
  apply (get_pgcr_fetch_then_hit Sample.K Sample.E 2 "9001" Sample.w0
           (VDict [("Response", Sample.pgcr)]) Sample.pgcr).
  - reflexivity.
  - reflexivity.
  - reflexivity.
  - left. vm_compute. discriminate.
  - intros i Hi. simpl in Hi. now apply not_elem_of_empty in Hi.
  - reflexivity.
  - reflexivity.
  - reflexivity.
Defined.

(** X8: an answer to the history request that lacks the list of
    activities makes [get_activity_history] return [None] after the
    round-trip, and nothing is stored: the cache is as it was, so the
    next call asks upstream again. *)
Theorem get_activity_history_without_activities K E fuel platform member char mode count
    w data :
  redis_up w = true ->
  redis w !! (member +:+ "-activity-history") = None ->
  redis w !! maintenance_key = None ->
  let_through w ->
  coroutines_made w ->
  upstream E (length (round_trips w))
    (get_activity_history_req platform member char mode count) = Ok data ->
  obind (getitem data "Response") (fun response => getitem response "activities")
  = Raise KeyError ->
  exists w1,
    get_activity_history K E (S fuel) platform member char mode count w = (Ok VNone, w1)
    /\ redis w1 = redis w
    /\ round_trips w1
       = get_activity_history_req platform member char mode count :: round_trips w.
Proof.
  intros Hup Hmiss Hflag Hlet Hmade Hanswer Hfield.
  set (c := Coroutine (next_coro w)
              (get_activity_history_req platform member char mode count)).
  set (wa := with_next_coro (S (next_coro w)) w).
  assert (execute_pydest K E (S fuel) c wa = (Ok data, round_trip E c (counted wa))) as Hexec.
  { apply execute_pydest_answers; try assumption.
    simpl. intros Hin. apply Hmade in Hin. lia. }
  destruct (counted_same_fields wa) as (Hr & Hu & Hn & Ha & Ht & _).
  exists (round_trip E c (counted wa)). split; [| split].
  - unfold get_activity_history.
    erewrite bind_ok; cycle 1.
    { unfold redis_get. rewrite Hup, Hmiss. reflexivity. }
    cbv beta zeta iota.
    erewrite bind_ok by reflexivity. fold c wa.
    erewrite bind_ok by exact Hexec.
    unfold try_except_else.
    replace ((do response <- lift (getitem data "Response");
              lift (getitem response "activities")) (round_trip E c (counted wa)))
      with (@Raise value KeyError, round_trip E c (counted wa)).
    + reflexivity.
    + unfold bind, lift. unfold obind in Hfield.
      destruct (getitem data "Response"); try discriminate.
      * now rewrite Hfield.
      * congruence.
  - change (redis (round_trip E c (counted wa))) with (redis (counted wa)).
    now rewrite Hr.
  - change (round_trips (round_trip E c (counted wa)))
      with (coro_request c :: round_trips (counted wa)).
    now rewrite Ht.
Qed.

Lemma get_activity_history_without_activities_witness :
  exists w1,
    get_activity_history Sample.K (Sample.env no_activities 0) 3 1 "11" "c1" 4 30 Sample.w0
    = (Ok VNone, w1)
    /\ redis w1 = redis Sample.w0
    /\ round_trips w1 = get_activity_history_req 1 "11" "c1" 4 30 :: round_trips Sample.w0.
Proof.
  apply (get_activity_history_without_activities Sample.K (Sample.env no_activities 0) 2
           1 "11" "c1" 4 30 Sample.w0 (VDict [("Response", VDict [])])).
  - reflexivity.
  - reflexivity.
  - reflexivity.
  - left. vm_compute. discriminate.
  - intros i Hi. simpl in Hi. now apply not_elem_of_empty in Hi.
  - reflexivity.
  - reflexivity.
Defined.

(** X9: [get_data] returns what it fetched without storing it: whatever
    the outcome, every cache entry other than the maintenance flag is as
    it was before the call. *)
Theorem get_data_stores_nothing K E fuel key function w :
  cache_frame w (snd (get_data K E fuel key function w)).
Proof.
  unfold get_data.
  assert (respects cache_frame (execute_pydest K E fuel function)) as Hexec
    by apply cache_frame_execute_pydest.
  unfold redis_get, bind. destruct (redis_up w); [| apply cache_frame_refl].
  destruct (redis w !! key) as [[b expiry]|]; [| apply Hexec].
  destruct (unexpired (now w) expiry); [| apply Hexec].
  destruct (blob_truthy (Some b)); [apply cache_frame_refl | apply Hexec].
Qed.

(** ** [decode_activity] *)

Lemma unobserved_refl w : unobserved w w.
Proof. repeat split. Qed.

Lemma unobserved_trans a b c : unobserved a b -> unobserved b c -> unobserved a c.
Proof.
  intros (H1 & H2 & H3 & H4 & H5 & H6 & H7) (G1 & G2 & G3 & G4 & G5 & G6 & G7).
  repeat split; congruence.
Qed.

(** A policy retries or gives up: it never turns a failure into an
    answer. *)
Lemma retry_exception_no_answer {A} E exception max_tries max_time (target : M A) :
  (forall w v, fst (target w) <> Ok v) ->
  forall fuel tries start w v,
    fst (retry_exception E fuel exception max_tries max_time target tries start w) <> Ok v.
Proof.
  intros Ht fuel. induction fuel as [|fuel IH]; intros tries start w v; simpl.
  - discriminate.
  - specialize (Ht w). destruct (target w) as [[a|e|] w']; simpl in *.
    + exact (Ht v).
    + destruct (matches _ _ _); [| discriminate].
      destruct (_ || _); [discriminate | apply IH].
    + discriminate.
Qed.

Lemma on_exception_no_answer {A} E fuel exception max_tries max_time (target : M A) :
  (forall w v, fst (target w) <> Ok v) ->
  forall w v, fst (on_exception E fuel exception max_tries max_time target w) <> Ok v.
Proof. intros Ht w v. unfold on_exception. now apply retry_exception_no_answer. Qed.

Lemma execute_pydest_without_redis_no_answer E fuel w v :
  fst (execute_pydest_without_redis E fuel w) <> Ok v.
Proof.
  revert w v. unfold execute_pydest_without_redis.
  do 4 apply on_exception_no_answer.
  intros w v. unfold limits. destruct (_ <? _); discriminate.
Qed.

Lemma execute_pydest_without_redis_unobserved E fuel :
  respects unobserved (execute_pydest_without_redis E fuel).
Proof.
  unfold execute_pydest_without_redis.
  do 4 (apply respects_on_exception;
        [exact unobserved_refl | exact unobserved_trans
        | intros d w; repeat split |]).
  apply respects_limits;
    [exact unobserved_refl | exact unobserved_trans | intros n t w; repeat split |].
  intros w. apply unobserved_refl.
Qed.

(** X10: [decode_activity] never returns a definition. Its first call of
    [execute_pydest] lacks the [redis] argument, so the call fails before
    anything is awaited: no request reaches upstream, and the cache, the
    stores and the log are untouched. When the limiter lets the call
    through, the exception is [TypeError]. *)
Theorem decode_activity_never_answers K E fuel manifest definition w :
  (forall v, fst (decode_activity K E fuel manifest definition w) <> Ok v)
  /\ unobserved w (snd (decode_activity K E fuel manifest definition w))
  /\ (let_through w ->
      fst (decode_activity K E (S fuel) manifest definition w) = Raise TypeError).
Proof.
  unfold decode_activity, bind, call_api. cbv beta iota.
  set (wa := with_next_coro (S (next_coro w)) w).
  assert (unobserved w wa) as Hwa by (repeat split).
  split; [| split].
  - intros v.
    pose proof (execute_pydest_without_redis_no_answer E fuel wa) as Hno.
    destruct (execute_pydest_without_redis E fuel wa) as [[a|e|] w']; simpl in *.
    + now destruct (Hno a).
    + discriminate.
    + discriminate.
  - pose proof (execute_pydest_without_redis_unobserved E fuel wa) as Hquiet.
    pose proof (execute_pydest_without_redis_no_answer E fuel wa) as Hno.
    destruct (execute_pydest_without_redis E fuel wa) as [[a|e|] w']; cbn [fst snd] in *.
    + now destruct (Hno a).
    + exact (unobserved_trans _ _ _ Hwa Hquiet).
    + exact (unobserved_trans _ _ _ Hwa Hquiet).
  - intros Hlet.
    assert (execute_pydest_without_redis E (S fuel) wa = (Raise TypeError, counted wa)) as ->.
    { unfold execute_pydest_without_redis.
      do 4 (apply on_exception_passed; [| reflexivity]).
      apply limits_let_through. exact Hlet. }
    reflexivity.
Qed.

(** ** The units of the fan-out *)

Lemma flat_map_shift {X Y} (f : nat -> list Y) (g : nat -> list Y) (n : nat) (x : X) :
  (forall k, f (S k) = g k) ->
  flat_map f (seq 1 n) = flat_map g (seq 0 n).
Proof.
  intros Hfg. rewrite <- seq_shift, flat_map_concat_map, map_map, <- flat_map_concat_map.
  apply flat_map_ext. exact Hfg.
Qed.

(** X11: the units that [store_all_games] makes. The clans without
    activity tracking contribute none. Without aggregation each tracked
    clan contributes one unit per active member, handed the list of that
    clan. With aggregation the units made at a clan cover every member
    gathered so far, so the members of an earlier clan get a unit again
    at each later tracked clan, and every unit is handed the one list
    that holds all of them in the end. *)
Theorem make_tasks_units guild_db clan_dbs :
  forall member_dbs tasks w,
    let rosters :=
      map (fun c => default [] (active_members (db w) !! clan_pk c))
          (filter (fun c => activity_tracking c = true) clan_dbs) in
    fst (make_tasks guild_db clan_dbs member_dbs tasks w)
    = Ok (if aggregate_clans guild_db
          then (member_dbs ++ concat rosters)%list
          else default member_dbs (last rosters),
          (tasks ++
           if aggregate_clans guild_db
           then flat_map (fun k => map (pair GrownList)
                                     (member_dbs ++ concat (take (S k) rosters))%list)
                         (seq 0 (length rosters))
           else flat_map (fun r => map (pair (QueriedList r)) r) rosters)%list).
Proof.
  induction clan_dbs as [|clan_db clan_dbs IH]; intros member_dbs tasks w rosters.
  - subst rosters. simpl. destruct (aggregate_clans guild_db); simpl.
    + now rewrite !app_nil_r.
    + now rewrite app_nil_r.
  - subst rosters. simpl make_tasks. rewrite filter_cons.
    destruct (activity_tracking clan_db) eqn:Htracked.
    + destruct (decide (true = true)) as [_|Hne]; [| now destruct Hne].
      cbn [negb]. unfold bind at 1, get_clan_members_active at 1. cbv beta iota.
      rewrite IH. clear IH.
      destruct (aggregate_clans guild_db).
      * cbn [map concat length seq flat_map].
        set (r := default [] (active_members (db w) !! clan_pk clan_db)).
        set (rosters := map _ (filter _ clan_dbs)).
        rewrite (flat_map_shift _ (fun k => map (pair GrownList)
                                     ((member_dbs ++ r) ++ concat (take (S k) rosters))%list)
                   _ tt).
        -- cbn [take firstn concat]. now rewrite app_nil_r, <- !app_assoc.
        -- intros k. cbn [take firstn concat]. now rewrite <- app_assoc.
      * cbn [map flat_map].
        set (r := default [] (active_members (db w) !! clan_pk clan_db)).
        set (rosters := map _ (filter _ clan_dbs)).
        rewrite <- app_assoc. do 2 f_equal.
        destruct rosters as [|r' rosters']; [reflexivity |].
        change (last (r :: r' :: rosters')) with (last (r' :: rosters')).
        destruct (last (r' :: rosters')) eqn:Hlast; [reflexivity |].
        now apply last_None in Hlast.
    + destruct (decide (false = true)) as [Heq|_]; [discriminate |].
      cbn [negb]. unfold bind at 1, logging at 1. cbv beta iota.
      rewrite IH. reflexivity.
Qed.

(** ** The store steps, run again *)

Lemma rows_only_refl w : rows_only w w.
Proof. repeat split. Qed.

Lemma rows_only_trans a b c : rows_only a b -> rows_only b c -> rows_only a c.
Proof. intros (H1 & H2 & H3) (G1 & G2 & G3). repeat split; congruence. Qed.

Lemma rows_only_store_game_member clan game p :
  respects rows_only (store_game_member clan game p).
Proof.
  unfold store_game_member.
  apply respects_bind; [exact rows_only_trans | | intros pk].
  { apply respects_try_except; [exact rows_only_trans | | intros e].
    - intros w. unfold get_clan_member_by_platform.
      destruct (_ !! _); apply rows_only_refl.
    - apply respects_bind; [exact rows_only_trans | | intros _].
      + intros w. repeat split.
      + apply respects_raise, rows_only_refl. }
  apply respects_try_except; [exact rows_only_trans | | intros e].
  - intros w. unfold database_create_GameMember. destruct (_ !! _); repeat split.
  - apply respects_bind; [exact rows_only_trans | | intros r].
    + intros w. unfold database_get_GameMember. destruct (_ !! _); repeat split.
    + intros w. repeat split.
Qed.

Lemma rows_only_players clan game players :
  respects rows_only (for_each players (store_game_member clan game)).
Proof.
  apply respects_for_each; [exact rows_only_refl | exact rows_only_trans |].
  intros p. apply rows_only_store_game_member.
Qed.

(** The membership step that returned has left the link in place and the
    games as they were. *)
Lemma store_clan_game_linked clan game game_db w w' :
  store_clan_game clan game game_db w = (Ok tt, w') ->
  (clan, game_pk game_db) ∈ ClanGame_t (db w') /\ Game_t (db w') = Game_t (db w).
Proof.
  unfold store_clan_game, try_except, database_get_ClanGame.
  case_bool_decide as Hlink; simpl.
  - intros [= <-]. split; [exact Hlink | reflexivity].
  - unfold bind at 1, database_create_ClanGame at 1.
    rewrite bool_decide_false by exact Hlink. cbv beta iota.
    set (wl := with_db _ w).
    pose proof (rows_only_players clan (game_pk game_db) (clan_players game) wl)
      as (Hg & Hl & Hr).
    intros Hrun.
    replace w' with (snd (for_each (clan_players game)
                            (store_game_member clan (game_pk game_db)) wl))
      by (now rewrite Hrun).
    split; [| rewrite Hg; reflexivity].
    rewrite Hl. unfold wl. simpl. apply elem_of_union. left. now apply elem_of_singleton.
Qed.

Lemma store_clan_game_known clan game game_db w :
  (clan, game_pk game_db) ∈ ClanGame_t (db w) ->
  store_clan_game clan game game_db w = (Ok tt, w).
Proof.
  intros Hlink. unfold store_clan_game. apply try_except_ok.
  unfold database_get_ClanGame. now rewrite bool_decide_true.
Qed.

(** X12: the loop body is idempotent. Once it has returned for a report,
    running it again for the same report in the world it left, with
    whatever count so far, writes nothing and counts nothing. *)
Theorem store_game_again K E member_dbs member_db mode_count mode_count' activity pgcr
    w n w' :
  store_game K E member_dbs member_db mode_count activity pgcr w = (Ok n, w') ->
  store_game K E member_dbs member_db mode_count' activity pgcr w' = (Ok mode_count', w').
Proof.
  unfold store_game.
  destruct (ClanGame E pgcr member_dbs) as [game|e|]; try discriminate.
  rewrite !bind_lift_ok.
  destruct (MODE_MAP K (mode_id game)) as [details|]; try discriminate.
  rewrite !bind_lift_ok.
  destruct (not_eligible K E game details member_db).
  { intros [= _ <-]. reflexivity. }
  intros Hrun.
  apply bind_inv_ok in Hrun as ([game_db count] & w1 & Hrow & Hrun).
  apply bind_inv_ok in Hrun as ([] & w2 & Hlink & Hrun).
  injection Hrun as _ <-. cbn [fst snd] in *.
  apply store_clan_game_linked in Hlink as (Hlink & Hgames).
  assert (Game_t (db w1) !! instance_id game = Some game_db) as Hfound.
  { destruct (Game_t (db w) !! instance_id game) as [r|] eqn:Hr.
    - rewrite (store_game_row_found _ _ _ _ _ _ Hr) in Hrow.
      injection Hrow as <- _ <-. exact Hr.
    - destruct (store_game_row_created game (py_title (md_title details)) activity mode_count w Hr)
        as (wc & Hc & Hg).
      rewrite Hc in Hrow. injection Hrow as <- _ <-.
      rewrite Hg. apply lookup_insert_eq. }
  rewrite <- Hgames in Hfound.
  erewrite bind_ok by (apply store_game_row_found; exact Hfound).
  cbn [fst snd].
  erewrite bind_ok by (apply store_clan_game_known; exact Hlink).
  reflexivity.
Qed.

Lemma store_game_again_witness :
  store_game Sample.K Sample.E Sample.roster (Sample.member 1 "11") 7 "9001" Sample.pgcr
    (snd (store_game Sample.K Sample.E Sample.roster (Sample.member 1 "11") 0 "9001"
            Sample.pgcr Sample.w0))
  = (Ok 7,
     snd (store_game Sample.K Sample.E Sample.roster (Sample.member 1 "11") 0 "9001"
            Sample.pgcr Sample.w0)).
Proof.
  apply (store_game_again Sample.K Sample.E Sample.roster (Sample.member 1 "11") 0 7
           "9001" Sample.pgcr Sample.w0 1).
  vm_compute. reflexivity.
Defined.

(** ** A player who is not on the roster *)

Lemma store_game_member_on_roster clan game p pk w :
  by_platform (db w) !! (membership_id p, membership_type p, clan) = Some pk ->
  exists w', store_game_member clan game p w = (Ok tt, w').
Proof.
  intros Hpk. unfold store_game_member.
  erewrite bind_ok; cycle 1.
  { apply try_except_ok. unfold get_clan_member_by_platform. now rewrite Hpk. }
  unfold try_except, database_create_GameMember.
  destruct (GameMember_t (db w) !! (game, pk)) as [r|] eqn:Hrow.
  - cbn [bool_decide decide_rel]. rewrite bool_decide_true by reflexivity.
    unfold bind, database_get_GameMember. rewrite Hrow. eexists. reflexivity.
  - eexists. reflexivity.
Qed.

Lemma for_each_stranger clan game p players :
  p ∈ players ->
  forall w,
    by_platform (db w) !! (membership_id p, membership_type p, clan) = None ->
    exists w',
      for_each players (store_game_member clan game) w = (Raise DoesNotExist, w').
Proof.
  induction players as [|q players IH]; intros Hin w Hp.
  - now apply elem_of_nil in Hin.
  - cbn [for_each].
    destruct (by_platform (db w) !! (membership_id q, membership_type q, clan))
      as [pk|] eqn:Hq.
    + destruct (store_game_member_on_roster clan game q pk w Hq) as (w1 & Hrun).
      pose proof (rows_only_store_game_member clan game q w) as (_ & _ & Hroster).
      rewrite Hrun in Hroster. cbn [snd] in Hroster.
      apply elem_of_cons in Hin as [->|Hin]; [congruence |].
      destruct (IH Hin w1) as (w' & Hrest); [now rewrite Hroster |].
      exists w'. erewrite bind_ok by exact Hrun. exact Hrest.
    + eexists. apply bind_raise. unfold store_game_member.
      apply bind_raise.
      erewrite try_except_handled; cycle 1.
      { unfold get_clan_member_by_platform. rewrite Hq. reflexivity. }
      { reflexivity. }
      reflexivity.
Qed.

(** X13: a player of the game who is not on the roster of the clan makes
    the membership step raise the not-found condition after the link was
    written. Nothing is undone: in the world left behind the link is in
    place, so the step run again returns at once and writes nothing, and
    the rows of the remaining players are never written. *)
Theorem store_clan_game_stranger clan game game_db p w :
  (clan, game_pk game_db) ∉ ClanGame_t (db w) ->
  p ∈ clan_players game ->
  by_platform (db w) !! (membership_id p, membership_type p, clan) = None ->
  exists w',
    store_clan_game clan game game_db w = (Raise DoesNotExist, w')
    /\ (clan, game_pk game_db) ∈ ClanGame_t (db w')
    /\ store_clan_game clan game game_db w' = (Ok tt, w').
Proof.
  intros Hnew Hin Hp.
  set (wl := with_db (with_ClanGame_t ({[(clan, game_pk game_db)]} ∪ ClanGame_t (db w))
                        (db w)) w).
  destruct (for_each_stranger clan (game_pk game_db) p (clan_players game) Hin wl Hp)
    as (w' & Hrun).
  pose proof (rows_only_players clan (game_pk game_db) (clan_players game) wl)
    as (Hgames & Hlinks & Hroster).
  assert ((clan, game_pk game_db) ∈ ClanGame_t (db w')) as Hlink.
  { replace w' with (snd (for_each (clan_players game)
                            (store_game_member clan (game_pk game_db)) wl))
      by (now rewrite Hrun).
    rewrite Hlinks. unfold wl. simpl. apply elem_of_union. left.
    now apply elem_of_singleton. }
  exists w'. split; [| split].
  - unfold store_clan_game.
    erewrite try_except_handled; cycle 1.
    { unfold database_get_ClanGame. rewrite bool_decide_false by exact Hnew. reflexivity. }
    { reflexivity. }
    erewrite bind_ok; cycle 1.
    { unfold database_create_ClanGame. rewrite bool_decide_false by exact Hnew.
      reflexivity. }
    exact Hrun.
  - exact Hlink.
  - apply store_clan_game_known. exact Hlink.
Qed.

Lemma store_clan_game_stranger_witness :
  exists w',
    store_clan_game 1 game_with_stranger (GameRow 0 Sample.feb_2019 4) Sample.w0
    = (Raise DoesNotExist, w')
    /\ (1%nat, game_pk (GameRow 0 Sample.feb_2019 4)) ∈ ClanGame_t (db w')
    /\ store_clan_game 1 game_with_stranger (GameRow 0 Sample.feb_2019 4) w' = (Ok tt, w').
Proof.
  apply (store_clan_game_stranger 1 game_with_stranger (GameRow 0 Sample.feb_2019 4)
           (Player "99" 1 true 1700) Sample.w0).
  - simpl. apply not_elem_of_empty.
  - simpl. apply list_elem_of_further, list_elem_of_here.
  - vm_compute. reflexivity.
Defined.

(** ** A member on an unknown platform *)

Lemma parse_platform_unknown K member_db p :
  p ∉ known_platforms K -> parse_platform K member_db p = Raise UnboundLocalError.
Proof.
  unfold known_platforms. intros Hp. unfold parse_platform.
  repeat (apply not_elem_of_cons in Hp as [Hne Hp];
          apply Z.eqb_neq in Hne; rewrite Hne; clear Hne).
  reflexivity.
Qed.

Lemma gather_fails {A} (t : M A) tasks :
  t ∈ tasks ->
  (forall w a, fst (t w) <> Ok a) ->
  forall w l, fst (gather tasks w) <> Ok l.
Proof.
  intros Hin Ht. induction tasks as [|t' tasks IH]; intros w l.
  - now apply elem_of_nil in Hin.
  - cbn [gather]. unfold bind at 1.
    destruct (t' w) as [[a|e|] w1] eqn:Hrun; cbn [fst]; try discriminate.
    apply elem_of_cons in Hin as [->|Hin].
    + specialize (Ht w a). now rewrite Hrun in Ht.
    + specialize (IH Hin w1). unfold bind.
      destruct (gather tasks w1) as [[rs|e|] w2]; cbn [fst] in *; try discriminate.
      now destruct (IH rs).
Qed.

(** The loop over the clans always returns, and the units it has made
    include one for every active member of every tracked clan. *)
Lemma make_tasks_covers guild_db clan_dbs :
  forall member_dbs tasks w,
  exists made w',
    make_tasks guild_db clan_dbs member_dbs tasks w = (Ok made, w')
    /\ (forall t, t ∈ tasks -> t ∈ snd made)
    /\ (forall clan_db member_db,
          clan_db ∈ clan_dbs -> activity_tracking clan_db = true ->
          member_db ∈ default [] (active_members (db w) !! clan_pk clan_db) ->
          exists r, (r, member_db) ∈ snd made).
Proof.
  induction clan_dbs as [|c clan_dbs IH]; intros member_dbs tasks w.
  - exists (member_dbs, tasks), w. split; [reflexivity |]. split; [auto |].
    intros clan_db member_db Hin. now apply elem_of_nil in Hin.
  - cbn [make_tasks]. destruct (activity_tracking c) eqn:Htracked; cbn [negb].
    + unfold bind at 1, get_clan_members_active at 1. cbv beta iota.
      set (active := default [] (active_members (db w) !! clan_pk c)).
      set (member_dbs' := if aggregate_clans guild_db then _ else _).
      set (r := if aggregate_clans guild_db then _ else _).
      destruct (IH member_dbs' (tasks ++ map (fun m => (r, m)) member_dbs')%list w)
        as (made & w' & Hrun & Hkeeps & Hcovers).
      exists made, w'. split; [exact Hrun |]. split.
      * intros t Ht. apply Hkeeps, elem_of_app. now left.
      * intros clan_db member_db Hin Ht Hm.
        apply elem_of_cons in Hin as [->|Hin]; [| now apply (Hcovers clan_db)].
        exists r. apply Hkeeps, elem_of_app. right.
        apply (list_elem_of_fmap_2 (fun m => (r, m))).
        subst member_dbs'. destruct (aggregate_clans guild_db); [| exact Hm].
        apply elem_of_app. now right.
    + unfold bind at 1, logging at 1. cbv beta iota.
      destruct (IH member_dbs tasks (with_logs (LogInfoSkipClan (clan_name c) :: logs w) w))
        as (made & w' & Hrun & Hkeeps & Hcovers).
      exists made, w'. split; [exact Hrun |]. split; [exact Hkeeps |].
      intros clan_db member_db Hin Ht Hm.
      apply elem_of_cons in Hin as [->|Hin]; [congruence |].
      now apply (Hcovers clan_db).
Qed.

(** X14: one active member of a tracked clan whose platform id is none
    of the six that [parse_platform] knows makes the whole fan-out fail:
    the unit of that member raises before it awaits anything, [gather]
    passes the exception on, and [store_all_games] never returns. *)
Theorem store_all_games_unknown_platform K E fuel game_mode guild_id w
    clan_dbs clan_db member_db :
  clans_by_guild (db w) !! guild_id = Some clan_dbs ->
  clan_db ∈ clan_dbs ->
  activity_tracking clan_db = true ->
  member_db ∈ default [] (active_members (db w) !! clan_pk clan_db) ->
  platform_id (member_clanmember member_db) ∉ known_platforms K ->
  (forall member_dbs w',
     store_member_history K E fuel member_dbs member_db game_mode w'
     = (Raise UnboundLocalError, w'))
  /\ forall v, fst (store_all_games K E fuel game_mode guild_id w) <> Ok v.
Proof.
  intros Hclans Hclan Htracked Hmember Hplatform.
  assert (forall member_dbs w',
            store_member_history K E fuel member_dbs member_db game_mode w'
            = (Raise UnboundLocalError, w')) as Hunit.
  { intros member_dbs w'. unfold store_member_history.
    rewrite (parse_platform_unknown K member_db _ Hplatform).
    apply bind_lift_raise. }
  split; [exact Hunit |].
  intros v. unfold store_all_games, bind at 1, database_get_Guild.
  destruct (Guild_t (db w) !! guild_id) as [guild_db|]; [| discriminate].
  erewrite bind_ok; cycle 1.
  { apply try_except_ok. erewrite bind_ok; [reflexivity |].
    unfold get_clans_by_guild. now rewrite Hclans. }
  cbv beta iota. unfold bind at 1, logging at 1. cbv beta iota.
  set (wl := with_logs _ w).
  destruct (make_tasks_covers guild_db clan_dbs [] [] wl)
    as (made & w1 & Hrun & _ & Hcovers).
  destruct (Hcovers clan_db member_db Hclan Htracked Hmember) as (r & Hin).
  erewrite bind_ok by exact Hrun.
  unfold bind at 1.
  match goal with
  | |- context [gather ?tasks w1] =>
      pose proof (gather_fails
                    (store_member_history K E fuel (deref (fst made) r) member_db game_mode)
                    tasks) as Hfails
  end.
  match type of Hfails with
  | ?P -> _ => assert P as Hunits
  end.
  { apply (list_elem_of_fmap_2
             (fun t => store_member_history K E fuel (deref (fst made) (fst t)) (snd t)
                         game_mode) _ (r, member_db)).
    exact Hin. }
  specialize (Hfails Hunits).
  match type of Hfails with
  | ?P -> _ => assert P as Hnever
  end.
  { intros w' a. rewrite Hunit. discriminate. }
  specialize (Hfails Hnever w1).
  destruct (gather _ w1) as [[results|e|] w2]; cbn [fst] in *; try discriminate.
  now destruct (Hfails results).
Qed.

Lemma store_all_games_unknown_platform_witness :
  (forall member_dbs w',
     store_member_history Sample.K Sample.E 5 member_dbs stray_member "raid" w'
     = (Raise UnboundLocalError, w'))
  /\ forall v, fst (store_all_games Sample.K Sample.E 5 "raid" 7 w_stray) <> Ok v.
Proof.
  apply (store_all_games_unknown_platform Sample.K Sample.E 5 "raid" 7 w_stray
           [ClanRow 1 "clan" true] (ClanRow 1 "clan" true) stray_member).
  - reflexivity.
  - apply list_elem_of_here.
  - reflexivity.
  - vm_compute. apply list_elem_of_here.
  - apply (bool_decide_unpack _). vm_compute. exact I.
Defined.

(** ** A RuntimeError in the listing *)

Lemma instance_ids_no_runtime_error l : instance_ids l <> Raise RuntimeError.
Proof.
  induction l as [|activity l IH]; cbn [instance_ids]; [discriminate |].
  destruct activity as [| | | | |d]; cbn; try discriminate.
  destruct (assoc "activityDetails" d) as [details|]; cbn; [| discriminate].
  destruct details as [| | | | |d']; cbn; try discriminate.
  destruct (assoc "instanceId" d') as [i|]; cbn; [| discriminate].
  destruct (instance_ids l) as [ids|e|]; cbn; try discriminate.
  intros [= ->]. now apply IH.
Qed.

(** X15: a [RuntimeError] of the history request of a character never
    leaves [get_activity_list]: the character is passed over and the
    listing goes on with the next one. *)
Theorem get_activity_list_no_runtime_error K E fuel platform member char_ids mode w :
  fst (get_activity_list K E fuel platform member char_ids mode w) <> Raise RuntimeError.
Proof.
  unfold get_activity_list. generalize (@nil string) as all. generalize 30 as count.
  revert w. induction char_ids as [|char char_ids IH]; intros w count all.
  - discriminate.
  - cbn [get_activity_list_from]. unfold bind at 1, try_except at 1, bind at 1.
    destruct (get_activity_history K E fuel platform member char mode count w)
      as [[a|e|] w1]; cbn [fst snd].
    + cbn. destruct (truthy a); cbn [negb]; [| apply IH].
      unfold bind at 1, lift at 1.
      assert (iter a <> Raise RuntimeError) as Hiter by (destruct a; discriminate).
      destruct (iter a) as [l|e|]; cbn [fst]; [| congruence | discriminate].
      unfold bind at 1, lift at 1.
      pose proof (instance_ids_no_runtime_error l) as Hids.
      destruct (instance_ids l) as [ids|e|]; cbn [fst];
        [apply IH | congruence | discriminate].
    + case_bool_decide as He.
      * cbn. apply IH.
      * cbn. congruence.
    + discriminate.
Qed.

(** ** A profile without characters *)

(** X16: when the profile that upstream returns lacks the characters
    ([KeyError], or [TypeError] on a part that is not a dict),
    [store_member_history] logs one error and returns [None]: nothing is
    cached, and no store is written. *)
Theorem store_member_history_without_characters K E fuel member_dbs member_db game_mode
    w member_id member_username data e :
  parse_platform K member_db (platform_id (member_clanmember member_db))
  = Ok (member_id, member_username) ->
  redis_up w = true ->
  redis w !! (member_id +:+ "-profile") = None ->
  redis w !! maintenance_key = None ->
  let_through w ->
  coroutines_made w ->
  upstream E (length (round_trips w))
    (get_profile_req (platform_id (member_clanmember member_db)) member_id
       [COMPONENT_CHARACTERS K]) = Ok data ->
  obind (getitem data "Response") (fun response =>
  obind (getitem response "characters") (fun characters =>
  getitem characters "data")) = Raise e ->
  e = KeyError \/ e = TypeError ->
  exists w',
    store_member_history K E (S fuel) member_dbs member_db game_mode w = (Ok VNone, w')
    /\ logs w' = LogError "Could not get character data" :: logs w
    /\ redis w' = redis w /\ db w' = db w /\ ldb w' = ldb w.
Proof.
  intros Hids Hup Hmiss Hflag Hlet Hmade Hanswer Hfield He.
  set (platform := platform_id (member_clanmember member_db)) in *.
  set (c := Coroutine (next_coro w)
              (get_profile_req platform member_id [COMPONENT_CHARACTERS K])).
  set (wa := with_next_coro (S (next_coro w)) w).
  assert (execute_pydest K E (S fuel) c wa = (Ok data, round_trip E c (counted wa))) as Hexec.
  { apply execute_pydest_answers; try assumption.
    simpl. intros Hin. apply Hmade in Hin. lia. }
  destruct (counted_same_fields wa) as (Hr & Hu & Hn & Ha & Ht & Hc & Hl & Hd).
  assert (get_characters K E (S fuel) member_id platform w
          = (Raise e, round_trip E c (counted wa))) as Hchars.
  { unfold get_characters.
    erewrite bind_ok; cycle 1.
    { unfold redis_get. rewrite Hup, Hmiss. reflexivity. }
    cbv beta zeta iota.
    erewrite bind_ok by reflexivity. fold c wa.
    erewrite bind_ok by exact Hexec.
    unfold obind in Hfield. unfold bind, lift.
    destruct (getitem data "Response") as [response| |]; [| congruence | discriminate].
    destruct (getitem response "characters") as [characters| |];
      [| congruence | discriminate].
    now rewrite Hfield. }
  eexists. split; [| split; [| split; [| split]]].
  - unfold store_member_history. fold platform.
    rewrite Hids, bind_lift_ok. cbn [fst snd].
    erewrite bind_ok; cycle 1.
    { erewrite try_except_handled; cycle 1.
      - erewrite bind_raise; [reflexivity | exact Hchars].
      - destruct He as [-> | ->]; reflexivity.
      - reflexivity. }
    reflexivity.
  - change (LogError "Could not get character data" :: logs (counted wa)
            = LogError "Could not get character data" :: logs w).
    now rewrite Hl.
  - change (redis (counted wa) = redis w). now rewrite Hr.
  - change (db (counted wa) = db w). now rewrite Hd.
  - unfold counted. destruct (_ <=? _); reflexivity.
Qed.

Lemma store_member_history_without_characters_witness :
  exists w',
    store_member_history Sample.K (Sample.env no_characters 0) 3 Sample.roster
      (Sample.member 1 "11") "raid" Sample.w0 = (Ok VNone, w')
    /\ logs w' = LogError "Could not get character data" :: logs Sample.w0
    /\ redis w' = redis Sample.w0 /\ db w' = db Sample.w0 /\ ldb w' = ldb Sample.w0.
Proof.
  apply (store_member_history_without_characters Sample.K (Sample.env no_characters 0) 2
           Sample.roster (Sample.member 1 "11") "raid" Sample.w0 "11" "11"
           (VDict [("Response", VDict [])]) KeyError).
  - reflexivity.
  - reflexivity.
  - reflexivity.
  - reflexivity.
  - left. vm_compute. discriminate.
  - intros i Hi. simpl in Hi. now apply not_elem_of_empty in Hi.
  - reflexivity.
  - reflexivity.
  - now left.
Defined.

(** ** The rows of a new link *)

Lemma store_game_member_row clan game p pk w :
  by_platform (db w) !! (membership_id p, membership_type p, clan) = Some pk ->
  exists w',
    store_game_member clan game p w = (Ok tt, w')
    /\ is_Some (GameMember_t (db w') !! (game, pk))
    /\ (forall k, is_Some (GameMember_t (db w) !! k) -> is_Some (GameMember_t (db w') !! k)).
Proof.
  intros Hpk. unfold store_game_member.
  erewrite bind_ok; cycle 1.
  { apply try_except_ok. unfold get_clan_member_by_platform. now rewrite Hpk. }
  unfold try_except, database_create_GameMember.
  destruct (GameMember_t (db w) !! (game, pk)) as [r|] eqn:Hrow.
  - rewrite bool_decide_true by reflexivity.
    unfold bind, database_get_GameMember. rewrite Hrow. eexists. split; [reflexivity |].
    cbn. split.
    + rewrite lookup_insert_eq. eauto.
    + intros k Hk. destruct (decide (k = (game, pk))) as [->|Hne].
      * rewrite lookup_insert_eq. eauto.
      * now rewrite lookup_insert_ne.
  - eexists. split; [reflexivity |]. cbn. split.
    + rewrite lookup_insert_eq. eauto.
    + intros k Hk. destruct (decide (k = (game, pk))) as [->|Hne].
      * rewrite lookup_insert_eq. eauto.
      * now rewrite lookup_insert_ne.
Qed.

Lemma for_each_rows clan game players :
  forall w,
    (forall p, p ∈ players ->
       is_Some (by_platform (db w) !! (membership_id p, membership_type p, clan))) ->
    exists w',
      for_each players (store_game_member clan game) w = (Ok tt, w')
      /\ (forall k, is_Some (GameMember_t (db w) !! k) ->
                    is_Some (GameMember_t (db w') !! k))
      /\ (forall p pk,
            p ∈ players ->
            by_platform (db w) !! (membership_id p, membership_type p, clan) = Some pk ->
            is_Some (GameMember_t (db w') !! (game, pk))).
Proof.
  induction players as [|q players IH]; intros w Hroster.
  - exists w. split; [reflexivity |]. split; [auto |].
    intros p pk Hin. now apply elem_of_nil in Hin.
  - destruct (Hroster q (list_elem_of_here q players)) as (pkq & Hq).
    destruct (store_game_member_row clan game q pkq w Hq) as (w1 & Hrun & Hrow & Hkeeps).
    pose proof (rows_only_store_game_member clan game q w) as (Hg & Hl & Hsame).
    replace (snd (store_game_member clan game q w)) with w1 in Hsame by (now rewrite Hrun).
    destruct (IH w1) as (w' & Hrest & Hkeeps' & Hrows).
    { intros p Hp. rewrite Hsame. apply Hroster. now apply list_elem_of_further. }
    exists w'. split; [| split].
    + cbn [for_each]. erewrite bind_ok by exact Hrun. exact Hrest.
    + auto.
    + intros p pk Hin Hp. apply elem_of_cons in Hin as [->|Hin].
      * apply Hkeeps'. replace pk with pkq by congruence. exact Hrow.
      * apply (Hrows p pk Hin). now rewrite Hsame.
Qed.

(** X17: when the link of a game to a clan is new and every player of
    the game is on the roster of the clan, the membership step returns,
    the link is in place, and every player has a GameMember row for the
    game, whether the row was there before or not. *)
Theorem store_clan_game_rows clan game game_db w :
  (clan, game_pk game_db) ∉ ClanGame_t (db w) ->
  (forall p, p ∈ clan_players game ->
     is_Some (by_platform (db w) !! (membership_id p, membership_type p, clan))) ->
  exists w',
    store_clan_game clan game game_db w = (Ok tt, w')
    /\ (clan, game_pk game_db) ∈ ClanGame_t (db w')
    /\ (forall p pk,
          p ∈ clan_players game ->
          by_platform (db w) !! (membership_id p, membership_type p, clan) = Some pk ->
          is_Some (GameMember_t (db w') !! (game_pk game_db, pk))).
Proof.
  intros Hnew Hroster.
  set (wl := with_db (with_ClanGame_t ({[(clan, game_pk game_db)]} ∪ ClanGame_t (db w))
                        (db w)) w).
  destruct (for_each_rows clan (game_pk game_db) (clan_players game) wl Hroster)
    as (w' & Hrun & _ & Hrows).
  assert (store_clan_game clan game game_db w = (Ok tt, w')) as Hstep.
  { unfold store_clan_game.
    erewrite try_except_handled; cycle 1.
    { unfold database_get_ClanGame. rewrite bool_decide_false by exact Hnew. reflexivity. }
    { reflexivity. }
    erewrite bind_ok; cycle 1.
    { unfold database_create_ClanGame. rewrite bool_decide_false by exact Hnew.
      reflexivity. }
    exact Hrun. }
  exists w'. split; [exact Hstep |]. split.
  - now apply store_clan_game_linked in Hstep as (Hlink & _).
  - exact Hrows.
Qed.

Lemma store_clan_game_rows_witness :
  exists w',
    store_clan_game 1 sample_game (GameRow 0 Sample.feb_2019 4) Sample.w0 = (Ok tt, w')
    /\ (1%nat, game_pk (GameRow 0 Sample.feb_2019 4)) ∈ ClanGame_t (db w')
    /\ (forall p pk,
          p ∈ clan_players sample_game ->
          by_platform (db Sample.w0) !! (membership_id p, membership_type p, 1%nat)
          = Some pk ->
          is_Some (GameMember_t (db w') !! (game_pk (GameRow 0 Sample.feb_2019 4), pk))).
Proof.
  apply (store_clan_game_rows 1 sample_game (GameRow 0 Sample.feb_2019 4) Sample.w0).
  - simpl. apply not_elem_of_empty.
  - intros p Hp. cbn [sample_game clan_players] in Hp.
    repeat (apply elem_of_cons in Hp as [->|Hp]; [vm_compute; eauto |]).
    now apply elem_of_nil in Hp.
Defined.

(** ** What the legacy flow records *)

Lemma count_player_counts mode mode_count p w :
  exists w',
    Legacy.count_player mode mode_count p w = (Ok (mode_count + 1), w')
    /\ l_games (ldb w') = l_games (ldb w)
    /\ (forall k, is_Some (l_sessions (ldb w) !! k) -> is_Some (l_sessions (ldb w') !! k))
    /\ is_Some (l_sessions (ldb w') !! (p, mode)).
Proof.
  unfold Legacy.count_player, try_except, Legacy.database_create_game_session,
    Legacy.database_update_game_session, Legacy.called, bind. cbn.
  destruct (l_sessions (ldb w) !! (p, mode)) as [s|] eqn:Hs; cbn.
  - rewrite Hs. cbn. eexists. split; [reflexivity |]. cbn. split; [reflexivity |]. split.
    + intros k Hk. destruct (decide (k = (p, mode))) as [->|Hne].
      * rewrite lookup_insert_eq. eauto.
      * now rewrite lookup_insert_ne.
    + rewrite lookup_insert_eq. eauto.
  - eexists. split; [reflexivity |]. cbn. split; [reflexivity |]. split.
    + intros k Hk. destruct (decide (k = (p, mode))) as [->|Hne].
      * rewrite lookup_insert_eq. eauto.
      * now rewrite lookup_insert_ne.
    + rewrite lookup_insert_eq. eauto.
Qed.

Lemma fold_count_player mode players :
  forall mode_count w,
  exists w',
    fold_m players (Legacy.count_player mode) mode_count w
    = (Ok (mode_count + Z.of_nat (length players)), w')
    /\ l_games (ldb w') = l_games (ldb w)
    /\ (forall k, is_Some (l_sessions (ldb w) !! k) -> is_Some (l_sessions (ldb w') !! k))
    /\ (forall p, p ∈ players -> is_Some (l_sessions (ldb w') !! (p, mode))).
Proof.
  induction players as [|q players IH]; intros mode_count w.
  - exists w. cbn. rewrite Z.add_0_r. repeat split; auto.
    intros p Hp. now apply elem_of_nil in Hp.
  - destruct (count_player_counts mode mode_count q w) as (w1 & Hrun & Hg & Hk & Hq).
    destruct (IH (mode_count + 1) w1) as (w' & Hrest & Hg' & Hk' & Hp').
    exists w'. split; [| split; [| split]].
    + cbn [fold_m]. erewrite bind_ok by exact Hrun. rewrite Hrest.
      do 2 f_equal. cbn [length]. lia.
    + congruence.
    + auto.
    + intros p Hp. apply elem_of_cons in Hp as [->|Hp]; auto.
Qed.

Lemma record_game_new details players mode mode_count w :
  l_games (ldb w) !! gd_instance_id details = None ->
  exists w',
    Legacy.record_game details players mode mode_count w
    = (Ok (mode_count + Z.of_nat (length players)), w')
    /\ l_games (ldb w')
       = <[gd_instance_id details := (details, players)]> (l_games (ldb w))
    /\ (forall p, p ∈ players -> is_Some (l_sessions (ldb w') !! (p, mode))).
Proof.
  intros Hnew.
  unfold Legacy.record_game, try_except_else, Legacy.database_create_game,
    Legacy.called, bind. cbn. rewrite Hnew.
  match goal with
  | |- context [fold_m players _ mode_count ?w0] =>
      destruct (fold_count_player mode players mode_count w0) as (w' & Hrun & Hg & _ & Hp)
  end.
  exists w'. split; [exact Hrun |]. split; [| exact Hp].
  rewrite Hg. reflexivity.
Qed.

(** X18: the legacy flow counts players, not games. For a game that the
    store does not hold yet, the recording step stores the game with its
    players, leaves every one of them with a session counter for the
    mode, and adds the number of players to the running count. *)
Theorem record_game_counts_players details players mode mode_count w :
  l_games (ldb w) !! gd_instance_id details = None ->
  exists w',
    Legacy.record_game details players mode mode_count w
    = (Ok (mode_count + Z.of_nat (length players)), w')
    /\ l_games (ldb w') !! gd_instance_id details = Some (details, players)
    /\ (forall p, p ∈ players -> is_Some (l_sessions (ldb w') !! (p, mode))).
Proof.
  intros Hnew.
  destruct (record_game_new details players mode mode_count w Hnew) as (w' & Hrun & Hg & Hp).
  exists w'. split; [exact Hrun |]. split; [| exact Hp].
  rewrite Hg. apply lookup_insert_eq.
Qed.

Lemma record_game_counts_players_witness :
  exists w',
    Legacy.record_game sample_details ["11"; "12"] 4 0 Sample.w0
    = (Ok (0 + Z.of_nat (length ["11"; "12"])), w')
    /\ l_games (ldb w') !! gd_instance_id sample_details
       = Some (sample_details, ["11"; "12"])
    /\ (forall p, p ∈ ["11"; "12"] -> is_Some (l_sessions (ldb w') !! (p, 4))).
Proof.
  apply (record_game_counts_players sample_details ["11"; "12"] 4 0 Sample.w0).
  reflexivity.
Defined.

Lemma recorded_by_same members w w' :
  l_games (ldb w') = l_games (ldb w) -> recorded_by members w w'.
Proof.
  intros Hsame. split.
  - intros id x H. now rewrite Hsame.
  - intros id d ps H. left. now rewrite <- Hsame.
Qed.

Lemma recorded_by_refl members w : recorded_by members w w.
Proof. now apply recorded_by_same. Qed.

Lemma recorded_by_trans members a b c :
  recorded_by members a b -> recorded_by members b c -> recorded_by members a c.
Proof.
  intros (Hkeep & Hab) (Hkeep' & Hbc). split.
  - intros id x H. now apply Hkeep', Hkeep.
  - intros id d ps H. destruct (Hbc id d ps H) as [Hb|Hnew]; [| now right].
    now apply Hab.
Qed.

Lemma recorded_by_kept members {A} (m : M A) :
  respects legacy_games_kept m -> respects (recorded_by members) m.
Proof. intros Hm w. apply recorded_by_same, Hm. Qed.

Lemma legacy_games_kept_refl w : legacy_games_kept w w.
Proof. reflexivity. Qed.

Lemma legacy_games_kept_fetch E fuel (r : request) :
  respects legacy_games_kept
    (on_exception E fuel [PydestException] None (Some 60000)
       (do c <- call_api r; await E c)).
Proof.
  apply respects_on_exception.
  - exact legacy_games_kept_refl.
  - exact legacy_games_kept_trans.
  - intros d w. reflexivity.
  - apply respects_bind; [exact legacy_games_kept_trans | |].
    + intros w. reflexivity.
    + intros c w. unfold await. now case_bool_decide.
Qed.

(** The names collected from a report are names of [members]. *)
Lemma eligible_players_members members game l :
  forall players w,
    Forall (fun p => p ∈ members) players ->
    match fst (Legacy.eligible_players members game l players w) with
    | Ok ps => Forall (fun p => p ∈ members) ps
    | _ => True
    end.
Proof.
  induction l as [|player l IH]; intros players w Hplayers; cbn [Legacy.eligible_players].
  - exact Hplayers.
  - destruct (lp_completed player); cbn [andb]; [| now apply IH].
    case_bool_decide as Hin; [| now apply IH].
    unfold bind at 1.
    destruct (Legacy.database_get_member (lp_name player) w) as [[m|e|] w1]; cbn [fst];
      try exact I.
    destruct (_ <? _); [| now apply IH].
    apply IH. apply Forall_app. split; [exact Hplayers |].
    now apply Forall_singleton.
Qed.

Lemma recorded_by_record_game members details players mode mode_count :
  (2 <= length players)%nat ->
  Legacy.FORSAKEN_RELEASE <= gd_date details ->
  Forall (fun p => p ∈ members) players ->
  respects (recorded_by members) (Legacy.record_game details players mode mode_count).
Proof.
  intros Hlen Hdate Hmembers w.
  destruct (l_games (ldb w) !! gd_instance_id details) as [x|] eqn:Hrow.
  - rewrite (record_game_known _ _ _ _ _ _ Hrow). now apply recorded_by_same.
  - destruct (record_game_new details players mode mode_count w Hrow) as (w' & Hrun & Hg & _).
    rewrite Hrun. cbn [snd]. split.
    + intros id x H. rewrite Hg.
      destruct (decide (id = gd_instance_id details)) as [->|Hne]; [congruence |].
      now rewrite lookup_insert_ne.
    + intros id d ps H. rewrite Hg in H.
      destruct (decide (id = gd_instance_id details)) as [->|Hne].
      * rewrite lookup_insert_eq in H. injection H as <- <-. right. auto.
      * rewrite lookup_insert_ne in H by congruence. now left.
Qed.

Lemma recorded_by_store_game members join mode threshold mode_count activity game :
  2 <= threshold ->
  respects (recorded_by members)
    (Legacy.store_game members join mode threshold mode_count activity game).
Proof.
  intros Hthreshold w. unfold Legacy.store_game, bind.
  pose proof (eligible_players_members members game (lg_players game) [] w (Forall_nil_2 _))
    as Hmembers.
  pose proof (legacy_store_kept_eligible_players members game (lg_players game) [] w)
    as Hkept.
  destruct (Legacy.eligible_players members game (lg_players game) [] w)
    as [[players|e|] w1]; cbn [fst snd] in *.
  - assert (recorded_by members w w1) as Hfirst.
    { apply recorded_by_same. unfold legacy_store_kept in Hkept. now rewrite Hkept. }
    destruct (Legacy.not_eligible players threshold game join) eqn:Hn.
    + exact Hfirst.
    + apply legacy_not_eligible_false_iff in Hn as (Hlen & Hdate & _).
      eapply recorded_by_trans; [exact Hfirst |].
      apply recorded_by_record_game; [lia | exact Hdate | exact Hmembers].
  - apply recorded_by_same. unfold legacy_store_kept in Hkept. now rewrite Hkept.
  - apply recorded_by_same. unfold legacy_store_kept in Hkept. now rewrite Hkept.
Qed.

Lemma recorded_by_store_mode E members fuel name member_id join char_ids check_date
    total mode :
  respects (recorded_by members)
    (Legacy.store_mode E fuel members name member_id join char_ids check_date total mode).
Proof.
  pose proof (recorded_by_refl members) as Hrefl.
  pose proof (recorded_by_trans members) as Htrans.
  unfold Legacy.store_mode.
  apply respects_bind; [exact Htrans | | intros [count|]].
  { apply recorded_by_kept. unfold Legacy.fresh_count.
    apply respects_try_except_else; [exact legacy_games_kept_trans | | |].
    - intros w. unfold Legacy.database_get_game_session, Legacy.called, bind. cbn.
      now destruct (_ !! _).
    - intros e w. reflexivity.
    - intros s. apply respects_bind; [exact legacy_games_kept_trans | |].
      + intros w. reflexivity.
      + intros t. destruct (_ && _); intros w; reflexivity. }
  { apply respects_ret, Hrefl. }
  apply respects_bind; [exact Htrans | apply respects_lift, Hrefl | intros player_count].
  set (threshold := if _ <? 2 then 2 else _).
  assert (2 <= threshold) as Hthreshold.
  { subst threshold. destruct (Z.ltb_spec (Z.quot player_count 2) 2); lia. }
  apply respects_bind; [exact Htrans | | intros mode_count].
  - apply respects_fold_m; [exact Hrefl | exact Htrans |].
    intros s char. unfold Legacy.store_character, Legacy.get_activity_list.
    apply respects_bind;
      [exact Htrans | apply recorded_by_kept, legacy_games_kept_fetch | intros a].
    apply respects_bind; [exact Htrans | | intros [activities|]].
    + apply respects_try_except; [exact Htrans | |].
      * apply respects_bind; [exact Htrans | apply respects_lift, Hrefl | intros r].
        apply respects_bind; [exact Htrans | apply respects_lift, Hrefl | intros x].
        apply respects_ret, Hrefl.
      * intros e. apply respects_ret, Hrefl.
    + apply respects_bind; [exact Htrans | apply respects_lift, Hrefl | intros l].
      apply respects_bind; [exact Htrans | apply respects_lift, Hrefl | intros ids].
      apply respects_fold_m; [exact Hrefl | exact Htrans |].
      intros s' activity. unfold Legacy.store_activity, Legacy.get_activity.
      apply respects_bind;
        [exact Htrans | apply recorded_by_kept, legacy_games_kept_fetch | intros pgcr].
      apply respects_bind; [exact Htrans | apply respects_lift, Hrefl | intros response].
      apply respects_bind; [exact Htrans | apply respects_lift, Hrefl | intros game].
      now apply recorded_by_store_game.
    + apply respects_ret, Hrefl.
  - apply respects_bind; [exact Htrans | | intros _; apply respects_ret, Hrefl].
    apply recorded_by_kept.
    apply respects_try_except; [exact legacy_games_kept_trans | |].
    + apply legacy_games_kept_update_game_session.
    + intros e w. reflexivity.
Qed.

(** X19: whatever its outcome, a run of the legacy flow never changes or
    removes a recorded game, and every game it adds has at least two
    players, all of them names of the roster as read at the start, is
    dated at or after the release, and is stored under its own activity
    id. *)
Theorem get_member_history_records E fuel member_name game_mode check_date w :
  recorded_by (map lm_xbox_username (l_members (ldb w))) w
    (snd (Legacy.get_member_history E fuel member_name game_mode check_date w)).
Proof.
  set (members := map lm_xbox_username (l_members (ldb w))).
  pose proof (recorded_by_refl members) as Hrefl.
  pose proof (recorded_by_trans members) as Htrans.
  unfold Legacy.get_member_history.
  destruct (Legacy.game_mode_list_of game_mode) as [modes|e|];
    [rewrite bind_lift_ok | apply Hrefl | apply Hrefl].
  unfold bind at 1, Legacy.database_get_members at 1, bind at 1, Legacy.called at 1.
  cbv beta iota. cbn [ldb with_trace]. fold members.
  set (wt := with_trace _ w).
  apply (Htrans w wt); [now apply recorded_by_same |].
  clearbody wt. clear Hrefl Htrans. clearbody members. revert wt.
  change (respects (recorded_by members)
            (do member_db <- Legacy.database_get_member member_name;
             do profile <- Legacy.get_profile E fuel (lm_bungie_id member_db);
             do response <- lift (getitem profile "Response");
             do characters <- lift (getitem response "characters");
             do data <- lift (getitem characters "data");
             do char_ids <- lift (keys data);
             fold_m modes
               (Legacy.store_mode E fuel members member_name (lm_bungie_id member_db)
                  (lm_join_date member_db) char_ids check_date) 0)).
  pose proof (recorded_by_refl members) as Hrefl.
  pose proof (recorded_by_trans members) as Htrans.
  apply respects_bind; [exact Htrans | | intros member_db].
  { apply recorded_by_kept. intros w1. unfold legacy_games_kept.
    pose proof (legacy_store_kept_get_member member_name w1) as H.
    unfold legacy_store_kept in H. now rewrite H. }
  apply respects_bind;
    [exact Htrans | apply recorded_by_kept, legacy_games_kept_fetch | intros profile].
  apply respects_bind; [exact Htrans | apply respects_lift, Hrefl | intros response].
  apply respects_bind; [exact Htrans | apply respects_lift, Hrefl | intros characters].
  apply respects_bind; [exact Htrans | apply respects_lift, Hrefl | intros data].
  apply respects_bind; [exact Htrans | apply respects_lift, Hrefl | intros char_ids].
  apply respects_fold_m; [exact Hrefl | exact Htrans |].
  intros total mode. apply recorded_by_store_mode.
Qed.

(** ** The last activity of a member *)

Lemma last_active_from_latest date record platform member characters :
  forall dates acct w,
    Forall2 (fun character d =>
               obind (getitem (snd character) "dateLastPlayed") date = Ok d)
            characters dates ->
    exists w',
      last_active_from date record platform member characters acct w
      = (Ok (match dates, acct with
             | [], _ => acct
             | d :: dates', None => Some (foldr Z.max d dates')
             | d :: dates', Some a => Some (Z.max a (foldr Z.max d dates'))
             end), w')
      /\ redis w' = redis w /\ db w' = db w.
Proof.
  induction characters as [|[name character] characters IH]; intros dates acct w Hdates.
  - apply Forall2_nil_inv_l in Hdates as ->. exists w. repeat split.
  - apply Forall2_cons_inv_l in Hdates as (d & dates' & Hd & Hdates & ->).
    cbn [snd] in Hd. cbn [last_active_from].
    unfold obind in Hd.
    destruct (getitem character "dateLastPlayed") as [played| |]; try discriminate.
    rewrite bind_lift_ok, Hd, bind_lift_ok.
    assert (forall a (l : list Z) x, Z.max a (foldr Z.max x l) = foldr Z.max (Z.max a x) l)
      as Hmax.
    { intros a l. induction l as [|y l IHl]; intros x; cbn [foldr]; [reflexivity |].
      rewrite <- IHl. lia. }
    destruct acct as [a|].
    + destruct (Z.ltb_spec a d).
      * unfold bind at 1, logging at 1. cbv beta iota.
        match goal with
        | |- context [last_active_from _ _ _ _ _ _ ?w0] =>
            destruct (IH dates' (Some d) w0 Hdates) as (w' & Hrun & Hr & Hdb)
        end.
        exists w'. split; [| split; [exact Hr | exact Hdb]].
        rewrite Hrun. do 2 f_equal.
        destruct dates' as [|d' dates'']; cbn [foldr]; f_equal; [lia |].
        rewrite !Hmax. f_equal. lia.
      * destruct (IH dates' (Some a) w Hdates) as (w' & Hrun & Hr & Hdb).
        exists w'. split; [| split; [exact Hr | exact Hdb]].
        rewrite Hrun. do 2 f_equal.
        destruct dates' as [|d' dates'']; cbn [foldr]; f_equal; [lia |].
        rewrite !Hmax. f_equal. lia.
    + unfold bind at 1, logging at 1. cbv beta iota.
      match goal with
      | |- context [last_active_from _ _ _ _ _ _ ?w0] =>
          destruct (IH dates' (Some d) w0 Hdates) as (w' & Hrun & Hr & Hdb)
      end.
      exists w'. split; [| split; [exact Hr | exact Hdb]].
      rewrite Hrun. do 2 f_equal.
      destruct dates' as [|d' dates'']; cbn [foldr]; f_equal.
      rewrite !Hmax. f_equal. lia.
Qed.

(** X20: [get_last_active] returns the latest of the dates at which the
    characters of the member were last played, and [None] when the
    member has no character. *)
Theorem get_last_active_latest K E date record fuel member_db w
    member_id member_username characters w1 dates :
  parse_platform K member_db (platform_id (member_clanmember member_db))
  = Ok (member_id, member_username) ->
  get_characters K E fuel member_id (platform_id (member_clanmember member_db)) w
  = (Ok (VDict characters), w1) ->
  Forall2 (fun character d =>
             obind (getitem (snd character) "dateLastPlayed") date = Ok d)
          characters dates ->
  exists latest w',
    get_last_active K E date record fuel member_db w = (Ok latest, w')
    /\ (dates = [] -> latest = None)
    /\ (forall d, d ∈ dates ->
          exists t, latest = Some t /\ t ∈ dates /\ Forall (fun d' => d' <= t) dates).
Proof.
  intros Hids Hchars Hdates.
  destruct (last_active_from_latest date record (platform_id (member_clanmember member_db))
              member_id characters dates None w1 Hdates) as (w' & Hrun & _).
  eexists. exists w'. split; [| split].
  - unfold get_last_active. rewrite Hids, bind_lift_ok. cbn [fst].
    erewrite bind_ok; cycle 1.
    { apply try_except_ok. erewrite bind_ok by exact Hchars.
      cbn [items]. rewrite bind_lift_ok. reflexivity. }
    exact Hrun.
  - intros ->. reflexivity.
  - intros d Hd. destruct dates as [|d0 dates']; [now apply elem_of_nil in Hd |].
    exists (foldr Z.max d0 dates'). split; [reflexivity |]. clear.
    induction dates' as [|x l IH]; cbn [foldr].
    + split; [apply list_elem_of_here | now apply Forall_singleton].
    + destruct IH as (Hin & Hall). apply Forall_cons in Hall as (H0 & Hall). split.
      * destruct (Z.max_spec x (foldr Z.max d0 l)) as [[_ ->]|[_ ->]].
        -- apply elem_of_cons in Hin as [->|Hin]; [apply list_elem_of_here |].
           now do 2 apply list_elem_of_further.
        -- apply list_elem_of_further, list_elem_of_here.
      * repeat apply Forall_cons_2; [lia | lia |].
        eapply Forall_impl; [exact Hall |]. cbn. intros; lia.
Qed.

Lemma get_last_active_latest_witness :
  exists latest w',
    get_last_active Sample.K (Sample.env played 0) Sample.as_int
      (fun _ _ t => LogDebugFound t "" "") 3 (Sample.member 1 "11") Sample.w0
    = (Ok latest, w')
    /\ ([5; 9] = [] -> latest = None)
    /\ (forall d, d ∈ [5; 9] ->
          exists t, latest = Some t /\ t ∈ [5; 9] /\ Forall (fun d' => d' <= t) [5; 9]).
Proof.
  apply (get_last_active_latest Sample.K (Sample.env played 0) Sample.as_int
           (fun _ _ t => LogDebugFound t "" "") 3 (Sample.member 1 "11") Sample.w0
           "11" "11"
           [("c1", VDict [("dateLastPlayed", VInt 5)]);
            ("c2", VDict [("dateLastPlayed", VInt 9)])]
           (snd (get_characters Sample.K (Sample.env played 0) 3 "11" 1 Sample.w0))
           [5; 9]).
  - reflexivity.
  - vm_compute. reflexivity.
  - repeat constructor.
Defined.

(** ** The Game rows of a run *)

Lemma rows_dated_same K E w w' :
  Game_t (db w') = Game_t (db w) -> rows_dated K E w w'.
Proof.
  intros Hsame. split.
  - intros i r H. now rewrite Hsame.
  - intros i r H. left. now rewrite <- Hsame.
Qed.

Lemma rows_dated_refl K E w : rows_dated K E w w.
Proof. now apply rows_dated_same. Qed.

Lemma rows_dated_trans K E a b c :
  rows_dated K E a b -> rows_dated K E b c -> rows_dated K E a c.
Proof.
  intros (Hkeep & Hab) (Hkeep' & Hbc). split.
  - intros i r H. now apply Hkeep', Hkeep.
  - intros i r H. destruct (Hbc i r H) as [Hb|Hnew]; [| now right].
    now apply Hab.
Qed.

Lemma rows_dated_kept K E {A} (m : M A) :
  respects games_kept m -> respects (rows_dated K E) m.
Proof. intros Hm w. apply rows_dated_same, Hm. Qed.

Lemma rows_dated_store_game K E member_dbs member_db mode_count activity pgcr :
  respects (rows_dated K E) (store_game K E member_dbs member_db mode_count activity pgcr).
Proof.
  intros w. unfold store_game.
  destruct (ClanGame E pgcr member_dbs) as [game|e|];
    [rewrite bind_lift_ok | apply rows_dated_refl | apply rows_dated_refl].
  destruct (MODE_MAP K (mode_id game)) as [details|] eqn:Hmode;
    [rewrite bind_lift_ok | apply rows_dated_refl].
  destruct (not_eligible K E game details member_db) eqn:Hn; [apply rows_dated_refl |].
  apply not_eligible_false_iff in Hn as (_ & Hrelease & Hcutoff & _).
  destruct (Game_t (db w) !! instance_id game) as [r|] eqn:Hrow.
  - erewrite bind_ok by (apply store_game_row_found; exact Hrow). cbn [fst snd].
    apply rows_dated_kept.
    apply respects_bind; [exact games_kept_trans | | intros _; intros w'; reflexivity].
    apply games_kept_store_clan_game.
  - destruct (store_game_row_created game (py_title (md_title details)) activity
                mode_count w Hrow) as (w1 & Hrun & Hgames).
    erewrite bind_ok by exact Hrun. cbn [fst snd].
    apply (rows_dated_trans K E w w1).
    + split.
      * intros i r H. rewrite Hgames.
        destruct (decide (i = instance_id game)) as [->|Hne]; [congruence |].
        now rewrite lookup_insert_ne.
      * intros i r H. rewrite Hgames in H.
        destruct (decide (i = instance_id game)) as [->|Hne].
        -- rewrite lookup_insert_eq in H. injection H as <-. right. cbn.
           rewrite Hmode. eauto.
        -- rewrite lookup_insert_ne in H by congruence. now left.
    + apply rows_dated_kept.
      apply respects_bind; [exact games_kept_trans | | intros _; intros w'; reflexivity].
      apply games_kept_store_clan_game.
Qed.

(** X21: whatever its outcome, a unit, that is one run of
    [store_member_history], never changes or removes a Game row, and
    every row it adds is of a known mode and dated at or after both the
    release and the configured cutoff. *)
Theorem store_member_history_rows_dated K E fuel member_dbs member_db game_mode w :
  rows_dated K E w (snd (store_member_history K E fuel member_dbs member_db game_mode w)).
Proof.
  revert w.
  change (respects (rows_dated K E)
            (store_member_history K E fuel member_dbs member_db game_mode)).
  pose proof (rows_dated_refl K E) as Hrefl.
  pose proof (rows_dated_trans K E) as Htrans.
  unfold store_member_history.
  apply respects_bind; [exact Htrans | apply respects_lift, Hrefl | intros ids].
  apply respects_bind; [exact Htrans | | intros [char_ids|]].
  { apply rows_dated_kept.
    apply respects_try_except; [exact games_kept_trans | | intros e].
    - apply respects_bind;
        [exact games_kept_trans | apply games_kept_get_characters | intros c].
      apply respects_bind; [exact games_kept_trans | | intros ks];
        intros w; reflexivity.
    - intros w. reflexivity. }
  2:{ apply respects_ret, Hrefl. }
  apply respects_bind; [exact Htrans | apply respects_lift, Hrefl | intros modes].
  apply respects_bind; [exact Htrans | | intros all_activity_ids].
  { apply rows_dated_kept.
    apply respects_fold_m; [exact games_kept_refl | exact games_kept_trans |].
    intros all mode.
    apply respects_bind;
      [exact games_kept_trans | apply games_kept_get_activity_list | intros l].
    intros w. reflexivity. }
  apply respects_bind; [exact Htrans | | intros mode_count].
  - apply respects_fold_m; [exact Hrefl | exact Htrans |].
    intros count activity. unfold store_activity.
    apply respects_bind; [exact Htrans | | intros [pgcr|]].
    + apply rows_dated_kept.
      apply respects_try_except; [exact games_kept_trans | | intros e].
      * apply respects_bind;
          [exact games_kept_trans | apply games_kept_get_pgcr | intros p].
        intros w. reflexivity.
      * apply respects_try_except; [exact games_kept_trans | | intros e'].
        -- apply respects_bind;
             [exact games_kept_trans | apply games_kept_get_pgcr | intros p].
           intros w. reflexivity.
        -- intros w. reflexivity.
    + destruct (negb (truthy pgcr)).
      * apply rows_dated_kept. intros w. reflexivity.
      * apply rows_dated_store_game.
    + apply respects_ret, Hrefl.
  - destruct (negb _); apply rows_dated_kept; intros w; reflexivity.
Qed.

(** ** A game mode that is not supported *)

(** X22: a game mode for which [SUPPORTED_GAME_MODES] has no entry makes
    [store_member_history] raise [TypeError], from the loop over the
    modes: the failure comes only after the characters of the member
    were read, and nothing is written after that. *)
Theorem store_member_history_unsupported_mode K E fuel member_dbs member_db game_mode w
    member_id member_username characters w1 :
  parse_platform K member_db (platform_id (member_clanmember member_db))
  = Ok (member_id, member_username) ->
  get_characters K E fuel member_id (platform_id (member_clanmember member_db)) w
  = (Ok (VDict characters), w1) ->
  SUPPORTED_GAME_MODES K game_mode = None ->
  store_member_history K E fuel member_dbs member_db game_mode w = (Raise TypeError, w1).
Proof.
  intros Hids Hchars Hmode. unfold store_member_history.
  rewrite Hids, bind_lift_ok. cbn [fst snd].
  erewrite bind_ok; cycle 1.
  { apply try_except_ok. erewrite bind_ok by exact Hchars.
    cbn [keys]. rewrite bind_lift_ok. reflexivity. }
  cbv beta iota. rewrite Hmode. apply bind_lift_raise.
Qed.

Lemma store_member_history_unsupported_mode_witness :
  store_member_history Sample.K Sample.E 3 Sample.roster (Sample.member 1 "11") "gambit"
    Sample.w0
  = (Raise TypeError, snd (get_characters Sample.K Sample.E 3 "11" 1 Sample.w0)).
Proof.
  apply (store_member_history_unsupported_mode Sample.K Sample.E 3 Sample.roster
           (Sample.member 1 "11") "gambit" Sample.w0 "11" "11" [("c1", VDict [])]).
  - reflexivity.
  - vm_compute. reflexivity.
  - reflexivity.
Defined.
